(** * Veg-index-processor: index formulas and batch orchestration

    A shallow embedding of
      - [src/indices/index_calculations.py]  (safe division and the eight
        band-math formulas), and
      - [src/process_all_scenes.py]          (band loading, per-scene index
        dispatch, persistence, the thread-pool batch run and the summary),
    followed by the properties established about them.

    Numbers.  The band grids reach the formulas as numpy [float32] arrays
    ([src.read(1).astype('float32')]), so a grid cell is an IEEE-754
    binary32 value.  They are modelled with the Standard Library's
    [spec_float] at precision 24 and maximal exponent 128; the arithmetic
    is [SFadd], [SFsub], [SFmul], [SFdiv] at that format.  Python scalars
    that meet an array ([1], [0.5], [2.5], [6], [7.5], ...) are converted
    to the array's type by numpy; every scalar of the source is exactly
    representable in binary32.

    Arrays.  A grid is the list of its rows; an elementwise operation
    follows numpy's broadcasting rule and raises [ValueError] when the
    shapes do not fit.

    Effects.  The file system and the clock are an environment [env] of
    answers (what a path holds, whether a write succeeds, what the clock
    reads); every I/O call returns, with a value or with an exception.
    The state that the program changes (directories created, rasters
    and summaries written, the log, the clock readings made) is a
    [world] passed along.  A call
    of [process_scene] is the composition of its statements; under the
    thread pool the statements of the calls are interleaved by a
    schedule, the sequence of worker turns. *)

From Stdlib Require Import ZArith Bool List Lia Ascii String SpecFloat Permutation.
From stdpp Require Import base option list gmap strings fin_maps.

Local Open Scope Z_scope.

(* ===================================================================== *)
(** * binary32 arithmetic                                                 *)
(* ===================================================================== *)

Module F32.

Definition prec : Z := 24.
Definition emax : Z := 128.

Abbreviation f32 := spec_float.

Definition add : f32 -> f32 -> f32 := SFadd prec emax.
Definition sub : f32 -> f32 -> f32 := SFsub prec emax.
Definition mul : f32 -> f32 -> f32 := SFmul prec emax.
Definition div : f32 -> f32 -> f32 := SFdiv prec emax.

(** [lit m e] is the binary32 value of [m * 2^e] (rounded to nearest
    even; exact for every literal of the source). *)
Definition lit (m e : Z) : f32 := binary_normalize prec emax m e false.

Definition zero : f32 := S754_zero false.
Definition pinf : f32 := S754_infinity false.
Definition ninf : f32 := S754_infinity true.

(** [np.isnan] on one cell. *)
Definition isnan (x : f32) : bool :=
  match x with S754_nan => true | _ => false end.

Definition is_zero (x : f32) : bool :=
  match x with S754_zero _ => true | _ => false end.

Definition is_finite_nonzero (x : f32) : bool :=
  match x with S754_finite _ _ _ => true | _ => false end.

Definition is_inf (x : f32) : bool :=
  match x with S754_infinity _ => true | _ => false end.

Definition sign (x : f32) : bool :=
  match x with
  | S754_zero s | S754_infinity s | S754_finite s _ _ => s
  | S754_nan => false
  end.

End F32.

Import F32.

(* ===================================================================== *)
(** * Exceptions                                                          *)
(* ===================================================================== *)

(** The Python exceptions that the modelled code can meet. *)
Inductive exn : Type :=
| TypeError        (* arithmetic on [None] *)
| ValueError       (* operands could not be broadcast together *)
| AttributeError   (* [None.update(...)] *)
| KeyError         (* a dictionary key that is not bound *)
| OSError.         (* a file-system or raster-codec failure *)

(** A computation that returns a value or raises. *)
Inductive res (A : Type) : Type :=
| Ok (a : A)
| Raise (e : exn).
Arguments Ok {A} a.
Arguments Raise {A} e.

#[global] Instance res_ret : MRet res := fun A a => Ok a.
#[global] Instance res_bind : MBind res := fun A B f m =>
  match m with
  | Ok a => f a
  | Raise e => Raise e
  end.

Definition is_ok {A} (r : res A) : bool :=
  match r with Ok _ => true | Raise _ => false end.

(* ===================================================================== *)
(** * numpy grids                                                         *)
(* ===================================================================== *)

(** A 2-D array is the list of its rows.  Rasters read from a band file
    have at least one row and one column and all rows of one length.
    Arrays of another rank (a 0-d array, on which the masked assignment
    of [safe_divide] raises [TypeError]) have no counterpart here, and an
    array without rows is the empty list, which does not keep its
    width: the statements about shapes that do not fit are made for
    arrays with at least one row. *)

Module Np.

Abbreviation grid := (list (list f32)).

Definition shape_eq (a b : grid) : Prop := map length a = map length b.

#[global] Instance shape_eq_dec a b : Decision (shape_eq a b).
Proof. unfold shape_eq. apply _. Defined.

Fixpoint map_res {A C : Type} (f : A -> res C) (xs : list A) : res (list C) :=
  match xs with
  | [] => Ok []
  | x :: xs' => c ← f x; cs ← map_res f xs'; Ok (c :: cs)
  end.

Section Broadcast.
Context {A B C : Type}.

(** Pair the elements of two lists of one length. *)
Fixpoint zip_res (f : A -> B -> res C) (xs : list A) (ys : list B)
  : res (list C) :=
  match xs, ys with
  | [], [] => Ok []
  | x :: xs', y :: ys' =>
      c ← f x y; cs ← zip_res f xs' ys'; Ok (c :: cs)
  | _, _ => Raise ValueError
  end.

(** numpy's broadcasting rule along one axis: equal lengths are
    paired; an axis of length one is stretched over the other
    operand; any other pair of lengths raises [ValueError]. *)
Definition bcast (f : A -> B -> res C) (xs : list A) (ys : list B)
  : res (list C) :=
  if (length xs =? length ys)%nat then zip_res f xs ys
  else match xs with
       | [x] => map_res (fun y => f x y) ys
       | _ => match ys with
              | [y] => map_res (fun x => f x y) xs
              | _ => Raise ValueError
              end
       end.
End Broadcast.

(** An elementwise binary operator on two arrays: broadcasting on the
    row axis, then on the column axis. *)
Definition binop (op : f32 -> f32 -> f32) (a b : grid) : res grid :=
  bcast (bcast (fun x y => Ok (op x y))) a b.

(** An elementwise operator with a scalar operand. *)
Definition map_cells (f : f32 -> f32) (a : grid) : grid := map (map f) a.

(** [np.isnan(a)]: the boolean mask of the NaN cells. *)
Definition isnan (a : grid) : list (list bool) := map (map F32.isnan) a.

(** [a[mask] = v]: assignment through a boolean mask of [a]'s shape. *)
Definition set_where (a : grid) (mask : list (list bool)) (v : f32) : grid :=
  zip_with (zip_with (fun x (m : bool) => if m then v else x)) a mask.

(** The cell at row [i], column [j]. *)
Definition cell (a : grid) (i j : nat) : option f32 :=
  r ← a !! i; r !! j.

Definition no_nan (a : grid) : bool :=
  forallb (forallb (fun x => negb (F32.isnan x))) a.

End Np.

Import Np.

(* ===================================================================== *)
(** * indices/index_calculations.py                                       *)
(* ===================================================================== *)

Module IndexCalculations.

(** [[
    def safe_divide(numerator, denominator):
        with np.errstate(divide='ignore', invalid='ignore'):
            result = numerator / denominator
            result[np.isnan(result)] = 0
            return result
    ]]
    [np.errstate] silences the floating-point warnings of the division;
    the division itself yields infinities and NaNs as IEEE-754 says. *)
Definition safe_divide (numerator denominator : grid) : res grid :=
  result ← binop div numerator denominator;
  Ok (set_where result (Np.isnan result) zero).

(** [[ return safe_divide(nir - red, nir + red) ]] *)
Definition calculate_ndvi (nir red : grid) : res grid :=
  n ← binop sub nir red;
  d ← binop add nir red;
  safe_divide n d.

(** [[ return safe_divide((nir - red), (nir + red + L)) * (1 + L) ]]
    [L] stands for the binary32 value that numpy takes for the scalar.
    [1 + L] is Python arithmetic on double-precision scalars, rounded to
    binary32 when it meets the array; the binary32 sum taken here is
    that value when the sum is exact, as it is for the default
    [L = 0.5] (1.5), the only value with which the program calls the
    function and for which statements are made below (and for [L = -1],
    where it is 0). *)
Definition calculate_savi (nir red : grid) (L : f32) : res grid :=
  n ← binop sub nir red;
  s ← binop add nir red;
  let d := map_cells (fun x => add x L) s in
  q ← safe_divide n d;
  Ok (map_cells (fun x => mul x (add (lit 1 0) L)) q).

(** [[ return G * safe_divide((nir - red), (nir + C1 * red - C2 * blue + L)) ]] *)
Definition calculate_evi (nir red blue : grid) (G C1 C2 L : f32) : res grid :=
  n ← binop sub nir red;
  t1 ← binop add nir (map_cells (fun x => mul C1 x) red);
  t2 ← binop sub t1 (map_cells (fun x => mul C2 x) blue);
  let d := map_cells (fun x => add x L) t2 in
  q ← safe_divide n d;
  Ok (map_cells (fun x => mul G x) q).

(** [[
    red_corr = red - (2 * (red - blue))
    return safe_divide(nir - red_corr, nir + red_corr)
    ]] *)
Definition calculate_arvi (nir red blue : grid) : res grid :=
  rb ← binop sub red blue;
  red_corr ← binop sub red (map_cells (fun x => mul (lit 2 0) x) rb);
  n ← binop sub nir red_corr;
  d ← binop add nir red_corr;
  safe_divide n d.

(** [[ return safe_divide(nir - swir2, nir + swir2) ]] *)
Definition calculate_nbr (nir swir2 : grid) : res grid :=
  n ← binop sub nir swir2;
  d ← binop add nir swir2;
  safe_divide n d.

(** [[ return safe_divide(green - nir, green + nir) ]] *)
Definition calculate_nbwi (green nir : grid) : res grid :=
  n ← binop sub green nir;
  d ← binop add green nir;
  safe_divide n d.

(** [[ return safe_divide(swir1 - nir, swir1 + nir) ]] *)
Definition calculate_ndbi (swir1 nir : grid) : res grid :=
  n ← binop sub swir1 nir;
  d ← binop add swir1 nir;
  safe_divide n d.

(** [[ return safe_divide(nir, green) - 1 ]] *)
Definition calculate_gci (nir green : grid) : res grid :=
  q ← safe_divide nir green;
  Ok (map_cells (fun x => sub x (lit 1 0)) q).

(** Default values of the keyword parameters. *)
Definition SAVI_L : f32 := lit 1 (-1).          (* L=0.5 *)
Definition EVI_G  : f32 := lit 5 (-1).          (* G=2.5 *)
Definition EVI_C1 : f32 := lit 6 0.             (* C1=6 *)
Definition EVI_C2 : f32 := lit 15 (-1).         (* C2=7.5 *)
Definition EVI_L  : f32 := lit 1 0.             (* L=1 *)

End IndexCalculations.

Import IndexCalculations.


(* ===================================================================== *)
(** * process_all_scenes.py                                               *)
(* ===================================================================== *)

Module ProcessAllScenes.

(** ** The outside world *)

(** A rasterio profile: the pixel type, the band count and the
    georeferencing of a raster (size, coordinate reference, transform). *)
Record raster_profile : Type := {
  dtype : string;
  count : Z;
  height : nat;
  width : nat;
  crs : string;
  transform : string;
}.

(** [profile.update(dtype=rasterio.float32, count=1)] *)
Definition profile_update (p : raster_profile) : raster_profile :=
  {| dtype := "float32"; count := 1; height := height p; width := width p;
     crs := crs p; transform := transform p |}.

(** What a path of the input tree holds. *)
Inductive band_file : Type :=
| Missing                                  (* [os.path.exists] is false *)
| Unreadable                               (* [rasterio.open] or [read] raises *)
| Readable (data : grid) (p : raster_profile).    (* band 1 as float32, and the profile *)

(** The environment of a run: what the file system and the clock answer.
    It is read, never changed, by the program. *)
Record env : Type := {
  file_at : string -> band_file;
  input_dirs : list string;          (* the sub-directories of the input root *)
  makedirs_ok : string -> bool;      (* [os.makedirs(dir, exist_ok=True)] succeeds *)
  write_ok : string -> raster_profile -> grid -> bool;
                                     (* opening the path for writing with the
                                        profile and writing the grid succeeds *)
  summary_ok : string -> bool;       (* in a directory that exists, opening
                                        the path for writing and writing the
                                        lines of the summary succeeds *)
  time_time : nat -> Z;              (* the n-th reading of the clock, in
                                        hundredths of a second *)
}.

(** The command line ([argparse]); [timestamp] is fixed when the module
    is loaded. *)
Record args : Type := {
  arg_scene : option string;
  arg_input : string;
  arg_output : string;
  arg_indices : option (list string);
  timestamp : string;
}.

Definition ALL_INDICES : list string :=
  ["NDVI"; "SAVI"; "EVI"; "ARVI"; "NBR"; "NBWI"; "NDBI"; "GCI"].

Definition INPUT_ROOT (a : args) : string := arg_input a.
Definition OUTPUT_ROOT (a : args) : string := arg_output a.

(** [[ SELECTED_INDICES = args.indices or [...all eight...] ]] *)
Definition SELECTED_INDICES (a : args) : list string :=
  match arg_indices a with
  | Some (x :: l) => x :: l
  | _ => ALL_INDICES
  end.

Inductive log_entry : Type :=
| LogBatchStarted
| LogProcessing (scene_name : string)
| LogLoadFailed (path : string)                       (* error, [load_band] *)
| LogCouldNotLoad (filename scene_name : string)      (* warning *)
| LogMissing (filename scene_name : string)           (* warning *)
| LogSaved (out_path : string)
| LogSaveFailed (name : string) (e : exn)             (* error, [save_index] *)
| LogUnexpected (scene_name : string) (e : exn)       (* error, [process_scene] *)
| LogFinished (scene_name : string) (elapsed : Z)
| LogErrorIn (folder : string) (e : exn)              (* error, scheduler *)
| LogSummarySaved (csv_path : string)
| LogAllProcessed.

(** [[ results = {"scene": scene_name, "time_sec": 0} ]] and the index
    entries added later. *)
Record scene_result : Type := {
  scene : string;
  time_sec : Z;
  entries : gmap string bool;
}.

(** One line of the summary: the columns
    [scene, NDVI, SAVI, EVI, ARVI, NBR, NBWI, NDBI, GCI, time_sec];
    an index without entry leaves its column empty. *)
Record csv_row : Type := {
  col_scene : string;
  col_indices : list (option bool);
  col_time_sec : Z;
}.

(** The state that the run shares and changes: the clock readings made,
    the directories of the output tree that exist, the rasters and
    summaries written, and the log. *)
Record world : Type := {
  ticks : nat;
  dirs : gset string;
  rasters : gmap string (grid * raster_profile);
  summaries : list (string * list csv_row);
  log : list log_entry;
}.

Definition logging (e : log_entry) (w : world) : world :=
  {| ticks := ticks w; dirs := dirs w; rasters := rasters w;
     summaries := summaries w; log := log w ++ [e] |}.

(** [time.time()] *)
Definition time (E : env) (w : world) : Z * world :=
  (time_time E (ticks w),
   {| ticks := S (ticks w); dirs := dirs w; rasters := rasters w;
      summaries := summaries w; log := log w |}).

Definition write_raster (path : string) (g : grid) (p : raster_profile) (w : world)
  : world :=
  {| ticks := ticks w; dirs := dirs w;
     rasters := <[path := (g, p)]> (rasters w);
     summaries := summaries w; log := log w |}.

Definition write_summary (path : string) (rows : list csv_row) (w : world)
  : world :=
  {| ticks := ticks w; dirs := dirs w; rasters := rasters w;
     summaries := summaries w ++ [(path, rows)]; log := log w |}.

(** ** Paths *)

(** [os.path.join(a, b)] for a relative [b] and an [a] that does not end
    with a slash.  Paths are compared as strings. *)
Definition path_join (a b : string) : string :=
  (a ++ "/" ++ b)%string.

(** The directories on the way to [s]: what precedes each slash of [s],
    and [s] itself. *)
Fixpoint path_prefixes (acc s : string) : list string :=
  match s with
  | EmptyString => [acc]
  | String c s' =>
      if Ascii.eqb c "/"%char
      then acc :: path_prefixes (acc ++ "/")%string s'
      else path_prefixes (acc ++ String c EmptyString)%string s'
  end.

(** The effect of a successful [os.makedirs(path, exist_ok=True)]: the
    directory and the missing ones on the way to it exist. *)
Definition makedirs (path : string) (w : world) : world :=
  {| ticks := ticks w;
     dirs := dirs w ∪ list_to_set (path_prefixes EmptyString path);
     rasters := rasters w; summaries := summaries w; log := log w |}.

(** [os.path.basename]: what follows the last slash. *)
Fixpoint basename_from (acc s : string) : string :=
  match s with
  | EmptyString => acc
  | String c s' =>
      if Ascii.eqb c "/"%char then basename_from EmptyString s'
      else basename_from (acc ++ String c EmptyString)%string s'
  end.
Definition basename (s : string) : string := basename_from EmptyString s.

(** ** Band File Map *)

(** A Python dict keeps the order of insertion, so [band_files.items()]
    goes through B2, ..., B7 in this order. *)
Definition band_files : list (string * string) :=
  [("B2", "B2.tif"); ("B3", "B3.tif"); ("B4", "B4.tif");
   ("B5", "B5.tif"); ("B6", "B6.tif"); ("B7", "B7.tif")]%string.

(** ** load_band *)

(** [[
    try:
        with rasterio.open(path) as src:
            return src.read(1).astype('float32'), src.profile
    except Exception as e:
        logging.error(...)
        return None, None
    ]] *)
Definition load_band (E : env) (path : string) (w : world)
  : (option grid * option raster_profile) * world :=
  match file_at E path with
  | Readable data p => ((Some data, Some p), w)
  | _ => ((None, None), logging (LogLoadFailed path) w)
  end.

(** ** save_index *)

(** The body of the [try] of [save_index]:
    [[
    os.makedirs(output_dir, exist_ok=True)
    profile.update(dtype=rasterio.float32, count=1)
    out_path = os.path.join(output_dir, f"{name}.tif")
    with rasterio.open(out_path, 'w', **profile) as dst:
        dst.write(index_array.astype(rasterio.float32), 1)
    logging.info(...)
    ]]
    The first component tells whether the body ended or raised.
    [profile] is the caller's object, changed in place by [update]: the
    second component is its state when the body is left.  The rasters
    of the world are the files completely written.  What a call that
    fails leaves behind is not recorded: [os.makedirs] may have created
    parent directories before it failed, and [rasterio.open] may have
    created or emptied the file before the write failed.  The
    statements below that speak of a save that failed speak of the
    value returned, of the log and of the other files only. *)
Definition persist (E : env) (index_array : grid) (name : string)
    (profile : option raster_profile) (output_dir : string) (w : world)
  : res unit * option raster_profile * world :=
  if negb (makedirs_ok E output_dir) then (Raise OSError, profile, w)
  else
    let w := makedirs output_dir w in
    match profile with
    | None => (Raise AttributeError, None, w)
    | Some p =>
        let p' := profile_update p in
        let out_path := path_join output_dir (name ++ ".tif") in
        if write_ok E out_path p' index_array then
          (Ok tt, Some p',
           logging (LogSaved out_path)
                   (write_raster out_path index_array p' w))
        else (Raise OSError, Some p', w)
    end.

(** [[
    try:
        ...
        return True
    except Exception as e:
        logging.error(...)
        return False
    ]] *)
Definition save_index (E : env) (index_array : grid) (name : string)
    (profile : option raster_profile) (output_dir : string) (w : world)
  : bool * option raster_profile * world :=
  match persist E index_array name profile output_dir w with
  | (Ok _, p', w') => (true, p', w')
  | (Raise e, p', w') => (false, p', logging (LogSaveFailed name e) w')
  end.

(** ** process_scene *)

(** The local variables of one call of [process_scene].  [pending] holds
    the exception that made control leave the [try] block, if any. *)
Record locals : Type := {
  scene_path : string;
  scene_name : string;
  start_time : Z;
  bands : gmap string (option grid);
  profile : option raster_profile;
  results : scene_result;
  pending : option exn;
}.

(** [bands[k]] used as an operand: an unbound key raises [KeyError];
    [None] makes the first arithmetic operation of the formula that
    meets it raise [TypeError].  The operands are looked at before the
    formula is entered: when one operand is [None] and two others differ
    in shape, Python may meet the [ValueError] first; either way the
    call raises. *)
Definition band (bs : gmap string (option grid)) (k : string) : res grid :=
  match bs !! k with
  | Some (Some g) => Ok g
  | Some None => Raise TypeError
  | None => Raise KeyError
  end.

(** [{...}.issubset(bands)]: every name is a key of the dict. *)
Definition issubset {V} (ks : list string) (m : gmap string V) : bool :=
  forallb (fun k => bool_decide (is_Some (m !! k))) ks.

(** One [if] of the [try] block: the index, the band names of its guard
    and the formula applied to the bands. *)
Record index_spec : Type := {
  idx_name : string;
  idx_requires : list string;
  idx_compute : gmap string (option grid) -> res grid;
}.

Definition INDEX_TABLE : list index_spec := [
  {| idx_name := "NDVI"; idx_requires := ["B4"; "B5"];
     idx_compute := fun bs =>
       b5 ← band bs "B5"; b4 ← band bs "B4"; calculate_ndvi b5 b4 |};
  {| idx_name := "SAVI"; idx_requires := ["B4"; "B5"];
     idx_compute := fun bs =>
       b5 ← band bs "B5"; b4 ← band bs "B4"; calculate_savi b5 b4 SAVI_L |};
  {| idx_name := "EVI"; idx_requires := ["B2"; "B4"; "B5"];
     idx_compute := fun bs =>
       b5 ← band bs "B5"; b4 ← band bs "B4"; b2 ← band bs "B2";
       calculate_evi b5 b4 b2 EVI_G EVI_C1 EVI_C2 EVI_L |};
  {| idx_name := "ARVI"; idx_requires := ["B3"; "B4"; "B5"];
     idx_compute := fun bs =>
       b5 ← band bs "B5"; b4 ← band bs "B4"; b3 ← band bs "B3";
       calculate_arvi b5 b4 b3 |};
  {| idx_name := "NBR"; idx_requires := ["B5"; "B7"];
     idx_compute := fun bs =>
       b5 ← band bs "B5"; b7 ← band bs "B7"; calculate_nbr b5 b7 |};
  {| idx_name := "NBWI"; idx_requires := ["B3"; "B5"];
     idx_compute := fun bs =>
       b3 ← band bs "B3"; b5 ← band bs "B5"; calculate_nbwi b3 b5 |};
  {| idx_name := "NDBI"; idx_requires := ["B5"; "B6"];
     idx_compute := fun bs =>
       b6 ← band bs "B6"; b5 ← band bs "B5"; calculate_ndbi b6 b5 |};
  {| idx_name := "GCI"; idx_requires := ["B3"; "B7"];
     idx_compute := fun bs =>
       b7 ← band bs "B7"; b3 ← band bs "B3"; calculate_gci b7 b3 |}
]%string.

Section Scene.
Variable E : env.
Variable A : args.
Variable selected_indices : list string.

(** [[
    scene_name = os.path.basename(scene_path)
    logging.info(...)
    start_time = time.time()
    bands = {}
    profile = None
    results = {"scene": scene_name, "time_sec": 0}
    ]] *)
Definition scene_begin (path : string) (w : world) : locals * world :=
  let name := basename path in
  let w := logging (LogProcessing name) w in
  let '(t, w) := time E w in
  ({| scene_path := path; scene_name := name; start_time := t;
      bands := ∅; profile := None;
      results := {| scene := name; time_sec := 0; entries := ∅ |};
      pending := None |}, w).

(** The body of the loop over [band_files.items()]:
    [[
    path = os.path.join(scene_path, filename)
    if os.path.exists(path):
        bands[band_key], profile = load_band(path)
        if bands[band_key] is None:
            logging.warning(...)
    else:
        logging.warning(...)
    ]] *)
Definition load_step (kf : string * string) (lw : locals * world)
  : locals * world :=
  let '(l, w) := lw in
  let '(band_key, filename) := kf in
  let path := path_join (scene_path l) filename in
  match file_at E path with
  | Missing => (l, logging (LogMissing filename (scene_name l)) w)
  | _ =>
      let '((data, p), w) := load_band E path w in
      let l' := {| scene_path := scene_path l; scene_name := scene_name l;
                   start_time := start_time l;
                   bands := <[band_key := data]> (bands l);
                   profile := p;
                   results := results l; pending := pending l |} in
      match data with
      | None => (l', logging (LogCouldNotLoad filename (scene_name l)) w)
      | Some _ => (l', w)
      end
  end.

(** [[ output_dir = os.path.join(OUTPUT_ROOT, scene_name) ]] *)
Definition output_dir (l : locals) : string :=
  path_join (OUTPUT_ROOT A) (scene_name l).

(** One statement of the [try] block:
    [[
    if {...}.issubset(bands) and NAME in selected_indices:
        results[NAME] = save_index(calculate_...(...), NAME, profile, output_dir)
    ]]
    and, when the call raises, the handler
    [[
    except Exception as e:
        logging.error(...)
    ]]
    after which no later statement of the block runs. *)
Definition index_step (s : index_spec) (lw : locals * world)
  : locals * world :=
  let '(l, w) := lw in
  match pending l with
  | Some _ => (l, w)
  | None =>
      if issubset (idx_requires s) (bands l)
         && bool_decide (idx_name s ∈ selected_indices)
      then
        match idx_compute s (bands l) with
        | Raise e =>
            ({| scene_path := scene_path l; scene_name := scene_name l;
                start_time := start_time l; bands := bands l;
                profile := profile l; results := results l;
                pending := Some e |},
             logging (LogUnexpected (scene_name l) e) w)
        | Ok index_array =>
            let '(ok, p, w) :=
              save_index E index_array (idx_name s) (profile l)
                         (output_dir l) w in
            ({| scene_path := scene_path l; scene_name := scene_name l;
                start_time := start_time l; bands := bands l;
                profile := p;
                results := {| scene := scene (results l);
                              time_sec := time_sec (results l);
                              entries := <[idx_name s := ok]>
                                           (entries (results l)) |};
                pending := None |}, w)
        end
      else (l, w)
  end.

(** [[
    elapsed = time.time() - start_time
    results["time_sec"] = round(elapsed, 2)
    logging.info(...)
    return results
    ]]
    The clock is read in hundredths of a second, which [round(_, 2)]
    keeps. *)
Definition scene_finish (lw : locals * world) : scene_result * world :=
  let '(l, w) := lw in
  let '(t, w) := time E w in
  let elapsed := t - start_time l in
  ({| scene := scene (results l); time_sec := elapsed;
      entries := entries (results l) |},
   logging (LogFinished (scene_name l) elapsed) w).

(** The load phase and the [try] block. *)
Definition load_phase (lw : locals * world) : locals * world :=
  fold_left (fun acc kf => load_step kf acc) band_files lw.

Definition try_block (lw : locals * world) : locals * world :=
  fold_left (fun acc s => index_step s acc) INDEX_TABLE lw.

Definition process_scene (path : string) (w : world)
  : scene_result * world :=
  scene_finish (try_block (load_phase (scene_begin path w))).

End Scene.

(** ** save_summary *)

Definition csv_row_of (r : scene_result) : csv_row :=
  {| col_scene := scene r;
     col_indices := map (fun name => entries r !! name) ALL_INDICES;
     col_time_sec := time_sec r |}.

(** [[
    csv_path = os.path.join(output_dir, f"summary_{timestamp}.csv")
    fieldnames = ["scene", "NDVI", ..., "GCI", "time_sec"]
    with open(csv_path, "w", newline="") as csvfile:
        writer = csv.DictWriter(csvfile, fieldnames=fieldnames)
        writer.writeheader()
        for row in results:
            writer.writerow(row)
    logging.info(...)
    ]]
    Nothing here creates [output_dir]: [open] raises
    [FileNotFoundError], an [OSError], when the directory does not
    exist.  In a directory that exists the file system may still refuse
    the file or a write (an [OSError]); the environment says which.  The
    function has no handler.  Every key of a row is a field name (the
    entries of a result are indices of [ALL_INDICES]), so [writerow]
    does not raise.  What a refused write leaves of the file is not
    recorded. *)
Definition save_summary (E : env) (A : args) (results : list scene_result)
    (output_dir : string) (w : world) : res unit * world :=
  let csv_path :=
    path_join output_dir ("summary_" ++ timestamp A ++ ".csv") in
  if bool_decide (output_dir ∈ dirs w) && summary_ok E csv_path then
    (Ok tt, logging (LogSummarySaved csv_path)
                    (write_summary csv_path (map csv_row_of results) w))
  else (Raise OSError, w).

(** ** The thread pool *)

(** A call of [process_scene] running on a worker thread advances by
    one statement at a time; between two of them any other worker may
    run.  [todo] lists the statements of the two loops still to do. *)
Inductive action : Type :=
| ALoad (kf : string * string)
| AIndex (s : index_spec).

Definition scene_actions : list action :=
  map ALoad band_files ++ map AIndex INDEX_TABLE.

(** A future: submitted and not yet started, running, or done with the
    value returned or the exception raised by the call. *)
Inductive task : Type :=
| Submitted (path : string)
| Running (l : locals) (todo : list action)
| Done (r : res scene_result).

Section Pool.
Variable E : env.
Variable A : args.
Variable selected_indices : list string.

Definition task_step (t : task) (w : world) : task * world :=
  match t with
  | Submitted path =>
      let '(l, w) := scene_begin E path w in (Running l scene_actions, w)
  | Running l (ALoad kf :: todo) =>
      let '(l, w) := load_step E kf (l, w) in (Running l todo, w)
  | Running l (AIndex s :: todo) =>
      let '(l, w) := index_step E A selected_indices s (l, w) in
      (Running l todo, w)
  | Running l [] =>
      let '(r, w) := scene_finish E (l, w) in (Done (Ok r), w)
  | Done r => (Done r, w)
  end.

(** The state of the [with ThreadPoolExecutor() ...] block: the dict
    [futures] (future, folder) in submission order, the list
    [all_results] and the shared world. *)
Record pool : Type := {
  futures : list (task * string);
  all_results : list scene_result;
  pool_world : world;
}.

(** [[
    futures = { executor.submit(process_scene,
                    os.path.join(INPUT_ROOT, folder), SELECTED_INDICES): folder
                for folder in scene_folders }
    ]] *)
Definition submit_all (scene_folders : list string) (w : world) : pool :=
  {| futures := map (fun folder =>
                       (Submitted (path_join (INPUT_ROOT A) folder), folder))
                    scene_folders;
     all_results := [];
     pool_world := w |}.

(** The worker of future [i] runs one statement.  When that completes
    the future, [as_completed] hands it to the main thread:
    [[
    try:
        result = future.result()
        all_results.append(result)
    except Exception as e:
        logging.error(...)
    ]] *)
Definition pool_step (st : pool) (i : nat) : pool :=
  match futures st !! i with
  | None => st
  | Some (Done _, _) => st
  | Some (t, folder) =>
      let '(t', w) := task_step t (pool_world st) in
      let fs := <[i := (t', folder)]> (futures st) in
      match t' with
      | Done (Ok result) =>
          {| futures := fs; all_results := all_results st ++ [result];
             pool_world := w |}
      | Done (Raise e) =>
          {| futures := fs; all_results := all_results st;
             pool_world := logging (LogErrorIn folder e) w |}
      | _ => {| futures := fs; all_results := all_results st;
                pool_world := w |}
      end
  end.

(** Steps that one call needs at most: the prologue, the statements
    of the loops and the epilogue. *)
Definition task_fuel : nat := S (S (length scene_actions)).

(** Leaving the [with] block waits for every future: whatever the
    schedule left undone is run to its end. *)
Definition drain (n : nat) : list nat :=
  flat_map (fun i => repeat i task_fuel) (seq 0 n).

(** The pool under a schedule [sched], the sequence of worker turns
    (the index of the future that advances). *)
Definition thread_pool (scene_folders : list string) (sched : list nat)
    (w : world) : list scene_result * world :=
  let st := fold_left pool_step (sched ++ drain (length scene_folders))
                      (submit_all scene_folders w) in
  (all_results st, pool_world st).

End Pool.

(** ** Run Batch *)

(** [[
    scene_folders = [args.scene] if args.scene else [
        folder for folder in os.listdir(INPUT_ROOT)
        if os.path.isdir(os.path.join(INPUT_ROOT, folder)) ]
    ]] *)
Definition scene_folders (E : env) (A : args) : list string :=
  match arg_scene A with
  | Some (String c s) => [String c s]
  | _ => input_dirs E
  end.

(** The module body from "Run Batch" on, under a schedule of the
    worker threads: the run ends, or is aborted by an exception that
    nothing catches. *)
Definition run_batch (E : env) (A : args) (sched : list nat) (w : world)
  : res unit * world :=
  let w := logging LogBatchStarted w in
  let '(all_results, w) :=
    match scene_folders E A with
    | [folder] =>
        let '(result, w) :=
          process_scene E A (SELECTED_INDICES A)
                        (path_join (INPUT_ROOT A) folder) w in
        ([result], w)
    | folders => thread_pool E A (SELECTED_INDICES A) folders sched w
    end in
  match save_summary E A all_results (OUTPUT_ROOT A) w with
  | (Ok _, w) => (Ok tt, logging LogAllProcessed w)
  | (Raise e, w) => (Raise e, w)
  end.

Definition empty_world : world :=
  {| ticks := 0; dirs := ∅; rasters := ∅; summaries := []; log := [] |}.

End ProcessAllScenes.

Import ProcessAllScenes.

(* ===================================================================== *)
(** * Notions used in the statements                                      *)
(* ===================================================================== *)

(** The cell that [safe_divide] leaves for the operands [x] and [y]. *)
Definition safe_quotient (x y : f32) : f32 :=
  if F32.isnan (div x y) then zero else div x y.

(** The call returns a grid of the shape of [a] that holds no NaN. *)
Definition returns_without_nan (a : grid) (r : res grid) : Prop :=
  exists g, r = Ok g /\ shape_eq g a /\ no_nan g = true.

(** The guard of the statement of the [try] block for [s]: the bands of
    the guard are keys of [bs] and the index is selected. *)
Definition guard (sel : list string) (bs : gmap string (option grid))
    (s : index_spec) : bool :=
  issubset (idx_requires s) bs && bool_decide (idx_name s ∈ sel).

(** The statement for [s] is entered and its formula raises. *)
Definition raises_at (sel : list string) (bs : gmap string (option grid))
    (s : index_spec) : bool :=
  guard sel bs s && negb (is_ok (idx_compute s bs)).

(** A run of the statements [ss] of the [try] block. *)
Definition run_indices (E : env) (A : args) (sel : list string)
    (ss : list index_spec) (lw : locals * world) : locals * world :=
  fold_left (fun acc s => index_step E A sel s acc) ss lw.

(** The raster file of index [name] for the scene of [l]. *)
Definition out_path (A : args) (l : locals) (name : string) : string :=
  path_join (output_dir A l) (name ++ ".tif").

(** The profile variable holds [p0] or, once a save has reached
    [profile.update], [p0] updated. *)
Definition profile_from (p0 p : option raster_profile) : Prop :=
  p = p0 \/ p = profile_update <$> p0.

(** binary32 literals of the examples. *)
Definition f_half : f32 := lit 1 (-1).        (* 0.5 *)
Definition f_one : f32 := lit 1 0.            (* 1.0 *)
Definition f_minus_one : f32 := lit (-1) 0.   (* -1.0 *)


(** A run of the loads [kfs] of the loop over the band files. *)
Definition run_loads (E : env) (kfs : list (string * string))
    (lw : locals * world) : locals * world :=
  fold_left (fun acc kf => load_step E kf acc) kfs lw.

(** What one statement of the [try] block does, case by case. *)
Inductive step_outcome (E : env) (A : args) (sel : list string)
    (s : index_spec) (l : locals) (w : world) : locals * world -> Prop :=
| step_skipped_after_raise e :
    pending l = Some e -> step_outcome E A sel s l w (l, w)
| step_guard_false :
    pending l = None -> guard sel (bands l) s = false ->
    step_outcome E A sel s l w (l, w)
| step_raised e :
    pending l = None -> guard sel (bands l) s = true ->
    idx_compute s (bands l) = Raise e ->
    step_outcome E A sel s l w
      ({| scene_path := scene_path l; scene_name := scene_name l;
          start_time := start_time l; bands := bands l;
          profile := profile l; results := results l;
          pending := Some e |},
       logging (LogUnexpected (scene_name l) e) w)
| step_saved arr :
    pending l = None -> guard sel (bands l) s = true ->
    idx_compute s (bands l) = Ok arr ->
    step_outcome E A sel s l w
      (let '(ok, p, w') :=
         save_index E arr (idx_name s) (profile l) (output_dir A l) w in
       ({| scene_path := scene_path l; scene_name := scene_name l;
           start_time := start_time l; bands := bands l;
           profile := p;
           results := {| scene := scene (results l);
                         time_sec := time_sec (results l);
                         entries := <[idx_name s := ok]> (entries (results l)) |};
           pending := None |}, w')).

(** The statements of the [try] block change neither the bands nor the
    names. *)
Definition same_frame (l l' : locals) : Prop :=
  scene_path l' = scene_path l /\ scene_name l' = scene_name l /\
  start_time l' = start_time l /\ bands l' = bands l /\
  scene (results l') = scene (results l).

(** [l] with another start time. *)
Definition retime (t : Z) (l : locals) : locals :=
  {| scene_path := scene_path l; scene_name := scene_name l; start_time := t;
     bands := bands l; profile := profile l; results := results l;
     pending := pending l |}.

(** A row of the summary without its elapsed time. *)
Definition untimed (r : scene_result) : string * gmap string bool :=
  (scene r, entries r).

(** Two futures in the same state up to the readings of the clock. *)
Definition task_sim (t t' : task) : Prop :=
  match t, t' with
  | Submitted p, Submitted p' => p = p'
  | Running l todo, Running l' todo' => retime 0 l = retime 0 l' /\ todo = todo'
  | Done (Ok r), Done (Ok r') => untimed r = untimed r'
  | Done (Raise e), Done (Raise e') => e = e'
  | _, _ => False
  end.

(** [k] turns of one worker, undisturbed. *)
Fixpoint run_task (E : env) (A : args) (sel : list string) (k : nat)
    (t : task) (w : world) : task * world :=
  match k with
  | O => (t, w)
  | S k' => let '(t', w') := task_step E A sel t w in run_task E A sel k' t' w'
  end.

(** The scenes processed one after the other:
    for each folder, in order, [process_scene] is called and its result
    appended. *)
Fixpoint sequential (E : env) (A : args) (sel : list string)
    (folders : list string) (w : world) : list scene_result * world :=
  match folders with
  | [] => ([], w)
  | folder :: rest =>
      let '(r, w1) := process_scene E A sel (path_join (INPUT_ROOT A) folder) w in
      let '(rs, w2) := sequential E A sel rest w1 in
      (r :: rs, w2)
  end.

(** The results held by the futures that are done. *)
Definition done_results (fs : list (task * string)) : list scene_result :=
  omap (fun tf => match fst tf with Done (Ok r) => Some r | _ => None end) fs.

Definition is_done (t : task) : bool :=
  match t with Done _ => true | _ => false end.

(** The turns a future still needs. *)
Definition remaining (t : task) : nat :=
  match t with
  | Submitted _ => S (S (length scene_actions))
  | Running _ todo => S (length todo)
  | Done _ => 0
  end.

(** The statements of a running call, executed in order. *)
Definition exec (E : env) (A : args) (sel : list string) (a : action)
    (lw : locals * world) : locals * world :=
  match a with
  | ALoad kf => load_step E kf lw
  | AIndex s => index_step E A sel s lw
  end.

(** Log entries written on behalf of one scene. *)
Definition scene_entry (e : log_entry) : bool :=
  match e with
  | LogBatchStarted | LogSummarySaved _ | LogAllProcessed => false
  | _ => true
  end.

(** [w'] comes from [w] by work on scenes: no summary is written, no
    directory disappears and the log is extended by entries of scenes. *)
Definition grows (w w' : world) : Prop :=
  summaries w' = summaries w /\ dirs w ⊆ dirs w' /\
  exists ext, log w' = log w ++ ext /\ Forall (fun e => scene_entry e = true) ext.

(** What is known of a future for the scene at [path]: a call that has
    not started, a call running for that scene with no more statements
    to do than a call has, or a call that returned after logging the end
    of the scene. *)
Definition task_ok (path : string) (t : task) (w : world) : Prop :=
  match t with
  | Submitted p => p = path
  | Running l todo =>
      scene_name l = basename path /\ (length todo <= length scene_actions)%nat
  | Done (Ok r) => exists elapsed, LogFinished (basename path) elapsed ∈ log w
  | Done (Raise _) => False
  end.

(** What holds of the pool at every moment of a run over [folders]
    that started in the world [w0]. *)
Definition pool_inv (E : env) (A : args) (sel : list string)
    (folders : list string) (w0 : world) (st : pool) : Prop :=
  map snd (futures st) = folders /\
  Forall (fun tf => task_ok (path_join (INPUT_ROOT A) (snd tf)) (fst tf)
                            (pool_world st)) (futures st) /\
  Forall (fun tf => exists k,
            task_sim (fst tf)
              (fst (run_task E A sel k
                      (Submitted (path_join (INPUT_ROOT A) (snd tf)))
                      empty_world))) (futures st) /\
  all_results st ≡ₚ done_results (futures st) /\
  grows w0 (pool_world st).

(** A world in which the run starts: any directories and rasters may
    exist; the log of the run is empty and no summary has been written. *)
Definition start_world (ds : gset string)
    (rs : gmap string (grid * raster_profile)) (n : nat) : world :=
  {| ticks := n; dirs := ds; rasters := rs; summaries := []; log := [] |}.

(* ===================================================================== *)
(** * Example scenes                                                      *)
(* ===================================================================== *)

(** A file system given by the list of its band files. *)
Fixpoint lookup_file (fs : list (string * band_file)) (path : string)
  : band_file :=
  match fs with
  | [] => Missing
  | (p, f) :: fs' => if String.eqb p path then f else lookup_file fs' path
  end.

(** An environment in which every write succeeds and the clock counts
    its readings. *)
Definition env_of (fs : list (string * band_file)) (dirs : list string) : env :=
  {| file_at := lookup_file fs; input_dirs := dirs;
     makedirs_ok := fun _ => true; write_ok := fun _ _ _ => true;
     summary_ok := fun _ => true;
     time_time := Z.of_nat |}.

Definition args_all : args :=
  {| arg_scene := None; arg_input := "in"; arg_output := "out";
     arg_indices := None; timestamp := "T" |}.

Definition prof_a : raster_profile :=
  {| dtype := "uint16"; count := 1; height := 1; width := 1;
     crs := "EPSG:32633"; transform := "a" |}.
Definition prof_b : raster_profile :=
  {| dtype := "uint16"; count := 1; height := 1; width := 1;
     crs := "EPSG:32633"; transform := "b" |}.

(** B3 and B5 are there, B7 is not. *)
Definition env_b3_b5 : env :=
  env_of [("in/s/B3.tif", Readable [[f_half]] prof_a);
          ("in/s/B5.tif", Readable [[f_one]] prof_a)] ["s"].

(** B3, B5 and B7 are there; B7 differs from B5. *)
Definition env_b3_b5_b7 : env :=
  env_of [("in/s/B3.tif", Readable [[f_half]] prof_a);
          ("in/s/B5.tif", Readable [[f_one]] prof_a);
          ("in/s/B7.tif", Readable [[f_half]] prof_a)] ["s"].

(** B4 exists and cannot be read; B5, B6 and B7 are sound. *)
Definition env_b4_unreadable : env :=
  env_of [("in/s/B4.tif", Unreadable);
          ("in/s/B5.tif", Readable [[f_one]] prof_a);
          ("in/s/B6.tif", Readable [[f_one]] prof_a);
          ("in/s/B7.tif", Readable [[f_half]] prof_a)] ["s"].

(** B4 has two rows, B5 and B7 have three; B2 is missing. *)
Definition env_mixed_shapes : env :=
  env_of [("in/s/B4.tif", Readable [[f_half]; [f_half]] prof_a);
          ("in/s/B5.tif", Readable [[f_one]; [f_one]; [f_one]] prof_a);
          ("in/s/B7.tif", Readable [[f_half]; [f_half]; [f_half]] prof_a)]
         ["s"].

(** B4, B5 and B7 are sound; B7 has another profile than B4 and B5. *)
Definition env_b4_b5_b7 : env :=
  env_of [("in/s/B4.tif", Readable [[f_half]] prof_a);
          ("in/s/B5.tif", Readable [[f_one]] prof_a);
          ("in/s/B7.tif", Readable [[f_half]] prof_b)] ["s"].

(** As [env_b4_b5_b7], but the NDVI raster cannot be written. *)
Definition env_ndvi_unwritable : env :=
  {| file_at := file_at env_b4_b5_b7; input_dirs := ["s"];
     makedirs_ok := fun _ => true;
     write_ok := fun path _ _ => negb (String.eqb path "out/s/NDVI.tif");
     summary_ok := fun _ => true;
     time_time := Z.of_nat |}.

(** Two scene folders without any band file. *)
Definition env_two_empty : env := env_of [] ["s1"; "s2"].


(* ===================================================================== *)
(** * Notions of the further properties                                   *)
(* ===================================================================== *)

(** A grid of [r] rows of [c] cells each. *)
Definition rect (r c : nat) (a : grid) : Prop :=
  length a = r /\ Forall (fun row => length row = c) a.

(** Two lengths of an axis that numpy can broadcast, and the length of
    the result. *)
Definition compat (n m : nat) : bool :=
  (n =? m)%nat || (n =? 1)%nat || (m =? 1)%nat.

Definition bdim (n m : nat) : nat := if (n =? 1)%nat then m else n.

(** Every cell of the grid is a zero (of either sign). *)
Definition all_zero (a : grid) : bool := forallb (forallb is_zero) a.


(** The four indices computed as a normalized difference
    [(x - y) / (x + y)] of two bands. *)
Definition normalized_differences : list (grid -> grid -> res grid) :=
  [calculate_ndvi; calculate_nbr; calculate_nbwi; calculate_ndbi].

(** The results collected by the run before the summary is written:
    the branch on [len(scene_folders) == 1] of the module body. *)
Definition collect (E : env) (A : args) (sched : list nat) (w : world)
  : list scene_result * world :=
  match scene_folders E A with
  | [folder] =>
      let '(result, w) :=
        process_scene E A (SELECTED_INDICES A)
                      (path_join (INPUT_ROOT A) folder) w in
      ([result], w)
  | folders => thread_pool E A (SELECTED_INDICES A) folders sched w
  end.

(** The result of a scene folder processed on its own, on an empty
    output tree. *)
Definition alone (E : env) (A : args) (folder : string) : scene_result :=
  fst (process_scene E A (SELECTED_INDICES A)
                     (path_join (INPUT_ROOT A) folder) empty_world).

(** The directory of the rasters of the scene of a result. *)
Definition result_dir (A : args) (r : scene_result) : string :=
  path_join (OUTPUT_ROOT A) (scene r).

(** The output root exists, or the call of the future has not yet made
    a save whose directory could be created. *)
Definition made_root (E : env) (A : args) (t : task) (w : world) : Prop :=
  OUTPUT_ROOT A ∈ dirs w \/
  match t with
  | Running l _ =>
      scene (results l) = scene_name l /\
      (entries (results l) = ∅ \/ makedirs_ok E (output_dir A l) = false)
  | Done (Ok r) =>
      entries r = ∅ \/ makedirs_ok E (result_dir A r) = false
  | _ => True
  end.

(** The call of the future for the scene at [path] has made a save,
    and the directory of the scene can be created. *)
Definition has_made (E : env) (A : args) (path : string) (t : task) : Prop :=
  makedirs_ok E (path_join (OUTPUT_ROOT A) (basename path)) = true /\
  match t with
  | Running l _ => entries (results l) <> ∅
  | Done (Ok r) => entries r <> ∅
  | _ => False
  end.

(** A name without a slash, as [os.listdir] returns them. *)
Fixpoint no_slash (s : string) : bool :=
  match s with
  | EmptyString => true
  | String c s' => negb (Ascii.eqb c "/"%char) && no_slash s'
  end.

(** The future [tf] of the pool is, up to the clock, in a state that
    the call for its folder reaches when it runs on its own from [w0],
    and the files of the directory of its scene are in [w] as that call
    has left them. *)
Definition tracks (E : env) (A : args) (sel : list string) (w0 w : world)
    (tf : task * string) : Prop :=
  exists k : nat,
    let ref := run_task E A sel k
                 (Submitted (path_join (INPUT_ROOT A) (snd tf))) w0 in
    task_sim (fst tf) (fst ref) /\
    forall file : string,
      rasters w !! path_join (path_join (OUTPUT_ROOT A) (snd tf)) file
      = rasters (snd ref) !! path_join (path_join (OUTPUT_ROOT A) (snd tf)) file.

(** Two scene folders: [s1] holds B4 and B5, [s2] holds B5 and B7. *)
Definition env_two_scenes : env :=
  env_of [("in/s1/B4.tif", Readable [[f_half]] prof_a);
          ("in/s1/B5.tif", Readable [[f_one]] prof_a);
          ("in/s2/B5.tif", Readable [[f_one]] prof_b);
          ("in/s2/B7.tif", Readable [[f_half]] prof_b)] ["s1"; "s2"].

(** What the log says of the band file [f] of a scene. *)
Definition load_reported (E : env) (path scene_name f : string) (w : world)
  : Prop :=
  match file_at E (path_join path f) with
  | Missing => LogMissing f scene_name ∈ log w
  | Unreadable =>
      LogLoadFailed (path_join path f) ∈ log w /\
      LogCouldNotLoad f scene_name ∈ log w
  | Readable _ _ => True
  end.

(** What the log says of the entry [b] of the index [name]. *)
Definition save_reported (out_path name : string) (b : bool) (w : world)
  : Prop :=
  if b then LogSaved out_path ∈ log w
  else exists e, LogSaveFailed name e ∈ log w.

(** The indices on one pixel: the formulas of the source on binary32
    numbers, with the quotient that [safe_divide] leaves; SAVI with its
    default [L]. *)
Definition ndvi_px (nir red : f32) : f32 :=
  safe_quotient (sub nir red) (add nir red).

Definition savi_px (nir red : f32) : f32 :=
  mul (safe_quotient (sub nir red) (add (add nir red) SAVI_L))
      (add (lit 1 0) SAVI_L).

Definition evi_px (G C1 C2 L nir red blue : f32) : f32 :=
  mul G (safe_quotient (sub nir red)
           (add (sub (add nir (mul C1 red)) (mul C2 blue)) L)).

Definition arvi_px (nir red blue : f32) : f32 :=
  let red_corr := sub red (mul (lit 2 0) (sub red blue)) in
  safe_quotient (sub nir red_corr) (add nir red_corr).

Definition gci_px (nir green : f32) : f32 :=
  sub (safe_quotient nir green) (lit 1 0).

(** The call returns a grid of the shape of [a] whose cell at [(i, j)]
    is [v]. *)
Definition returns_cell (a : grid) (i j : nat) (v : f32) (r : res grid)
  : Prop :=
  exists g, r = Ok g /\ shape_eq g a /\ cell g i j = Some v.

(** The index table of the specification: the band of each role
    ("NIR=B5, RED=B4, BLUE=B2, GREEN=B3, SWIR1=B6, SWIR2=B7") and, for
    each index, the bands of the roles that its formula takes.  This
    table follows the words of the specification, not the code; the
    code's own table is [INDEX_TABLE]. *)
Module SpecTable.

Definition NIR : string := "B5".
Definition RED : string := "B4".
Definition BLUE : string := "B2".
Definition GREEN : string := "B3".
Definition SWIR1 : string := "B6".
Definition SWIR2 : string := "B7".

Definition required_bands (name : string) : list string :=
  if String.eqb name "NDVI" then [NIR; RED]
  else if String.eqb name "SAVI" then [NIR; RED]
  else if String.eqb name "EVI" then [NIR; RED; BLUE]
  else if String.eqb name "ARVI" then [NIR; RED; BLUE]
  else if String.eqb name "NBR" then [NIR; SWIR2]
  else if String.eqb name "NBWI" then [GREEN; NIR]
  else if String.eqb name "NDBI" then [SWIR1; NIR]
  else if String.eqb name "GCI" then [NIR; GREEN]
  else [].

End SpecTable.

(** B3, B4 and B5 are there, B2 is not. *)
Definition env_b3_b4_b5 : env :=
  env_of [("in/s/B3.tif", Readable [[f_half]] prof_a);
          ("in/s/B4.tif", Readable [[f_half]] prof_a);
          ("in/s/B5.tif", Readable [[f_one]] prof_a)] ["s"].


(* ===================================================================== *)
(** * Facts about binary32 arithmetic                                     *)
(* ===================================================================== *)

Section RoundingNeverNaN.
Variables prec emax : Z.

Lemma shr_1_nonneg (mrs : shr_record) :
  0 <= shr_m mrs -> 0 <= shr_m (shr_1 mrs).
Proof.
  destruct mrs as [m r s]; simpl.
  destruct m as [|p|p]; [intros _ | intros _ | lia].
  - simpl; lia.
  - destruct p; simpl; lia.
Qed.

Lemma iter_shr_1_nonneg (p : positive) :
  forall mrs, 0 <= shr_m mrs -> 0 <= shr_m (SpecFloat.iter_pos shr_1 p mrs).
Proof.
  induction p as [p IH|p IH|]; intros mrs H; simpl.
  - apply IH, IH, shr_1_nonneg, H.
  - apply IH, IH, H.
  - apply shr_1_nonneg, H.
Qed.

Lemma shr_nonneg (mrs : shr_record) (e n : Z) :
  0 <= shr_m mrs -> 0 <= shr_m (fst (shr mrs e n)).
Proof.
  intros H. unfold shr. destruct n; simpl; auto using iter_shr_1_nonneg.
Qed.

Lemma shr_fexp_nonneg (m e : Z) (l : location) :
  0 <= m -> 0 <= shr_m (fst (shr_fexp prec emax m e l)).
Proof.
  intros H. unfold shr_fexp. apply shr_nonneg.
  destruct l as [|[ | | ]]; simpl; exact H.
Qed.

Lemma round_nearest_even_nonneg (m : Z) (l : location) :
  0 <= m -> 0 <= round_nearest_even m l.
Proof.
  intros H. unfold round_nearest_even.
  destruct l as [|[ | | ]]; try destruct (Z.even m); lia.
Qed.

(** Rounding a non-negative mantissa gives a zero, a finite number or
    an infinity. *)
Lemma binary_round_aux_not_nan (s : bool) (m e : Z) (l : location) :
  0 <= m -> F32.isnan (binary_round_aux prec emax s m e l) = false.
Proof.
  intros H. unfold binary_round_aux.
  pose proof (shr_fexp_nonneg m e l H) as H1.
  destruct (shr_fexp prec emax m e l) as [mrs' e'] eqn:E1. simpl in H1.
  pose proof (shr_fexp_nonneg
                (round_nearest_even (shr_m mrs') (loc_of_shr_record mrs'))
                e' loc_Exact (round_nearest_even_nonneg _ _ H1)) as H2.
  destruct (shr_fexp prec emax _ e' loc_Exact) as [mrs'' e''] eqn:E2.
  simpl in H2.
  destruct (shr_m mrs'') as [|q|q]; [reflexivity| |lia].
  destruct (e'' <=? emax - prec); reflexivity.
Qed.

Lemma binary_normalize_not_nan (m e : Z) (sz : bool) :
  F32.isnan (binary_normalize prec emax m e sz) = false.
Proof.
  unfold binary_normalize, binary_round.
  destruct m as [|q|q]; [reflexivity| |];
    destruct (shl_align _ _ _) as [mz ez];
    apply binary_round_aux_not_nan; lia.
Qed.

(** A product with a finite non-zero factor is NaN only for a NaN. *)
Lemma SFmul_finite_not_nan (x : spec_float) (s : bool) (m : positive) (e : Z) :
  F32.isnan x = false ->
  F32.isnan (SFmul prec emax x (S754_finite s m e)) = false
  /\ F32.isnan (SFmul prec emax (S754_finite s m e) x) = false.
Proof.
  intros H. destruct x as [sx|sx| |sx mx ex]; simpl in *;
    try discriminate; try (split; reflexivity).
  split; apply binary_round_aux_not_nan; lia.
Qed.

(** A difference with a finite non-zero subtrahend is NaN only for a
    NaN. *)
Lemma SFsub_finite_not_nan (x : spec_float) (s : bool) (m : positive) (e : Z) :
  F32.isnan x = false ->
  F32.isnan (SFsub prec emax x (S754_finite s m e)) = false.
Proof.
  intros H. destruct x as [sx|sx| |sx mx ex]; simpl in *;
    try discriminate; try reflexivity.
  apply binary_normalize_not_nan.
Qed.

(** The quotient by a zero. *)
Lemma SFdiv_by_zero (x : spec_float) (sy : bool) :
  SFdiv prec emax x (S754_zero sy) =
  match x with
  | S754_zero _ | S754_nan => S754_nan
  | S754_infinity sx | S754_finite sx _ _ => S754_infinity (xorb sx sy)
  end.
Proof. destruct x; reflexivity. Qed.

End RoundingNeverNaN.

(* ===================================================================== *)
(** * Facts about grids                                                   *)
(* ===================================================================== *)

Section GridFacts.

Lemma zip_res_total {A B C} (g : A -> B -> C) (xs : list A) (ys : list B) :
  length xs = length ys ->
  zip_res (fun x y => Ok (g x y)) xs ys = Ok (zip_with g xs ys).
Proof.
  revert ys. induction xs as [|x xs IH]; intros [|y ys] H;
    simpl in *; try discriminate; [reflexivity|].
  rewrite IH by congruence. reflexivity.
Qed.

Lemma bcast_total {A B C} (g : A -> B -> C) (xs : list A) (ys : list B) :
  length xs = length ys ->
  bcast (fun x y => Ok (g x y)) xs ys = Ok (zip_with g xs ys).
Proof.
  intros H. unfold bcast.
  rewrite (proj2 (Nat.eqb_eq _ _) H). apply zip_res_total, H.
Qed.

Lemma shape_eq_length (a b : grid) : shape_eq a b -> length a = length b.
Proof.
  unfold shape_eq. intros H.
  rewrite <- (length_map length a), <- (length_map length b), H.
  reflexivity.
Qed.

Lemma shape_eq_refl (a : grid) : shape_eq a a.
Proof. reflexivity. Qed.

Lemma shape_eq_sym (a b : grid) : shape_eq a b -> shape_eq b a.
Proof. unfold shape_eq; congruence. Qed.

Lemma shape_eq_trans (a b c : grid) :
  shape_eq a b -> shape_eq b c -> shape_eq a c.
Proof. unfold shape_eq; congruence. Qed.

(** On operands of one shape an elementwise operator pairs the cells
    and does not raise. *)
Lemma binop_shape_eq (op : f32 -> f32 -> f32) (a b : grid) :
  shape_eq a b -> binop op a b = Ok (zip_with (zip_with op) a b).
Proof.
  unfold binop, shape_eq, bcast. intros H.
  assert (Hlen : length a = length b) by (apply shape_eq_length, H).
  rewrite (proj2 (Nat.eqb_eq _ _) Hlen). clear Hlen.
  revert b H. induction a as [|ra a IH]; intros [|rb b] H;
    simpl in *; try discriminate; [reflexivity|].
  injection H as Hr Ht.
  fold (bcast (fun x y => Ok (op x y)) ra rb).
  rewrite (bcast_total op ra rb Hr). simpl.
  rewrite (IH b Ht). reflexivity.
Qed.

Lemma zip_with_shape (op : f32 -> f32 -> f32) (a b : grid) :
  shape_eq a b -> shape_eq (zip_with (zip_with op) a b) a.
Proof.
  unfold shape_eq. revert b.
  induction a as [|ra a IH]; intros [|rb b] H; simpl in *;
    try discriminate; [reflexivity|].
  injection H as Hr Ht. rewrite length_zip_with, (IH b Ht). f_equal. lia.
Qed.

Lemma map_cells_shape (f : f32 -> f32) (a : grid) :
  shape_eq (map_cells f a) a.
Proof.
  unfold shape_eq, map_cells. induction a as [|r a IH]; simpl;
    [reflexivity|]. rewrite length_map, IH. reflexivity.
Qed.

(** Assignment of [v] through the mask of the NaN cells. *)
Lemma set_where_isnan (a : grid) (v : f32) :
  set_where a (Np.isnan a) v =
  map_cells (fun x => if F32.isnan x then v else x) a.
Proof.
  unfold set_where, Np.isnan, map_cells.
  induction a as [|r a IH]; simpl; [reflexivity|]. rewrite IH. f_equal.
  clear. induction r as [|x r IH]; simpl; [reflexivity|].
  rewrite IH. reflexivity.
Qed.

Lemma cell_zip_with (op : f32 -> f32 -> f32) (a b : grid) (i j : nat) x y :
  cell a i j = Some x -> cell b i j = Some y ->
  cell (zip_with (zip_with op) a b) i j = Some (op x y).
Proof.
  unfold cell. intros Ha Hb.
  destruct (a !! i) as [ra|] eqn:Ea; simpl in Ha; [|discriminate].
  destruct (b !! i) as [rb|] eqn:Eb; simpl in Hb; [|discriminate].
  rewrite lookup_zip_with, Ea, Eb. simpl.
  rewrite lookup_zip_with, Ha, Hb. reflexivity.
Qed.

Lemma cell_map_cells (f : f32 -> f32) (a : grid) (i j : nat) :
  cell (map_cells f a) i j = f <$> cell a i j.
Proof.
  unfold cell, map_cells. rewrite list_lookup_fmap.
  destruct (a !! i) as [r|]; simpl; [|reflexivity].
  apply list_lookup_fmap.
Qed.

Lemma no_nan_map_cells (f : f32 -> f32) (a : grid) :
  (forall x, F32.isnan (f x) = false) -> no_nan (map_cells f a) = true.
Proof.
  intros H. unfold no_nan, map_cells.
  rewrite forallb_forall. intros r Hr. apply in_map_iff in Hr as (r0 & <- & _).
  rewrite forallb_forall. intros x Hx. apply in_map_iff in Hx as (x0 & <- & _).
  rewrite H. reflexivity.
Qed.

Lemma no_nan_map_cells_keep (f : f32 -> f32) (a : grid) :
  (forall x, F32.isnan x = false -> F32.isnan (f x) = false) ->
  no_nan a = true -> no_nan (map_cells f a) = true.
Proof.
  intros H. unfold no_nan, map_cells.
  rewrite !forallb_forall. intros Ha r Hr.
  apply in_map_iff in Hr as (r0 & <- & Hr0).
  specialize (Ha r0 Hr0). rewrite forallb_forall in Ha.
  rewrite forallb_forall. intros x Hx. apply in_map_iff in Hx as (x0 & <- & Hx0).
  specialize (Ha x0 Hx0). apply negb_true_iff in Ha.
  rewrite (H x0 Ha). reflexivity.
Qed.

End GridFacts.

(* ===================================================================== *)
(** * safe_divide and the formulas                                        *)
(* ===================================================================== *)


Lemma safe_quotient_not_nan (x y : f32) : F32.isnan (safe_quotient x y) = false.
Proof.
  unfold safe_quotient. destruct (F32.isnan (div x y)) eqn:H; [reflexivity|exact H].
Qed.

Lemma safe_divide_shape_eq (a b : grid) :
  shape_eq a b ->
  safe_divide a b = Ok (zip_with (zip_with safe_quotient) a b).
Proof.
  intros H. unfold safe_divide. rewrite (binop_shape_eq div a b H). simpl.
  rewrite set_where_isnan. f_equal. unfold map_cells.
  clear H. revert b. induction a as [|ra a IH]; intros [|rb b]; simpl;
    try reflexivity.
  rewrite IH. f_equal. clear.
  revert rb. induction ra as [|x ra IH]; intros [|y rb]; simpl; try reflexivity.
  rewrite IH. reflexivity.
Qed.

Lemma no_nan_zip_safe_quotient (a b : grid) :
  no_nan (zip_with (zip_with safe_quotient) a b) = true.
Proof.
  unfold no_nan. revert b. induction a as [|ra a IH]; intros [|rb b]; simpl;
    try reflexivity.
  rewrite IH, andb_true_r. clear.
  revert rb. induction ra as [|x ra IH]; intros [|y rb]; simpl; try reflexivity.
  rewrite IH, safe_quotient_not_nan. reflexivity.
Qed.

(** Whenever [safe_divide] returns, its grid holds no NaN. *)
Lemma safe_divide_no_nan (a b r : grid) :
  safe_divide a b = Ok r -> no_nan r = true.
Proof.
  unfold safe_divide. destruct (binop div a b) as [q|e]; simpl; [|discriminate].
  intros [= <-]. rewrite set_where_isnan. apply no_nan_map_cells.
  intros x. destruct (F32.isnan x) eqn:H; [reflexivity|exact H].
Qed.

(** On grids of one shape [safe_divide] does not raise, keeps the shape
    and leaves [safe_quotient] of the two cells at every position. *)
Lemma safe_divide_cell (a b : grid) :
  shape_eq a b ->
  exists r, safe_divide a b = Ok r /\ shape_eq r a /\
    forall i j x y, cell a i j = Some x -> cell b i j = Some y ->
      cell r i j = Some (safe_quotient x y).
Proof.
  intros H. exists (zip_with (zip_with safe_quotient) a b).
  split; [apply safe_divide_shape_eq, H|].
  split; [apply zip_with_shape, H|].
  intros i j x y Ha Hb. apply cell_zip_with; assumption.
Qed.

(** ** C1 *)

(** C1, as stated, fails: for the one-cell grids [[0.5]] and [[0.0]]
    the denominator entry is 0 and the entry of [safe_divide]'s result
    is plus infinity, not 0. *)
Lemma safe_divide_zero_denominator_not_zero :
  cell [[zero]] 0 0 = Some zero /\
  safe_divide [[f_half]] [[zero]] = Ok [[pinf]] /\
  cell [[pinf]] 0 0 <> Some zero.
Proof. repeat split; try reflexivity. discriminate. Qed.

(** C1 (amended): for grids [a], [b] of one shape, [safe_divide a b]
    does not raise and returns a grid of that shape; its entry is exactly
    [+0] wherever the binary32 quotient is NaN -- in particular at 0/0 --
    and is the IEEE-754 binary32 quotient [a/b] elsewhere, which is the
    signed infinity where the denominator is 0 and the numerator is a
    non-zero number or an infinity. *)
Theorem safe_divide_entries (a b : grid) (Hshape : shape_eq a b) :
  exists r, safe_divide a b = Ok r /\ shape_eq r a /\
    forall i j x y, cell a i j = Some x -> cell b i j = Some y ->
      exists q, cell r i j = Some q /\
        (F32.isnan (div x y) = true -> q = zero) /\
        (F32.isnan (div x y) = false -> q = div x y) /\
        (is_zero x = true -> is_zero y = true -> q = zero) /\
        (is_zero y = true -> (is_finite_nonzero x || is_inf x) = true ->
         q = S754_infinity (xorb (sign x) (sign y))).
Proof.
  destruct (safe_divide_cell a b Hshape) as (r & Hr & Hs & Hc).
  exists r. split; [exact Hr|]. split; [exact Hs|].
  intros i j x y Ha Hb. exists (safe_quotient x y).
  split; [apply Hc; assumption|].
  unfold safe_quotient, div. repeat split.
  - intros ->. reflexivity.
  - intros ->. reflexivity.
  - destruct x, y; simpl; try discriminate; reflexivity.
  - destruct y as [sy| | |]; simpl; try discriminate. intros _.
    rewrite SFdiv_by_zero. destruct x; simpl; try discriminate; reflexivity.
Qed.

Lemma safe_divide_entries_witness :
  exists r, safe_divide [[f_half; zero]] [[zero; zero]] = Ok r /\
            r = [[pinf; zero]].
Proof.
  destruct (safe_divide_entries [[f_half; zero]] [[zero; zero]] eq_refl)
    as (r & Hr & _ & _).
  exists r. split; [exact Hr|].
  vm_compute in Hr. injection Hr as <-. reflexivity.
Defined.

(** ** C4 *)

(** C4, as stated, fails: for GREEN = [[0.0]] and NIR = [[0.5]] the
    result of [calculate_gci] is not [[-1.0]]. *)
Lemma calculate_gci_green_zero_not_minus_one :
  calculate_gci [[f_half]] [[zero]] <> Ok [[f_minus_one]].
Proof. vm_compute. discriminate. Qed.

(** C4 (amended): for GREEN = [[0.0]] and NIR = [[x]], [calculate_gci]
    returns [[-1.0]] exactly when [x] is a zero (or a NaN): then the
    quotient is NaN, [safe_divide] puts 0 and 1 is subtracted.  For
    every other [x] -- so for NIR = [[0.5]] -- the quotient is the
    infinity of [x]'s sign, which [safe_divide] keeps and from which
    subtracting 1 changes nothing: NIR = [[0.5]] gives [[+inf]]. *)
Theorem calculate_gci_green_zero (x : f32) :
  calculate_gci [[x]] [[zero]] =
  Ok [[match x with
       | S754_zero _ | S754_nan => f_minus_one
       | S754_infinity s | S754_finite s _ _ => S754_infinity s
       end]]
  /\ calculate_gci [[f_half]] [[zero]] = Ok [[pinf]]
  /\ calculate_gci [[zero]] [[zero]] = Ok [[f_minus_one]].
Proof.
  split; [|split; reflexivity].
  destruct x as [s|s| |s m e]; try reflexivity.
  - destruct s; reflexivity.
  - destruct s; reflexivity.
Qed.

(** ** C10 *)

Lemma binop_ok (op : f32 -> f32 -> f32) (a b : grid) :
  shape_eq a b -> exists r, binop op a b = Ok r /\ shape_eq r a.
Proof.
  intros H. exists (zip_with (zip_with op) a b).
  split; [apply binop_shape_eq, H|apply zip_with_shape, H].
Qed.

Lemma safe_divide_ok (n d : grid) :
  shape_eq n d ->
  exists r, safe_divide n d = Ok r /\ shape_eq r n /\ no_nan r = true.
Proof.
  intros H. destruct (safe_divide_cell n d H) as (r & Hr & Hs & _).
  exists r. repeat split; [exact Hr|exact Hs|].
  apply (safe_divide_no_nan n d r Hr).
Qed.

(** The scalar factors and the subtrahend of the formulas are finite and
    not zero. *)
Lemma savi_factor_finite :
  add (lit 1 0) SAVI_L = S754_finite false 12582912 (-23).
Proof. reflexivity. Qed.

Lemma evi_gain_finite : EVI_G = S754_finite false 10485760 (-22).
Proof. reflexivity. Qed.

Lemma one_finite : lit 1 0 = S754_finite false 8388608 (-23).
Proof. reflexivity. Qed.

Lemma scale_by_savi_factor_keeps (q : grid) :
  no_nan q = true ->
  no_nan (map_cells (fun x => mul x (add (lit 1 0) SAVI_L)) q) = true.
Proof.
  apply no_nan_map_cells_keep. intros x Hx. rewrite savi_factor_finite.
  apply (SFmul_finite_not_nan F32.prec F32.emax), Hx.
Qed.

Lemma scale_by_evi_gain_keeps (q : grid) :
  no_nan q = true -> no_nan (map_cells (fun x => mul EVI_G x) q) = true.
Proof.
  apply no_nan_map_cells_keep. intros x Hx. rewrite evi_gain_finite.
  apply (SFmul_finite_not_nan F32.prec F32.emax), Hx.
Qed.

Lemma minus_one_keeps (q : grid) :
  no_nan q = true -> no_nan (map_cells (fun x => sub x (lit 1 0)) q) = true.
Proof.
  apply no_nan_map_cells_keep. intros x Hx. rewrite one_finite.
  apply (SFsub_finite_not_nan F32.prec F32.emax), Hx.
Qed.

(** Steps through the arithmetic that precedes [safe_divide] in a
    formula applied to operands of one shape. *)
Ltac step_binop H :=
  match goal with
  | |- context [binop ?op ?a ?b] =>
      let r := fresh "t" in
      let Hr := fresh "Ht" in
      let Hs := fresh "Hs" in
      destruct (binop_ok op a b) as (r & Hr & Hs);
      [ eauto using shape_eq_trans, shape_eq_sym, map_cells_shape
      | rewrite Hr; simpl ]
  end.

Ltac step_safe_divide :=
  match goal with
  | |- context [safe_divide ?n ?d] =>
      let r := fresh "q" in
      let Hr := fresh "Hq" in
      let Hs := fresh "Hqs" in
      let Hn := fresh "Hqn" in
      destruct (safe_divide_ok n d) as (r & Hr & Hs & Hn);
      [ eauto 6 using shape_eq_trans, shape_eq_sym, map_cells_shape
      | rewrite Hr; simpl ]
  end.

Section FormulasOnOneShape.
Variables a b c : grid.
Hypothesis Hab : shape_eq a b.
Hypothesis Hac : shape_eq a c.

Local Hint Resolve Hab Hac : core.

Local Abbreviation returns_clean := (returns_without_nan a).

Lemma ratio_form_clean (x y : grid) :
  shape_eq x a -> shape_eq y a ->
  returns_clean (n ← binop sub x y; d ← binop add x y; safe_divide n d).
Proof.
  intros Hx Hy. unfold returns_without_nan.
  repeat step_binop Hx. step_safe_divide.
  exists q. eauto using shape_eq_trans.
Qed.

Lemma calculate_ndvi_clean : returns_clean (calculate_ndvi a b).
Proof. apply ratio_form_clean; eauto using shape_eq_sym, shape_eq_refl. Qed.

Lemma calculate_nbr_clean : returns_clean (calculate_nbr a b).
Proof. apply ratio_form_clean; eauto using shape_eq_sym, shape_eq_refl. Qed.

Lemma calculate_nbwi_clean : returns_clean (calculate_nbwi a b).
Proof. apply ratio_form_clean; eauto using shape_eq_sym, shape_eq_refl. Qed.

Lemma calculate_ndbi_clean : returns_clean (calculate_ndbi a b).
Proof. apply ratio_form_clean; eauto using shape_eq_sym, shape_eq_refl. Qed.

Lemma calculate_savi_clean : returns_clean (calculate_savi a b SAVI_L).
Proof.
  unfold returns_without_nan, calculate_savi.
  repeat step_binop Hab. step_safe_divide.
  eexists. split; [reflexivity|]. split.
  - eauto using shape_eq_trans, map_cells_shape.
  - apply scale_by_savi_factor_keeps, Hqn.
Qed.

Lemma calculate_evi_clean :
  returns_clean (calculate_evi a b c EVI_G EVI_C1 EVI_C2 EVI_L).
Proof.
  unfold returns_without_nan, calculate_evi.
  repeat step_binop Hab. step_safe_divide.
  eexists. split; [reflexivity|]. split.
  - eauto using shape_eq_trans, map_cells_shape.
  - apply scale_by_evi_gain_keeps, Hqn.
Qed.

Lemma calculate_arvi_clean : returns_clean (calculate_arvi a b c).
Proof.
  unfold returns_without_nan, calculate_arvi.
  repeat step_binop Hab. step_safe_divide.
  exists q. eauto using shape_eq_trans.
Qed.

Lemma calculate_gci_clean : returns_clean (calculate_gci a b).
Proof.
  unfold returns_without_nan, calculate_gci. step_safe_divide.
  eexists. split; [reflexivity|]. split.
  - eauto using shape_eq_trans, map_cells_shape.
  - apply minus_one_keeps, Hqn.
Qed.

End FormulasOnOneShape.

(** C10, as stated, fails: an index function can return NaN.  With the
    gain [G = 0] (the other coefficients at their defaults) and the
    one-cell bands NIR = 0.5, RED = 1, BLUE = 1 the denominator of EVI
    is 0.5 + 6 - 7.5 + 1 = 0, the quotient -0.5 / 0 is minus infinity,
    which [safe_divide] keeps, and 0 times minus infinity is NaN.
    Likewise SAVI with [L = -1] on NIR = 1, RED = 0: the quotient 1 / 0
    is plus infinity and the factor [1 + L] is 0. *)
Lemma index_functions_with_other_coefficients_return_nan :
  calculate_evi [[f_half]] [[f_one]] [[f_one]] zero EVI_C1 EVI_C2 EVI_L
  = Ok [[S754_nan]] /\
  calculate_savi [[f_one]] [[zero]] f_minus_one = Ok [[S754_nan]] /\
  no_nan [[S754_nan]] = false.
Proof. repeat split; reflexivity. Qed.

(** C10 (amended): for grids of one shape, the grid returned by
    [safe_divide] holds no NaN (every NaN of the elementwise quotient,
    from 0/0 or from NaN operands, has become 0), and so does the grid
    returned by each of the eight index functions called with the
    default coefficients, as the program calls them ([L = 0.5] for
    SAVI; [G = 2.5], [C1 = 6], [C2 = 7.5], [L = 1] for EVI); each call
    returns.  Entries can be plus or minus infinity. *)
Theorem index_grids_hold_no_nan (a b c : grid)
    (Hab : shape_eq a b) (Hac : shape_eq a c) :
  returns_without_nan a (safe_divide a b) /\
  (forall i j x y, cell a i j = Some x -> cell b i j = Some y ->
     F32.isnan (div x y) = true ->
     exists g, safe_divide a b = Ok g /\ cell g i j = Some zero) /\
  returns_without_nan a (calculate_ndvi a b) /\
  returns_without_nan a (calculate_savi a b SAVI_L) /\
  returns_without_nan a (calculate_evi a b c EVI_G EVI_C1 EVI_C2 EVI_L) /\
  returns_without_nan a (calculate_arvi a b c) /\
  returns_without_nan a (calculate_nbr a b) /\
  returns_without_nan a (calculate_nbwi a b) /\
  returns_without_nan a (calculate_ndbi a b) /\
  returns_without_nan a (calculate_gci a b) /\
  safe_divide [[f_half]] [[zero]] = Ok [[pinf]] /\
  safe_divide [[SFopp f_half]] [[zero]] = Ok [[ninf]].
Proof.
  split; [apply safe_divide_ok, Hab|].
  split.
  { intros i j x y Ha Hb Hnan.
    destruct (safe_divide_cell a b Hab) as (g & Hg & _ & Hc).
    exists g. split; [exact Hg|]. rewrite (Hc i j x y Ha Hb).
    unfold safe_quotient. rewrite Hnan. reflexivity. }
  split; [apply calculate_ndvi_clean, Hab|].
  split; [apply calculate_savi_clean, Hab|].
  split; [apply calculate_evi_clean; assumption|].
  split; [apply calculate_arvi_clean; assumption|].
  split; [apply calculate_nbr_clean, Hab|].
  split; [apply calculate_nbwi_clean, Hab|].
  split; [apply calculate_ndbi_clean, Hab|].
  split; [apply calculate_gci_clean, Hab|].
  split; reflexivity.
Qed.

Lemma index_grids_hold_no_nan_witness :
  returns_without_nan [[zero; f_one]] (calculate_ndvi [[zero; f_one]] [[zero; f_half]]) /\
  returns_without_nan [[zero; f_one]] (calculate_gci [[zero; f_one]] [[zero; f_half]]).
Proof.
  pose proof (index_grids_hold_no_nan
                [[zero; f_one]] [[zero; f_half]] [[f_one; f_one]]
                eq_refl eq_refl) as H.
  split; [apply H|]. apply H.
Defined.

(* ===================================================================== *)
(** * Facts about process_scene                                           *)
(* ===================================================================== *)

(* ===================================================================== *)
(** * Facts about paths                                                   *)
(* ===================================================================== *)

Lemma string_length_app (x y : string) :
  String.length (x ++ y) = (String.length x + String.length y)%nat.
Proof. induction x as [|c x IH]; simpl; [reflexivity|]. rewrite IH. reflexivity. Qed.

Lemma string_app_inv_tail (x y z : string) :
  (x ++ z = y ++ z)%string -> x = y.
Proof.
  intros H.
  assert (Hlen : String.length x = String.length y).
  { apply (f_equal String.length) in H. rewrite !string_length_app in H. lia. }
  revert y H Hlen. induction x as [|c x IH]; intros [|d y] H Hlen;
    simpl in *; try discriminate; [reflexivity|].
  injection H as -> H. f_equal. apply IH; [exact H|lia].
Qed.

Lemma path_join_inj (d x y : string) : path_join d x = path_join d y -> x = y.
Proof.
  unfold path_join. intros H.
  apply (inj (String.app d)) in H. injection H as H. exact H.
Qed.

(** Two indices of one scene have one raster file only if they have
    one name. *)
Lemma raster_path_inj (d n1 n2 : string) :
  path_join d (n1 ++ ".tif") = path_join d (n2 ++ ".tif") -> n1 = n2.
Proof. intros H. apply path_join_inj, string_app_inv_tail in H. exact H. Qed.

#[local] Arguments index_step : simpl never.
#[local] Arguments save_index : simpl never.
#[local] Arguments run_indices : simpl never.
#[local] Arguments load_step : simpl never.

Section SceneFacts.
Variable E : env.
Variable A : args.
Variable sel : list string.

Lemma try_block_run_indices (lw : locals * world) :
  try_block E A sel lw = run_indices E A sel INDEX_TABLE lw.
Proof. reflexivity. Qed.

Lemma run_indices_app (ss1 ss2 : list index_spec) (lw : locals * world) :
  run_indices E A sel (ss1 ++ ss2) lw =
  run_indices E A sel ss2 (run_indices E A sel ss1 lw).
Proof. unfold run_indices. apply fold_left_app. Qed.

Lemma run_indices_cons (s : index_spec) (ss : list index_spec) lw :
  run_indices E A sel (s :: ss) lw =
  run_indices E A sel ss (index_step E A sel s lw).
Proof. reflexivity. Qed.

Lemma index_step_outcome (s : index_spec) (l : locals) (w : world) :
  step_outcome E A sel s l w (index_step E A sel s (l, w)).
Proof.
  unfold index_step.
  destruct (pending l) as [e|] eqn:Hp; [eapply step_skipped_after_raise, Hp|].
  destruct (issubset (idx_requires s) (bands l)
            && bool_decide (idx_name s ∈ sel)) eqn:Hg.
  - destruct (idx_compute s (bands l)) as [arr|e] eqn:Hc.
    + apply (step_saved E A sel s l w arr Hp Hg Hc).
    + apply (step_raised E A sel s l w e Hp Hg Hc).
  - apply (step_guard_false E A sel s l w Hp Hg).
Qed.

Lemma index_step_frame (s : index_spec) (l : locals) (w : world) :
  same_frame l (fst (index_step E A sel s (l, w))).
Proof.
  destruct (index_step_outcome s l w) as [e Hp|Hp Hg|e Hp Hg Hc|arr Hp Hg Hc];
    try (repeat split; reflexivity).
  destruct (save_index _ _ _ _ _ _) as [[ok p] w']; cbv beta iota. repeat split.
Qed.

Lemma run_indices_frame (ss : list index_spec) (l : locals) (w : world) :
  same_frame l (fst (run_indices E A sel ss (l, w))).
Proof.
  revert l w. induction ss as [|s ss IH]; intros l w.
  - repeat split.
  - rewrite run_indices_cons.
    pose proof (index_step_frame s l w) as H1.
    destruct (index_step E A sel s (l, w)) as [l1 w1]. simpl in H1.
    pose proof (IH l1 w1) as H2. unfold same_frame in *.
    intuition congruence.
Qed.

Lemma run_indices_bands ss l w :
  bands (fst (run_indices E A sel ss (l, w))) = bands l.
Proof. apply run_indices_frame. Qed.

(** Once an exception is pending no later statement runs. *)
Lemma run_indices_pending (ss : list index_spec) l w e :
  pending l = Some e -> run_indices E A sel ss (l, w) = (l, w).
Proof.
  intros Hp. induction ss as [|s ss IH]; [reflexivity|].
  rewrite run_indices_cons.
  destruct (index_step_outcome s l w) as [e' Hp'|Hp' Hg|e' Hp' Hg Hc|arr Hp' Hg Hc];
    try congruence; exact IH.
Qed.

(** No exception is pending after the statements [ss] iff none was
    pending before and none of their formulas raised. *)
Lemma run_indices_pending_none (ss : list index_spec) l w :
  pending (fst (run_indices E A sel ss (l, w))) = None <->
  pending l = None /\ Forall (fun s => raises_at sel (bands l) s = false) ss.
Proof.
  revert l w. induction ss as [|s ss IH]; intros l w.
  - simpl. intuition.
  - rewrite run_indices_cons.
    destruct (index_step_outcome s l w) as [e Hp|Hp Hg|e Hp Hg Hc|arr Hp Hg Hc].
    + rewrite (run_indices_pending ss l w e Hp). simpl. rewrite Hp.
      split; [discriminate|intros [? _]; discriminate].
    + rewrite IH, Forall_cons. unfold raises_at at 2. rewrite Hg. simpl.
      intuition.
    + match goal with |- context [run_indices E A sel ss (?l1, ?w1)] =>
        rewrite (run_indices_pending ss l1 w1 e eq_refl) end. simpl.
      rewrite Forall_cons. unfold raises_at at 1. rewrite Hg, Hc. simpl.
      split; [discriminate|intros [_ [? _]]; discriminate].
    + destruct (save_index _ _ _ _ _ _) as [[ok p] w']; cbv beta iota.
      rewrite IH. simpl. rewrite Forall_cons. unfold raises_at at 2.
      rewrite Hg, Hc. simpl. intuition.
Qed.

(** The entry of a name that is none of [ss] is unchanged by [ss]. *)
Lemma run_indices_entries_other (ss : list index_spec) l w (name : string) :
  name ∉ map idx_name ss ->
  entries (results (fst (run_indices E A sel ss (l, w)))) !! name =
  entries (results l) !! name.
Proof.
  revert l w. induction ss as [|s ss IH]; intros l w Hn; [reflexivity|].
  rewrite run_indices_cons. simpl in Hn.
  apply not_elem_of_cons in Hn as [Hne Hn].
  destruct (index_step_outcome s l w) as [e Hp|Hp Hg|e Hp Hg Hc|arr Hp Hg Hc];
    try (apply IH, Hn).
  - rewrite IH by exact Hn. reflexivity.
  - destruct (save_index _ _ _ _ _ _) as [[ok p] w']; cbv beta iota.
    rewrite IH by exact Hn. simpl. apply lookup_insert_ne. congruence.
Qed.

Lemma NoDup_app_cons_names (pre post : list index_spec) (s : index_spec) :
  NoDup (map idx_name (pre ++ s :: post)) ->
  (idx_name s ∉ map idx_name pre) /\ (idx_name s ∉ map idx_name post).
Proof.
  rewrite map_app. simpl. intros H.
  apply NoDup_app in H as (_ & H1 & H2).
  apply NoDup_cons in H2 as [H2 _]. split; [|exact H2].
  intros Hin. apply (H1 _ Hin). left.
Qed.

(** The entry of the index [s] after the whole block: it is written by
    the statement for [s] alone, with the value of [save_index]. *)
Lemma run_indices_entry_value (pre post : list index_spec) (s : index_spec)
    (l : locals) (w : world) (arr : grid) :
  NoDup (map idx_name (pre ++ s :: post)) ->
  pending (fst (run_indices E A sel pre (l, w))) = None ->
  guard sel (bands l) s = true ->
  idx_compute s (bands l) = Ok arr ->
  (entries (results (fst (run_indices E A sel (pre ++ s :: post) (l, w)))))
    !! idx_name s =
  Some (fst (fst (save_index E arr (idx_name s)
                    (profile (fst (run_indices E A sel pre (l, w))))
                    (output_dir A (fst (run_indices E A sel pre (l, w))))
                    (snd (run_indices E A sel pre (l, w)))))).
Proof.
  intros Hnd Hp Hg Hc.
  destruct (NoDup_app_cons_names pre post s Hnd) as [_ Hpost].
  rewrite run_indices_app, run_indices_cons.
  pose proof (run_indices_bands pre l w) as Hb.
  destruct (run_indices E A sel pre (l, w)) as [l1 w1]. simpl in *.
  rewrite <- Hb in Hg, Hc.
  destruct (index_step_outcome s l1 w1) as [e Hp'|Hp' Hg'|e Hp' Hg' Hc'|arr' Hp' Hg' Hc'];
    try congruence.
  assert (arr' = arr) as -> by congruence.
  destruct (save_index _ _ _ _ _ _) as [[ok p] w']; cbv beta iota.
  rewrite run_indices_entries_other by exact Hpost.
  simpl. apply lookup_insert_eq.
Qed.

(** The index [s] has an entry after the block iff its statement was
    reached without a pending exception, its guard held and its formula
    returned. *)
Lemma run_indices_entry_iff (pre post : list index_spec) (s : index_spec)
    (l : locals) (w : world) :
  NoDup (map idx_name (pre ++ s :: post)) ->
  pending l = None ->
  entries (results l) !! idx_name s = None ->
  is_Some ((entries (results (fst (run_indices E A sel (pre ++ s :: post)
                                                 (l, w)))))
             !! idx_name s) <->
  guard sel (bands l) s = true /\
  Forall (fun s' => raises_at sel (bands l) s' = false) (pre ++ [s]).
Proof.
  intros Hnd Hp0 He0.
  destruct (NoDup_app_cons_names pre post s Hnd) as [Hpre Hpost].
  rewrite run_indices_app, run_indices_cons.
  pose proof (run_indices_bands pre l w) as Hb.
  pose proof (run_indices_pending_none pre l w) as Hpn.
  pose proof (run_indices_entries_other pre l w (idx_name s) Hpre) as Heq.
  destruct (run_indices E A sel pre (l, w)) as [l1 w1]. simpl in *.
  rewrite Forall_app, Forall_singleton.
  destruct (index_step_outcome s l1 w1) as [e Hp'|Hp' Hg'|e Hp' Hg' Hc'|arr' Hp' Hg' Hc'].
  - rewrite run_indices_entries_other by exact Hpost.
    rewrite Heq, He0. split; [intros [? ?]; discriminate|].
    intros (_ & Hf & _).
    assert (pending l1 = None) by (apply Hpn; auto). congruence.
  - rewrite run_indices_entries_other by exact Hpost.
    rewrite Heq, He0. rewrite Hb in Hg'.
    split; [intros [? ?]; discriminate|]. intros [Hg _]. congruence.
  - rewrite run_indices_entries_other by exact Hpost. simpl.
    rewrite Heq, He0. rewrite Hb in Hg', Hc'.
    split; [intros [? ?]; discriminate|]. intros (_ & _ & Hr).
    unfold raises_at in Hr. rewrite Hg', Hc' in Hr. discriminate.
  - destruct (save_index _ _ _ _ _ _) as [[ok p] w']; cbv beta iota.
    rewrite run_indices_entries_other by exact Hpost. simpl.
    rewrite lookup_insert_eq. rewrite Hb in Hg', Hc'.
    split; [intros _|intros _; eauto].
    split; [exact Hg'|]. split; [apply Hpn, Hp'|].
    unfold raises_at. rewrite Hg', Hc'. reflexivity.
Qed.

Lemma index_table_names_nodup : NoDup (map idx_name INDEX_TABLE).
Proof. apply (bool_decide_unpack _). vm_compute. exact I. Qed.

(** ** The load phase and the prologue *)

Lemma load_phase_run_loads lw : load_phase E lw = run_loads E band_files lw.
Proof. reflexivity. Qed.

Lemma scene_begin_fields (path : string) (w : world) :
  let l := fst (scene_begin E path w) in
  scene_path l = path /\ scene_name l = basename path /\ bands l = ∅ /\
  profile l = None /\ pending l = None /\
  entries (results l) = ∅ /\ scene (results l) = basename path /\
  rasters (snd (scene_begin E path w)) = rasters w.
Proof. repeat split. Qed.

(** The loads touch neither the results, nor the pending exception, nor
    the rasters. *)
Lemma load_step_frame (kf : string * string) (l : locals) (w : world) :
  let lw' := load_step E kf (l, w) in
  scene_path (fst lw') = scene_path l /\ scene_name (fst lw') = scene_name l /\
  start_time (fst lw') = start_time l /\
  results (fst lw') = results l /\ pending (fst lw') = pending l /\
  rasters (snd lw') = rasters w.
Proof.
  destruct kf as [k f]. unfold load_step, load_band.
  destruct (file_at E (path_join (scene_path l) f)); repeat split.
Qed.

Lemma run_loads_frame (kfs : list (string * string)) (l : locals) (w : world) :
  let lw' := run_loads E kfs (l, w) in
  scene_path (fst lw') = scene_path l /\ scene_name (fst lw') = scene_name l /\
  start_time (fst lw') = start_time l /\
  results (fst lw') = results l /\ pending (fst lw') = pending l /\
  rasters (snd lw') = rasters w.
Proof.
  revert l w. induction kfs as [|kf kfs IH]; intros l w; [repeat split|].
  change (run_loads E (kf :: kfs) (l, w))
    with (run_loads E kfs (load_step E kf (l, w))).
  pose proof (load_step_frame kf l w) as H1.
  destruct (load_step E kf (l, w)) as [l1 w1].
  pose proof (IH l1 w1) as H2. cbn [fst snd] in *.
  intuition congruence.
Qed.

(** What one load does to the band set and to the profile variable. *)
Lemma load_step_effect (k f : string) (l : locals) (w : world) :
  let l' := fst (load_step E (k, f) (l, w)) in
  match file_at E (path_join (scene_path l) f) with
  | Missing => bands l' = bands l /\ profile l' = profile l
  | Unreadable =>
      bands l' = <[k := None]> (bands l) /\ profile l' = None
  | Readable data p =>
      bands l' = <[k := Some data]> (bands l) /\ profile l' = Some p
  end.
Proof.
  unfold load_step, load_band.
  destruct (file_at E (path_join (scene_path l) f)); split; reflexivity.
Qed.

(** ** save_index *)

Lemma profile_update_idem (p : raster_profile) :
  profile_update (profile_update p) = profile_update p.
Proof. reflexivity. Qed.

(** [save_index] returns [False] exactly when the body of its [try]
    raises. *)
Lemma save_index_false_iff (arr : grid) (name : string)
    (prof : option raster_profile) (dir : string) (w : world) :
  fst (fst (save_index E arr name prof dir w)) = false <->
  exists e, fst (fst (persist E arr name prof dir w)) = Raise e.
Proof.
  unfold save_index.
  destruct (persist E arr name prof dir w) as [[[u|e] p'] w']; simpl.
  - split; [discriminate|intros [e He]; discriminate].
  - split; [eauto|reflexivity].
Qed.

(** A save that returns [True] has written the grid with the updated
    profile at the raster path of the index. *)
Lemma save_index_true (arr : grid) (name : string)
    (prof : option raster_profile) (dir : string) (w : world) :
  fst (fst (save_index E arr name prof dir w)) = true ->
  exists p, prof = Some p /\
    rasters (snd (save_index E arr name prof dir w)) =
    <[path_join dir (name ++ ".tif") := (arr, profile_update p)]> (rasters w).
Proof.
  unfold save_index, persist.
  destruct (makedirs_ok E dir); cbn; [|discriminate].
  destruct prof as [p|]; cbn; [|discriminate].
  destruct (write_ok E _ _ _); cbn; [|discriminate].
  intros _. exists p. split; reflexivity.
Qed.

(** A save touches no raster but its own. *)
Lemma save_index_rasters_other (arr : grid) (name : string)
    (prof : option raster_profile) (dir : string) (w : world) (path : string) :
  path <> path_join dir (name ++ ".tif") ->
  rasters (snd (save_index E arr name prof dir w)) !! path = rasters w !! path.
Proof.
  intros Hne. unfold save_index, persist.
  destruct (makedirs_ok E dir); cbn; [|reflexivity].
  destruct prof as [p|]; cbn; [|reflexivity].
  destruct (write_ok E _ _ _); cbn; [|reflexivity].
  apply lookup_insert_ne. congruence.
Qed.

Lemma save_index_profile_from (arr : grid) (name : string)
    (p0 prof : option raster_profile) (dir : string) (w : world) :
  profile_from p0 prof ->
  profile_from p0 (snd (fst (save_index E arr name prof dir w))).
Proof.
  intros Hp. unfold save_index, persist.
  destruct (makedirs_ok E dir); cbn; [|exact Hp].
  destruct prof as [p|]; cbn; [|exact Hp].
  assert (Hu : profile_from p0 (Some (profile_update p))).
  { destruct Hp as [<-|Hp]; [right; reflexivity|].
    destruct p0 as [q|]; simpl in Hp; [|discriminate].
    injection Hp as ->. right. reflexivity. }
  destruct (write_ok E _ _ _); cbn; exact Hu.
Qed.

(** ** Rasters and the profile through the [try] block *)

Lemma index_step_rasters_other (s : index_spec) l w (path : string) :
  path <> out_path A l (idx_name s) ->
  rasters (snd (index_step E A sel s (l, w))) !! path = rasters w !! path.
Proof.
  intros Hne.
  destruct (index_step_outcome s l w) as [e Hp|Hp Hg|e Hp Hg Hc|arr Hp Hg Hc];
    try reflexivity.
  pose proof (save_index_rasters_other arr (idx_name s) (profile l)
                (output_dir A l) w path Hne) as H.
  destruct (save_index _ _ _ _ _ _) as [[ok p] w']. exact H.
Qed.

Lemma index_step_rasters_guard_false (s : index_spec) l w :
  guard sel (bands l) s = false ->
  index_step E A sel s (l, w) = (l, w).
Proof.
  intros Hg.
  destruct (index_step_outcome s l w) as [e Hp|Hp Hg'|e Hp Hg' Hc|arr Hp Hg' Hc];
    congruence.
Qed.

Lemma out_path_frame (l l' : locals) (name : string) :
  same_frame l l' -> out_path A l' name = out_path A l name.
Proof.
  intros (_ & Hn & _). unfold out_path, output_dir. rewrite Hn. reflexivity.
Qed.

(** The statements [ss] leave alone every raster that is not the file
    of one of them with a true guard. *)
Lemma run_indices_rasters_other (ss : list index_spec) l w (path : string) :
  Forall (fun s => path <> out_path A l (idx_name s)
                   \/ guard sel (bands l) s = false) ss ->
  rasters (snd (run_indices E A sel ss (l, w))) !! path = rasters w !! path.
Proof.
  revert l w. induction ss as [|s ss IH]; intros l w Hall; [reflexivity|].
  apply Forall_cons in Hall as [Hs Hall]. rewrite run_indices_cons.
  pose proof (index_step_frame s l w) as Hf.
  assert (Hr : rasters (snd (index_step E A sel s (l, w))) !! path
               = rasters w !! path).
  { destruct Hs as [Hs|Hs]; [apply index_step_rasters_other, Hs|].
    rewrite index_step_rasters_guard_false by exact Hs. reflexivity. }
  destruct (index_step E A sel s (l, w)) as [l1 w1]. cbn [fst snd] in *.
  rewrite IH; [exact Hr|].
  eapply Forall_impl; [exact Hall|]. intros s' Hs'. cbn beta in Hs'.
  rewrite (out_path_frame l l1 _ Hf).
  destruct Hf as (_ & _ & _ & -> & _). exact Hs'.
Qed.

Lemma index_step_profile_from (s : index_spec) l w p0 :
  profile_from p0 (profile l) ->
  profile_from p0 (profile (fst (index_step E A sel s (l, w)))).
Proof.
  intros Hp.
  destruct (index_step_outcome s l w) as [e Hp'|Hp' Hg|e Hp' Hg Hc|arr Hp' Hg Hc];
    try exact Hp.
  pose proof (save_index_profile_from arr (idx_name s) p0 (profile l)
                (output_dir A l) w Hp) as H.
  destruct (save_index _ _ _ _ _ _) as [[ok p] w']. exact H.
Qed.

Lemma run_indices_profile_from (ss : list index_spec) l w p0 :
  profile_from p0 (profile l) ->
  profile_from p0 (profile (fst (run_indices E A sel ss (l, w)))).
Proof.
  revert l w. induction ss as [|s ss IH]; intros l w Hp; [exact Hp|].
  rewrite run_indices_cons.
  pose proof (index_step_profile_from s l w p0 Hp) as H.
  destruct (index_step E A sel s (l, w)) as [l1 w1]. apply IH, H.
Qed.

(** ** The whole call *)

Lemma process_scene_unfold (path : string) (w : world) :
  process_scene E A sel path w =
  scene_finish E (run_indices E A sel INDEX_TABLE
                    (run_loads E band_files (scene_begin E path w))).
Proof. reflexivity. Qed.

Lemma scene_finish_fields (l : locals) (w : world) :
  entries (fst (scene_finish E (l, w))) = entries (results l) /\
  scene (fst (scene_finish E (l, w))) = scene (results l) /\
  rasters (snd (scene_finish E (l, w))) = rasters w.
Proof. repeat split. Qed.

(** The state in which the [try] block is entered. *)
Lemma loaded_state (path : string) (w : world) :
  let lw := run_loads E band_files (scene_begin E path w) in
  scene_path (fst lw) = path /\ scene_name (fst lw) = basename path /\
  pending (fst lw) = None /\ entries (results (fst lw)) = ∅ /\
  scene (results (fst lw)) = basename path /\ rasters (snd lw) = rasters w.
Proof.
  pose proof (scene_begin_fields path w) as H0.
  destruct (scene_begin E path w) as [l0 w0] eqn:Hb.
  pose proof (run_loads_frame band_files l0 w0) as H1.
  cbn [fst snd] in *. cbv zeta in *.
  destruct H0 as (? & ? & ? & ? & ? & ? & ? & ?).
  destruct H1 as (? & ? & ? & Hr & ? & ?).
  rewrite Hr. repeat split; congruence.
Qed.

(** The band set after the loads [kfs]: a key is bound by the load of
    its own file, to the grid read or to [None] when the read failed. *)
Lemma run_loads_lookup_other (kfs : list (string * string)) l w (k : string) :
  k ∉ map fst kfs ->
  bands (fst (run_loads E kfs (l, w))) !! k = bands l !! k.
Proof.
  revert l w. induction kfs as [|[k' f'] kfs IH]; intros l w Hk; [reflexivity|].
  change (run_loads E ((k', f') :: kfs) (l, w))
    with (run_loads E kfs (load_step E (k', f') (l, w))).
  simpl in Hk. apply not_elem_of_cons in Hk as [Hne Hk].
  pose proof (load_step_effect k' f' l w) as He.
  destruct (load_step E (k', f') (l, w)) as [l1 w1]. cbn [fst] in *.
  rewrite IH by exact Hk. cbv zeta in He.
  destruct (file_at E (path_join (scene_path l) f')); destruct He as [-> _];
    try reflexivity; apply lookup_insert_ne; congruence.
Qed.

Lemma run_loads_lookup (kfs : list (string * string)) l w (k f : string) :
  NoDup (map fst kfs) -> (k, f) ∈ kfs ->
  bands (fst (run_loads E kfs (l, w))) !! k =
  match file_at E (path_join (scene_path l) f) with
  | Missing => bands l !! k
  | Unreadable => Some None
  | Readable data _ => Some (Some data)
  end.
Proof.
  revert l w. induction kfs as [|[k' f'] kfs IH]; intros l w Hnd Hin.
  - apply elem_of_nil in Hin as [].
  - change (run_loads E ((k', f') :: kfs) (l, w))
      with (run_loads E kfs (load_step E (k', f') (l, w))).
    simpl in Hnd. apply NoDup_cons in Hnd as [Hk' Hnd].
    pose proof (load_step_effect k' f' l w) as He.
    pose proof (load_step_frame (k', f') l w) as Hf.
    destruct (load_step E (k', f') (l, w)) as [l1 w1]. cbn [fst snd] in *.
    cbv zeta in He, Hf. destruct Hf as (Hsp & _).
    apply elem_of_cons in Hin as [Heq|Hin].
    + injection Heq as -> ->.
      rewrite run_loads_lookup_other by exact Hk'.
      destruct (file_at E (path_join (scene_path l) f')); destruct He as [-> _];
        try reflexivity; apply lookup_insert_eq.
    + rewrite (IH l1 w1 Hnd Hin), Hsp.
      assert (k <> k').
      { intros ->. apply Hk'. apply list_elem_of_fmap. exists (k', f). auto. }
      destruct (file_at E (path_join (scene_path l) f)); try reflexivity.
      destruct (file_at E (path_join (scene_path l) f')); destruct He as [-> _];
        try reflexivity; apply lookup_insert_ne; congruence.
Qed.

Lemma band_files_keys_nodup : NoDup (map fst band_files).
Proof. apply (bool_decide_unpack _). vm_compute. exact I. Qed.

(** The band set with which the [try] block is entered. *)
Lemma loaded_band (path : string) (w : world) (k f : string) :
  (k, f) ∈ band_files ->
  bands (fst (run_loads E band_files (scene_begin E path w))) !! k =
  match file_at E (path_join path f) with
  | Missing => None
  | Unreadable => Some None
  | Readable data _ => Some (Some data)
  end.
Proof.
  intros Hin. destruct (scene_begin E path w) as [l0 w0] eqn:Hb.
  pose proof (scene_begin_fields path w) as H0. rewrite Hb in H0.
  cbn [fst snd] in H0. cbv zeta in H0.
  destruct H0 as (Hp & _ & Hbs & _).
  rewrite (run_loads_lookup band_files l0 w0 k f band_files_keys_nodup Hin).
  rewrite Hp, Hbs, lookup_empty. reflexivity.
Qed.

(** An index has an entry in the result of the call iff it is selected,
    the bands of its guard are keys of the band set, and no formula up
    to and including its own raised. *)
Lemma process_scene_entry_iff (path : string) (w : world)
    (pre post : list index_spec) (s : index_spec) :
  INDEX_TABLE = pre ++ s :: post ->
  let bs := bands (fst (run_loads E band_files (scene_begin E path w))) in
  is_Some (entries (fst (process_scene E A sel path w)) !! idx_name s) <->
  guard sel bs s = true /\
  Forall (fun s' => raises_at sel bs s' = false) (pre ++ [s]).
Proof.
  intros Ht bs. rewrite process_scene_unfold.
  pose proof (loaded_state path w) as Hl. subst bs.
  destruct (run_loads E band_files (scene_begin E path w)) as [l w1].
  cbn [fst snd] in *. cbv zeta in Hl.
  destruct Hl as (_ & _ & Hp & He & _).
  destruct (run_indices E A sel INDEX_TABLE (l, w1)) as [l2 w2] eqn:Hrun.
  destruct (scene_finish_fields l2 w2) as (-> & _).
  replace l2 with (fst (run_indices E A sel INDEX_TABLE (l, w1)))
    by (rewrite Hrun; reflexivity).
  rewrite Ht. apply run_indices_entry_iff.
  - rewrite <- Ht. apply index_table_names_nodup.
  - exact Hp.
  - rewrite He. apply lookup_empty.
Qed.

End SceneFacts.

(* ===================================================================== *)
(** * Properties of process_scene                                         *)
(* ===================================================================== *)

Lemma issubset_true {V} (ks : list string) (m : gmap string V) :
  Forall (fun k => is_Some (m !! k)) ks -> issubset ks m = true.
Proof.
  intros H. unfold issubset. apply forallb_forall. intros k Hk.
  rewrite Forall_forall in H. apply bool_decide_eq_true, H.
  apply list_elem_of_In, Hk.
Qed.

Lemma issubset_absent {V} (ks : list string) (m : gmap string V) (k : string) :
  k ∈ ks -> m !! k = None -> issubset ks m = false.
Proof.
  intros Hk Hm. unfold issubset.
  destruct (forallb _ ks) eqn:H; [|reflexivity].
  rewrite forallb_forall in H. apply list_elem_of_In in Hk.
  specialize (H k Hk). apply bool_decide_eq_true in H.
  rewrite Hm in H. destruct H as [? ?]. discriminate.
Qed.

(** ** C2 *)

(** C2 (the code at the failing inputs): with B3 and B5 loaded, B7
    missing and every index selected, the result has no GCI entry and no
    GCI raster: GCI is not attempted although NIR (B5) and GREEN (B3)
    are there.  With B3, B5 and B7 loaded the GCI raster is
    [calculate_gci] of B7 and B3, which differs from that of B5 and B3.
    The guard of GCI names B3 and B7. *)
Theorem gci_reads_B7_for_nir :
  let out1 := process_scene env_b3_b5 args_all ALL_INDICES "in/s" empty_world in
  let out2 := process_scene env_b3_b5_b7 args_all ALL_INDICES "in/s" empty_world in
  entries (fst out1) !! "GCI" = None /\
  rasters (snd out1) !! "out/s/GCI.tif" = None /\
  entries (fst out1) !! "NBWI" = Some true /\
  (exists g p, rasters (snd out2) !! "out/s/GCI.tif" = Some (g, p) /\
     calculate_gci [[f_half]] [[f_half]] = Ok g /\
     calculate_gci [[f_one]] [[f_half]] ≠ Ok g) /\
  (idx_requires <$> INDEX_TABLE !! 7%nat) = Some ["B3"; "B7"]%string.
Proof.
  vm_compute. repeat split; try reflexivity.
  eexists _, _. repeat split; try reflexivity. discriminate.
Qed.

(** ** C3 *)

(** A band whose file exists and cannot be read stays in the band set,
    bound to [None]. *)
Lemma failed_load_binds_none (E : env) (path : string) (w : world) (k f : string) :
  (k, f) ∈ band_files ->
  file_at E (path_join path f) = Unreadable ->
  bands (fst (load_phase E (scene_begin E path w))) !! k = Some None.
Proof.
  intros Hin Hf. rewrite load_phase_run_loads, (loaded_band E path w k f Hin), Hf.
  reflexivity.
Qed.

(** C3 (the code at the failing input): B4.tif exists and cannot be
    read.  After the load phase the band set binds "B4" to [None]; the
    guard of NDVI therefore holds, its formula raises [TypeError], and
    the scene ends without any entry, NDBI (B5, B6) and NBR (B5, B7)
    included, whose bands were loaded. *)
Theorem failed_load_leaves_placeholder :
  let lw := load_phase env_b4_unreadable
              (scene_begin env_b4_unreadable "in/s" empty_world) in
  let out := process_scene env_b4_unreadable args_all ALL_INDICES "in/s"
               empty_world in
  bands (fst lw) !! "B4" = Some None /\
  idx_name <$> head INDEX_TABLE = Some "NDVI"%string /\
  guard ALL_INDICES (bands (fst lw)) <$> head INDEX_TABLE = Some true /\
  (fun s => idx_compute s (bands (fst lw))) <$> head INDEX_TABLE
    = Some (Raise TypeError) /\
  entries (fst out) = ∅ /\
  rasters (snd out) = ∅ /\
  LogUnexpected "s" TypeError ∈ log (snd out).
Proof.
  vm_compute. repeat split; try reflexivity.
  repeat first [apply list_elem_of_here | apply list_elem_of_further].
Qed.

Section TryBlockFacts.
Variable E : env.
Variable A : args.
Variable sel : list string.

(** The raster of an index whose save returned [True]: the grid of its
    formula, with the updated profile of the moment, and no later
    statement of the block touches it. *)
Lemma run_indices_raster_value (pre post : list index_spec) (s : index_spec)
    (l : locals) (w : world) (arr : grid) :
  NoDup (map idx_name (pre ++ s :: post)) ->
  pending (fst (run_indices E A sel pre (l, w))) = None ->
  guard sel (bands l) s = true ->
  idx_compute s (bands l) = Ok arr ->
  fst (fst (save_index E arr (idx_name s)
              (profile (fst (run_indices E A sel pre (l, w))))
              (output_dir A (fst (run_indices E A sel pre (l, w))))
              (snd (run_indices E A sel pre (l, w))))) = true ->
  exists p1, profile (fst (run_indices E A sel pre (l, w))) = Some p1 /\
    rasters (snd (run_indices E A sel (pre ++ s :: post) (l, w)))
      !! out_path A l (idx_name s) = Some (arr, profile_update p1).
Proof.
  intros Hnd Hp Hg Hc Hsave.
  destruct (NoDup_app_cons_names pre post s Hnd) as [_ Hpost].
  rewrite run_indices_app, run_indices_cons.
  pose proof (run_indices_frame E A sel pre l w) as Hf.
  destruct (run_indices E A sel pre (l, w)) as [l1 w1]. cbn [fst snd] in *.
  assert (Hb : bands l1 = bands l) by apply Hf.
  rewrite <- Hb in Hg, Hc.
  destruct (save_index_true E arr (idx_name s) (profile l1)
              (output_dir A l1) w1 Hsave) as (p1 & Hp1 & Hr).
  exists p1. split; [exact Hp1|].
  pose proof (index_step_frame E A sel s l1 w1) as Hf1.
  destruct (index_step_outcome E A sel s l1 w1)
    as [e Hp'|Hp' Hg'|e Hp' Hg' Hc'|arr' Hp' Hg' Hc']; try congruence.
  assert (arr' = arr) as -> by congruence.
  revert Hf1.
  destruct (save_index E arr (idx_name s) (profile l1) (output_dir A l1) w1)
    as [[ok p] w'] eqn:Hs; cbv beta iota.
  intros Hf1. cbn [fst snd] in *.
  rewrite run_indices_rasters_other.
  - rewrite Hr. rewrite <- (out_path_frame A l l1 _ Hf). apply lookup_insert_eq.
  - apply Forall_forall. intros s' Hs'. left.
    match goal with |- _ <> out_path A ?l2 _ => 
      rewrite (out_path_frame A l1 l2 _ Hf1), (out_path_frame A l l1 _ Hf) end.
    unfold out_path. intros Heq. apply raster_path_inj in Heq.
    apply Hpost. rewrite Heq. apply list_elem_of_fmap. exists s'.
    split; [reflexivity|exact Hs'].
Qed.

(** With no profile, no save succeeds. *)
Lemma run_indices_no_profile (ss : list index_spec) (l : locals) (w : world) :
  profile l = None ->
  (forall name, entries (results l) !! name <> Some true) ->
  forall name,
    entries (results (fst (run_indices E A sel ss (l, w)))) !! name <> Some true.
Proof.
  revert l w. induction ss as [|s ss IH]; intros l w Hp He; [exact He|].
  rewrite run_indices_cons.
  destruct (index_step_outcome E A sel s l w)
    as [e Hp'|Hp' Hg|e Hp' Hg Hc|arr Hp' Hg Hc]; try (apply IH; assumption).
  pose proof (save_index_true E arr (idx_name s) (profile l)
                (output_dir A l) w) as Ht.
  pose proof (save_index_profile_from E arr (idx_name s) None (profile l)
                (output_dir A l) w (or_introl Hp)) as Hpf.
  destruct (save_index _ _ _ _ _ _) as [[ok p] w']; cbv beta iota.
  cbn [fst snd] in *. apply IH; cbn.
  - destruct Hpf as [Hpf|Hpf]; exact Hpf.
  - intros name. destruct (decide (name = idx_name s)) as [->|Hne].
    + rewrite lookup_insert_eq. intros [= ->].
      destruct (Ht eq_refl) as (p1 & Hp1 & _). congruence.
    + rewrite lookup_insert_ne by congruence. apply He.
Qed.

(** The profile variable after the loads: that of the last file that
    exists. *)
Lemma run_loads_all_missing (kfs : list (string * string)) l w :
  Forall (fun kf => file_at E (path_join (scene_path l) (snd kf)) = Missing) kfs ->
  profile (fst (run_loads E kfs (l, w))) = profile l.
Proof.
  revert l w. induction kfs as [|[k f] kfs IH]; intros l w Hall; [reflexivity|].
  apply Forall_cons in Hall as [Hf Hall]. cbn [snd] in Hf.
  change (run_loads E ((k, f) :: kfs) (l, w))
    with (run_loads E kfs (load_step E (k, f) (l, w))).
  pose proof (load_step_effect E k f l w) as He.
  pose proof (load_step_frame E (k, f) l w) as Hfr.
  destruct (load_step E (k, f) (l, w)) as [l1 w1]. cbn [fst snd] in *.
  cbv zeta in He, Hfr. rewrite Hf in He. destruct He as [_ <-].
  destruct Hfr as (Hsp & _). apply IH. rewrite Hsp. exact Hall.
Qed.

Lemma run_loads_last_present (pre post : list (string * string))
    (k f : string) l w :
  file_at E (path_join (scene_path l) f) <> Missing ->
  Forall (fun kf => file_at E (path_join (scene_path l) (snd kf)) = Missing) post ->
  profile (fst (run_loads E (pre ++ (k, f) :: post) (l, w))) =
  match file_at E (path_join (scene_path l) f) with
  | Readable _ p => Some p
  | _ => None
  end.
Proof.
  intros Hf Hpost. unfold run_loads. rewrite fold_left_app.
  fold (run_loads E pre (l, w)).
  pose proof (run_loads_frame E pre l w) as Hfr.
  destruct (run_loads E pre (l, w)) as [l1 w1]. cbn [fst snd] in *.
  cbv zeta in Hfr. destruct Hfr as (Hsp & _).
  change (fold_left _ ((k, f) :: post) (l1, w1))
    with (run_loads E post (load_step E (k, f) (l1, w1))).
  pose proof (load_step_effect E k f l1 w1) as He.
  pose proof (load_step_frame E (k, f) l1 w1) as Hfr1.
  destruct (load_step E (k, f) (l1, w1)) as [l2 w2]. cbn [fst snd] in *.
  cbv zeta in He, Hfr1. destruct Hfr1 as (Hsp1 & _).
  rewrite run_loads_all_missing by (rewrite Hsp1, Hsp; exact Hpost).
  rewrite Hsp in He.
  destruct (file_at E (path_join (scene_path l) f)); try congruence;
    apply He.
Qed.

End TryBlockFacts.

(** ** C5 *)

(** C5, as stated, fails: in this scene B2 is missing and B4, B5 and B7
    are loaded; every index is selected.  The bands of NDVI, SAVI and
    NBR are in the band set, yet none of them has an entry and no raster
    is written: B4 and B5 differ in shape, the formula of NDVI raises
    [ValueError], and the handler of the scene ends the block before
    SAVI and NBR are reached.  The formula of NBR would have returned. *)
Lemma feasible_indices_not_attempted :
  let lw := load_phase env_mixed_shapes
              (scene_begin env_mixed_shapes "in/s" empty_world) in
  let out := process_scene env_mixed_shapes args_all ALL_INDICES "in/s"
               empty_world in
  bands (fst lw) !! "B2" = None /\
  issubset ["B4"; "B5"] (bands (fst lw)) = true /\
  issubset ["B5"; "B7"] (bands (fst lw)) = true /\
  entries (fst out) !! "NDVI" = None /\
  entries (fst out) !! "SAVI" = None /\
  entries (fst out) !! "NBR" = None /\
  rasters (snd out) = ∅ /\
  is_ok (calculate_nbr [[f_one]; [f_one]; [f_one]]
                       [[f_half]; [f_half]; [f_half]]) = true /\
  log (snd out) =
    [LogProcessing "s"; LogMissing "B2.tif" "s"; LogMissing "B3.tif" "s";
     LogMissing "B6.tif" "s"; LogUnexpected "s" ValueError;
     LogFinished "s" 1].
Proof. vm_compute. repeat split; reflexivity. Qed.

(** For every index but ARVI and GCI the guard of the code tests the
    bands that the specification requires for the index. *)
Lemma guard_tests_required_bands (sel : list string)
    (bs : gmap string (option grid)) (s : index_spec) :
  s ∈ INDEX_TABLE ->
  idx_name s <> "ARVI"%string -> idx_name s <> "GCI"%string ->
  guard sel bs s = true <->
  idx_name s ∈ sel /\
  issubset (SpecTable.required_bands (idx_name s)) bs = true.
Proof.
  intros Hin Harvi Hgci. unfold INDEX_TABLE in Hin.
  repeat (apply elem_of_cons in Hin as [->|Hin]);
    [..|apply elem_of_nil in Hin as []];
    cbn [idx_name] in Harvi, Hgci; try congruence;
    unfold guard, issubset; cbn [idx_name idx_requires];
    match goal with
    | |- context [SpecTable.required_bands ?n] =>
        let r := eval vm_compute in (SpecTable.required_bands n) in
        change (SpecTable.required_bands n) with r
    end;
    cbn [forallb]; rewrite !andb_true_iff, !bool_decide_eq_true; tauto.
Qed.

(** For ARVI the guard of the code tests B3 where the specification
    requires BLUE = B2 (the band that the code passes to EVI as blue):
    in a scene with B3, B4 and B5 and without B2 the bands required for
    ARVI are not all there, yet ARVI is computed, from B3 as blue, and
    saved.  For GCI see [gci_reads_B7_for_nir]. *)
Lemma arvi_tests_B3_for_blue :
  let lw := load_phase env_b3_b4_b5
              (scene_begin env_b3_b4_b5 "in/s" empty_world) in
  let out := process_scene env_b3_b4_b5 args_all ALL_INDICES "in/s"
               empty_world in
  bands (fst lw) !! "B2" = None /\
  issubset (SpecTable.required_bands "ARVI") (bands (fst lw)) = false /\
  entries (fst out) !! "ARVI" = Some true /\
  entries (fst out) !! "EVI" = None /\
  (exists g, calculate_arvi [[f_one]] [[f_half]] [[f_half]] = Ok g /\
     fst <$> rasters (snd out) !! "out/s/ARVI.tif" = Some g).
Proof.
  vm_compute. repeat split; try reflexivity.
  eexists. split; reflexivity.
Qed.

(** C5 (amended): for every scene whose file B2.tif is missing, "B2" is
    not in the band set, the result has no EVI entry and no EVI raster
    is written.  For every index but ARVI and GCI, the result has an
    entry for the index -- its grid was computed and handed to
    [save_index] -- iff the index is selected, every band name that the
    specification requires for it is a key of the band set, and no
    formula up to and including its own raised.  In particular NDVI and
    SAVI have their entries whenever they are selected and B4 and B5
    were loaded with one shape. *)
Theorem index_entry_iff_required_bands_and_no_raise
    (E : env) (A : args) (sel : list string) (path : string) (w : world) :
  let bs := bands (fst (load_phase E (scene_begin E path w))) in
  let out := process_scene E A sel path w in
  let evi_tif :=
    path_join (path_join (OUTPUT_ROOT A) (basename path)) "EVI.tif" in
  (file_at E (path_join path "B2.tif") = Missing ->
     bs !! "B2" = None /\ entries (fst out) !! "EVI" = None /\
     rasters (snd out) !! evi_tif = rasters w !! evi_tif) /\
  (forall pre s post, INDEX_TABLE = pre ++ s :: post ->
     idx_name s <> "ARVI"%string -> idx_name s <> "GCI"%string ->
     (is_Some (entries (fst out) !! idx_name s) <->
      idx_name s ∈ sel /\
      issubset (SpecTable.required_bands (idx_name s)) bs = true /\
      Forall (fun s' => raises_at sel bs s' = false) (pre ++ [s]))) /\
  (forall b4 b5, bs !! "B4" = Some (Some b4) -> bs !! "B5" = Some (Some b5) ->
     shape_eq b5 b4 ->
     ("NDVI" ∈ sel -> is_Some (entries (fst out) !! "NDVI")) /\
     ("SAVI" ∈ sel -> is_Some (entries (fst out) !! "SAVI"))).
Proof.
  intros bs out evi_tif. subst bs out.
  change (load_phase E (scene_begin E path w))
    with (run_loads E band_files (scene_begin E path w)).
  set (bs := bands (fst (run_loads E band_files (scene_begin E path w)))).
  split; [|split].
  - intros Hmiss.
    assert (Hb2 : bs !! "B2" = None).
    { unfold bs. rewrite (loaded_band E path w "B2" "B2.tif"), Hmiss;
        [reflexivity|apply list_elem_of_here]. }
    assert (Hguard : guard sel bs
                       {| idx_name := "EVI"; idx_requires := ["B2"; "B4"; "B5"];
                          idx_compute := fun bs =>
                            b5 ← band bs "B5"; b4 ← band bs "B4";
                            b2 ← band bs "B2";
                            calculate_evi b5 b4 b2 EVI_G EVI_C1 EVI_C2 EVI_L |}
                     = false).
    { unfold guard. cbn [idx_requires].
      rewrite (issubset_absent _ bs "B2" (list_elem_of_here _ _) Hb2).
      reflexivity. }
    split; [exact Hb2|]. split.
    + destruct (entries (fst (process_scene E A sel path w)) !! "EVI")
        as [v|] eqn:He; [|reflexivity].
      assert (Hs : is_Some (entries (fst (process_scene E A sel path w)) !! "EVI"))
        by (rewrite He; eauto).
      apply (process_scene_entry_iff E A sel path w
               (firstn 2 INDEX_TABLE) (skipn 3 INDEX_TABLE)
               {| idx_name := "EVI" |} eq_refl) in Hs.
      destruct Hs as [Hg _]. fold bs in Hg. congruence.
    + rewrite process_scene_unfold.
      pose proof (loaded_state E path w) as Hl. unfold bs in Hguard.
      destruct (run_loads E band_files (scene_begin E path w)) as [l w1].
      cbn [fst snd] in *. cbv zeta in Hl.
      destruct Hl as (_ & Hname & _ & _ & _ & Hr).
      rewrite (surjective_pairing (run_indices E A sel INDEX_TABLE (l, w1))).
      destruct (scene_finish_fields E
                  (fst (run_indices E A sel INDEX_TABLE (l, w1)))
                  (snd (run_indices E A sel INDEX_TABLE (l, w1))))
        as (_ & _ & ->).
      rewrite <- Hr. apply run_indices_rasters_other.
      assert (Hpath : forall name, name <> "EVI"%string ->
                evi_tif <> out_path A l name).
      { intros name Hne Heq. unfold evi_tif, out_path, output_dir in Heq.
        rewrite Hname in Heq.
        apply (raster_path_inj _ "EVI" name) in Heq. congruence. }
      unfold INDEX_TABLE.
      repeat (apply Forall_cons; split;
              [first [left; apply Hpath; discriminate | right; exact Hguard]|]).
      apply Forall_nil_2.
  - intros pre s post Ht Harvi Hgci.
    assert (Hin : s ∈ INDEX_TABLE)
      by (rewrite Ht; apply elem_of_app; right; apply list_elem_of_here).
    pose proof (process_scene_entry_iff E A sel path w pre post s Ht) as H.
    cbv zeta in H. fold bs in H.
    pose proof (guard_tests_required_bands sel bs s Hin Harvi Hgci) as Hg.
    split.
    + intros Hs. apply H in Hs as [Hg1 Hall].
      apply Hg in Hg1 as [Hsel Hsub]. auto.
    + intros (Hsel & Hsub & Hall). apply H.
      split; [apply Hg; auto|exact Hall].
  - intros b4 b5 H4 H5 Hsh.
    assert (Hsub : issubset ["B4"; "B5"]%string bs = true).
    { apply issubset_true.
      repeat (apply Forall_cons; split; [rewrite ?H4, ?H5; eauto|]).
      apply Forall_nil_2. }
    assert (Hndvi : raises_at sel bs
                      {| idx_name := "NDVI"; idx_requires := ["B4"; "B5"];
                         idx_compute := fun bs =>
                           b5 ← band bs "B5"; b4 ← band bs "B4";
                           calculate_ndvi b5 b4 |} = false).
    { unfold raises_at. cbn [idx_compute]. unfold band. rewrite H5, H4.
      destruct (calculate_ndvi_clean b5 b4 Hsh) as (g & Hg & _).
      unfold mbind, res_bind. rewrite Hg. apply andb_false_r. }
    assert (Hsavi : raises_at sel bs
                      {| idx_name := "SAVI"; idx_requires := ["B4"; "B5"];
                         idx_compute := fun bs =>
                           b5 ← band bs "B5"; b4 ← band bs "B4";
                           calculate_savi b5 b4 SAVI_L |} = false).
    { unfold raises_at. cbn [idx_compute]. unfold band. rewrite H5, H4.
      destruct (calculate_savi_clean b5 b4 Hsh) as (g & Hg & _).
      unfold mbind, res_bind. rewrite Hg. apply andb_false_r. }
    split; intros Hsel.
    + apply (process_scene_entry_iff E A sel path w
               [] (skipn 1 INDEX_TABLE) {| idx_name := "NDVI" |} eq_refl).
      fold bs. split.
      * unfold guard. cbn [idx_requires idx_name].
        rewrite Hsub. apply bool_decide_eq_true, Hsel.
      * apply Forall_cons. split; [exact Hndvi|apply Forall_nil_2].
    + apply (process_scene_entry_iff E A sel path w
               (firstn 1 INDEX_TABLE) (skipn 2 INDEX_TABLE)
               {| idx_name := "SAVI" |} eq_refl).
      fold bs. split.
      * unfold guard. cbn [idx_requires idx_name].
        rewrite Hsub. apply bool_decide_eq_true, Hsel.
      * apply Forall_cons. split; [exact Hndvi|].
        apply Forall_cons. split; [exact Hsavi|apply Forall_nil_2].
Qed.

Lemma index_entry_iff_required_bands_and_no_raise_witness :
  entries (fst (process_scene env_b4_b5_b7 args_all ALL_INDICES "in/s"
                  empty_world)) !! "EVI" = None /\
  is_Some (entries (fst (process_scene env_b4_b5_b7 args_all ALL_INDICES "in/s"
                           empty_world)) !! "NDVI") /\
  is_Some (entries (fst (process_scene env_b4_b5_b7 args_all ALL_INDICES "in/s"
                           empty_world)) !! "NBR").
Proof.
  pose proof (index_entry_iff_required_bands_and_no_raise
                env_b4_b5_b7 args_all ALL_INDICES "in/s" empty_world)
    as (H1 & H2 & H3).
  split; [|split].
  - apply H1. reflexivity.
  - destruct (H3 [[f_half]] [[f_one]]) as [Hndvi _].
    + vm_compute. reflexivity.
    + vm_compute. reflexivity.
    + reflexivity.
    + apply Hndvi, list_elem_of_here.
  - apply (H2 (firstn 4 INDEX_TABLE)
              (List.nth 4 INDEX_TABLE
                 {| idx_name := ""; idx_requires := [];
                    idx_compute := fun _ => Raise KeyError |})
              (skipn 5 INDEX_TABLE) eq_refl).
    + discriminate.
    + discriminate.
    + split; [do 4 apply list_elem_of_further; apply list_elem_of_here|].
      split; [vm_compute; reflexivity|].
      unfold INDEX_TABLE. cbn [firstn List.nth app].
      repeat (apply Forall_cons; split; [vm_compute; reflexivity|]).
      apply Forall_nil_2.
Defined.

(** ** C6 *)

(** C6: let the statement of the index [s] be reached with no exception
    pending, its guard true and its formula returning [arr] -- the index
    is attempted -- and let persisting [arr] raise [e] inside
    [save_index].  Then the exception does not leave [save_index]: no
    exception is pending after the statement, the result of the scene
    records [False] for [s], and every later index of the block is
    processed as if nothing had happened: it has its entry iff it is
    selected, its bands are keys of the band set and no formula from
    [s] on, up to its own, raised. *)
Theorem persist_failure_recorded_scene_continues
    (E : env) (A : args) (sel : list string) (path : string) (w : world)
    (pre post : list index_spec) (s : index_spec) (arr : grid) (e : exn) :
  let lw0 := load_phase E (scene_begin E path w) in
  let lw1 := run_indices E A sel pre lw0 in
  let out := process_scene E A sel path w in
  INDEX_TABLE = pre ++ s :: post ->
  pending (fst lw1) = None ->
  guard sel (bands (fst lw1)) s = true ->
  idx_compute s (bands (fst lw1)) = Ok arr ->
  fst (fst (persist E arr (idx_name s) (profile (fst lw1))
              (output_dir A (fst lw1)) (snd lw1))) = Raise e ->
  entries (fst out) !! idx_name s = Some false /\
  pending (fst (index_step E A sel s lw1)) = None /\
  (forall pre' s' post', post = pre' ++ s' :: post' ->
     (is_Some (entries (fst out) !! idx_name s') <->
      guard sel (bands (fst lw0)) s' = true /\
      Forall (fun s'' => raises_at sel (bands (fst lw0)) s'' = false)
             (pre' ++ [s']))).
Proof.
  intros lw0 lw1 out Ht Hp Hg Hc Hraise. subst lw0 lw1 out.
  change (load_phase E (scene_begin E path w))
    with (run_loads E band_files (scene_begin E path w)) in *.
  pose proof (loaded_state E path w) as Hl.
  rewrite process_scene_unfold.
  destruct (run_loads E band_files (scene_begin E path w)) as [l w0].
  cbn [fst snd] in *. cbv zeta in Hl.
  destruct Hl as (_ & _ & Hp0 & He0 & _).
  pose proof (run_indices_bands E A sel pre l w0) as Hb.
  assert (Hnd : NoDup (map idx_name (pre ++ s :: post)))
    by (rewrite <- Ht; apply index_table_names_nodup).
  assert (Hsave : fst (fst (save_index E arr (idx_name s)
                    (profile (fst (run_indices E A sel pre (l, w0))))
                    (output_dir A (fst (run_indices E A sel pre (l, w0))))
                    (snd (run_indices E A sel pre (l, w0))))) = false)
    by (apply save_index_false_iff; eauto).
  assert (Hfin : forall name,
            entries (fst (scene_finish E
                            (run_indices E A sel INDEX_TABLE (l, w0)))) !! name
            = entries (results (fst (run_indices E A sel INDEX_TABLE (l, w0))))
                !! name).
  { intros name.
    rewrite (surjective_pairing (run_indices E A sel INDEX_TABLE (l, w0))).
    destruct (scene_finish_fields E
                (fst (run_indices E A sel INDEX_TABLE (l, w0)))
                (snd (run_indices E A sel INDEX_TABLE (l, w0)))) as (-> & _).
    reflexivity. }
  split; [|split].
  - rewrite Hfin, Ht.
    rewrite (run_indices_entry_value E A sel pre post s l w0 arr Hnd Hp);
      [rewrite Hsave; reflexivity|congruence|congruence].
  - destruct (run_indices E A sel pre (l, w0)) as [l1 w1]. cbn [fst snd] in *.
    destruct (index_step_outcome E A sel s l1 w1)
      as [e' Hp'|Hp' Hg'|e' Hp' Hg' Hc'|arr' Hp' Hg' Hc']; try congruence.
    destruct (save_index E arr' _ _ _ _) as [[ok p] w']; reflexivity.
  - intros pre' s' post' Hpost. rewrite Hfin.
    assert (Ht' : INDEX_TABLE = (pre ++ s :: pre') ++ s' :: post')
      by (rewrite Ht, Hpost, <- app_assoc; reflexivity).
    assert (Hnd' : NoDup (map idx_name ((pre ++ s :: pre') ++ s' :: post')))
      by (rewrite <- Ht'; apply index_table_names_nodup).
    rewrite Ht'.
    rewrite (run_indices_entry_iff E A sel (pre ++ s :: pre') post' s' l w0
               Hnd' Hp0) by (rewrite He0; apply lookup_empty).
    assert (Hpre : Forall (fun s'' => raises_at sel (bands l) s'' = false)
                     (pre ++ [s])).
    { apply Forall_app. split.
      - apply (run_indices_pending_none E A sel pre l w0), Hp.
      - apply Forall_singleton. unfold raises_at.
        rewrite <- Hb, Hc. apply andb_false_r. }
    replace ((pre ++ s :: pre') ++ [s']) with ((pre ++ [s]) ++ (pre' ++ [s']))
      by (rewrite <- !app_assoc; reflexivity).
    rewrite Forall_app. intuition.
Qed.

Lemma persist_failure_recorded_scene_continues_witness :
  let out := process_scene env_ndvi_unwritable args_all ALL_INDICES "in/s"
               empty_world in
  entries (fst out) !! "NDVI" = Some false /\
  is_Some (entries (fst out) !! "SAVI").
Proof.
  pose proof (persist_failure_recorded_scene_continues
                env_ndvi_unwritable args_all ALL_INDICES "in/s" empty_world
                [] (skipn 1 INDEX_TABLE) {| idx_name := "NDVI" |}
                [[S754_finite false 11184811 (-25)]] OSError
                eq_refl eq_refl eq_refl eq_refl eq_refl) as (H1 & _ & H3).
  split; [exact H1|].
  apply (H3 [] {| idx_name := "SAVI" |} (skipn 2 INDEX_TABLE) eq_refl).
  split; [vm_compute; reflexivity|].
  apply Forall_cons; split; [vm_compute; reflexivity|apply Forall_nil_2].
Defined.

(** ** C9 *)

(** C9: one profile variable is set by every load of a band file that
    exists, in the order B2, ..., B7.  When the [try] block is entered it
    holds the profile returned for the last file that exists in that
    order ([None] if that load failed).  Every index persisted for the
    scene is written with that profile (updated to one float32 band),
    and with no profile nothing is persisted.  The profile need not be
    that of a band the index uses: in the example scene B7 exists, and
    the NDVI raster, computed from B5 and B4, carries the profile of
    B7, which differs from theirs. *)
Theorem persisted_with_profile_of_last_band_file
    (E : env) (A : args) (sel : list string) (path : string) (w : world) :
  let lw := load_phase E (scene_begin E path w) in
  let out := process_scene E A sel path w in
  (forall pre k f post, band_files = pre ++ (k, f) :: post ->
     file_at E (path_join path f) <> Missing ->
     Forall (fun kf => file_at E (path_join path (snd kf)) = Missing) post ->
     profile (fst lw) =
     match file_at E (path_join path f) with
     | Readable _ p => Some p
     | _ => None
     end) /\
  (forall s, s ∈ INDEX_TABLE ->
     entries (fst out) !! idx_name s = Some true ->
     exists arr p,
       profile (fst lw) = Some p /\
       idx_compute s (bands (fst lw)) = Ok arr /\
       rasters (snd out)
         !! path_join (path_join (OUTPUT_ROOT A) (basename path))
                      (idx_name s ++ ".tif")
       = Some (arr, profile_update p)) /\
  (profile (fst lw) = None ->
   forall name, entries (fst out) !! name <> Some true) /\
  (let out' := process_scene env_b4_b5_b7 args_all ALL_INDICES "in/s"
                 empty_world in
   file_at env_b4_b5_b7 "in/s/B4.tif" = Readable [[f_half]] prof_a /\
   file_at env_b4_b5_b7 "in/s/B5.tif" = Readable [[f_one]] prof_a /\
   file_at env_b4_b5_b7 "in/s/B7.tif" = Readable [[f_half]] prof_b /\
   (exists g, calculate_ndvi [[f_one]] [[f_half]] = Ok g /\
      rasters (snd out') !! "out/s/NDVI.tif" = Some (g, profile_update prof_b)) /\
   profile_update prof_b <> profile_update prof_a).
Proof.
  intros lw out. subst lw out.
  change (load_phase E (scene_begin E path w))
    with (run_loads E band_files (scene_begin E path w)).
  pose proof (loaded_state E path w) as Hl.
  assert (Hbegin : scene_path (fst (scene_begin E path w)) = path /\
                   profile (fst (scene_begin E path w)) = None)
    by (split; reflexivity).
  split; [|split; [|split]].
  - intros pre k f post Hbf Hf Hpost. rewrite Hbf.
    destruct Hbegin as [Hsp _].
    destruct (scene_begin E path w) as [l0 w0]. cbn [fst] in Hsp. subst path.
    apply run_loads_last_present; assumption.
  - intros s Hin Htrue.
    apply list_elem_of_split in Hin as (pre & post & Ht).
    assert (Hnd : NoDup (map idx_name (pre ++ s :: post)))
      by (rewrite <- Ht; apply index_table_names_nodup).
    assert (Hsome : is_Some (entries (fst (process_scene E A sel path w))
                               !! idx_name s)) by (rewrite Htrue; eauto).
    apply (process_scene_entry_iff E A sel path w pre post s Ht) in Hsome.
    cbv zeta in Hsome. destruct Hsome as [Hg Hall].
    rewrite process_scene_unfold in Htrue |- *.
    destruct (run_loads E band_files (scene_begin E path w)) as [l w0].
    cbn [fst snd] in *. cbv zeta in Hl.
    destruct Hl as (_ & Hname & Hp0 & He0 & _).
    apply Forall_app in Hall as [Hpre Hs]. rewrite Forall_singleton in Hs.
    assert (Hp1 : pending (fst (run_indices E A sel pre (l, w0))) = None)
      by (apply run_indices_pending_none; auto).
    unfold raises_at in Hs. rewrite Hg in Hs.
    destruct (idx_compute s (bands l)) as [arr|e] eqn:Hc; [|discriminate].
    rewrite (surjective_pairing (run_indices E A sel INDEX_TABLE (l, w0)))
      in Htrue |- *.
    destruct (scene_finish_fields E
                (fst (run_indices E A sel INDEX_TABLE (l, w0)))
                (snd (run_indices E A sel INDEX_TABLE (l, w0))))
      as (He & _ & Hr).
    rewrite He in Htrue. rewrite Hr. clear He Hr.
    rewrite Ht in Htrue |- *.
    rewrite (run_indices_entry_value E A sel pre post s l w0 arr Hnd Hp1 Hg Hc)
      in Htrue.
    injection Htrue as Hsave.
    destruct (run_indices_raster_value E A sel pre post s l w0 arr
                Hnd Hp1 Hg Hc Hsave) as (p1 & Hcur & Hras).
    pose proof (run_indices_profile_from E A sel pre l w0 (profile l)
                  (or_introl eq_refl)) as Hpf.
    rewrite Hcur in Hpf.
    assert (Hp : exists p, profile l = Some p /\
                           profile_update p1 = profile_update p).
    { destruct Hpf as [Hpf|Hpf].
      - exists p1. split; [congruence|reflexivity].
      - destruct (profile l) as [p|]; [|discriminate].
        injection Hpf as ->. exists p. split; reflexivity. }
    destruct Hp as (p & Hp & Hup).
    exists arr, p. split; [exact Hp|]. split; [reflexivity|].
    rewrite <- Hup, <- Hname. exact Hras.
  - intros Hnone name. rewrite process_scene_unfold.
    destruct (run_loads E band_files (scene_begin E path w)) as [l w0].
    cbn [fst snd] in *. cbv zeta in Hl.
    destruct Hl as (_ & _ & _ & He0 & _).
    rewrite (surjective_pairing (run_indices E A sel INDEX_TABLE (l, w0))).
    destruct (scene_finish_fields E
                (fst (run_indices E A sel INDEX_TABLE (l, w0)))
                (snd (run_indices E A sel INDEX_TABLE (l, w0)))) as (-> & _).
    apply run_indices_no_profile; [exact Hnone|].
    intros name'. rewrite He0, lookup_empty. discriminate.
  - vm_compute. repeat split; try reflexivity; try discriminate.
    eexists. split; reflexivity.
Qed.

Lemma persisted_with_profile_of_last_band_file_witness :
  let lw := load_phase env_b4_b5_b7 (scene_begin env_b4_b5_b7 "in/s" empty_world) in
  let out := process_scene env_b4_b5_b7 args_all ALL_INDICES "in/s" empty_world in
  profile (fst lw) = Some prof_b /\
  exists arr,
    rasters (snd out) !! "out/s/NBR.tif" = Some (arr, profile_update prof_b).
Proof.
  pose proof (persisted_with_profile_of_last_band_file
                env_b4_b5_b7 args_all ALL_INDICES "in/s" empty_world)
    as (H1 & H2 & _).
  cbv zeta. split.
  - apply (H1 (firstn 5 band_files) "B7" "B7.tif" [] eq_refl)%string.
    + discriminate.
    + apply Forall_nil_2.
  - destruct (H2 (List.nth 4 INDEX_TABLE
                      {| idx_name := ""; idx_requires := [];
                         idx_compute := fun _ => Raise KeyError |}))
      as (arr & p & Hp & _ & Hr).
    + unfold INDEX_TABLE. cbn [List.nth]. do 4 apply list_elem_of_further.
      apply list_elem_of_here.
    + vm_compute. reflexivity.
    + exists arr. vm_compute in Hp. injection Hp as <-. exact Hr.
Defined.

(* ===================================================================== *)
(** * The batch run                                                       *)
(* ===================================================================== *)

#[local] Arguments scene_begin : simpl never.
#[local] Arguments scene_finish : simpl never.
#[local] Arguments task_step : simpl never.

Section TaskFacts.
Variable E : env.
Variable A : args.
Variable sel : list string.

Lemma retime_eq_fields (l l' : locals) :
  retime 0 l = retime 0 l' ->
  scene_path l = scene_path l' /\ scene_name l = scene_name l' /\
  bands l = bands l' /\ profile l = profile l' /\
  results l = results l' /\ pending l = pending l'.
Proof. destruct l, l'. unfold retime. simpl. intros [= -> -> -> -> -> ->]. auto 10. Qed.

Lemma save_index_world (arr : grid) (name : string)
    (prof : option raster_profile) (dir : string) (w w' : world) :
  fst (save_index E arr name prof dir w) = fst (save_index E arr name prof dir w').
Proof.
  unfold save_index, persist.
  destruct (makedirs_ok E dir); cbn; [|reflexivity].
  destruct prof as [p|]; cbn; [|reflexivity].
  destruct (write_ok E _ _ _); reflexivity.
Qed.

Lemma load_step_sim (kf : string * string) (l l' : locals) (w w' : world) :
  retime 0 l = retime 0 l' ->
  retime 0 (fst (load_step E kf (l, w))) = retime 0 (fst (load_step E kf (l', w'))).
Proof.
  intros H. apply retime_eq_fields in H as (Hsp & Hn & Hb & Hc & Hr & Hp).
  destruct kf as [k f]. unfold load_step, load_band. rewrite <- Hsp.
  destruct (file_at E (path_join (scene_path l) f)); unfold retime; simpl;
    congruence.
Qed.

Lemma index_step_sim (s : index_spec) (l l' : locals) (w w' : world) :
  retime 0 l = retime 0 l' ->
  retime 0 (fst (index_step E A sel s (l, w)))
  = retime 0 (fst (index_step E A sel s (l', w'))).
Proof.
  intros H. apply retime_eq_fields in H as (Hsp & Hn & Hb & Hc & Hr & Hp).
  unfold index_step, output_dir. rewrite <- Hp, <- Hb, <- Hc, <- Hn, <- Hr.
  destruct (pending l) eqn:Hpl; [unfold retime; simpl; congruence|].
  destruct (_ && _); [|unfold retime; simpl; congruence].
  destruct (idx_compute s (bands l)) as [arr|e];
    [|unfold retime; simpl; congruence].
  pose proof (save_index_world arr (idx_name s) (profile l)
                (path_join (OUTPUT_ROOT A) (scene_name l)) w w') as Hs.
  destruct (save_index E arr (idx_name s) (profile l) _ w) as [[ok p] w1].
  destruct (save_index E arr (idx_name s) (profile l) _ w') as [[ok' p'] w1'].
  simpl in Hs. injection Hs as -> ->. unfold retime; simpl. congruence.
Qed.

Lemma scene_begin_sim (path : string) (w w' : world) :
  retime 0 (fst (scene_begin E path w)) = retime 0 (fst (scene_begin E path w')).
Proof. reflexivity. Qed.

Lemma scene_finish_sim (l l' : locals) (w w' : world) :
  retime 0 l = retime 0 l' ->
  untimed (fst (scene_finish E (l, w))) = untimed (fst (scene_finish E (l', w'))).
Proof.
  intros H. apply retime_eq_fields in H as (_ & _ & _ & _ & Hr & _).
  unfold scene_finish, untimed. simpl. rewrite Hr. reflexivity.
Qed.

(** A turn keeps two futures in the same state up to the clock,
    whatever the worlds they run in. *)
Lemma task_step_sim (t t' : task) (w w' : world) :
  task_sim t t' ->
  task_sim (fst (task_step E A sel t w)) (fst (task_step E A sel t' w')).
Proof.
  destruct t as [p|l todo|[r|e]], t' as [p'|l' todo'|[r'|e']];
    simpl; try contradiction.
  - intros <-. unfold task_step.
    pose proof (scene_begin_sim p w w') as H.
    destruct (scene_begin E p w) as [l1 w1], (scene_begin E p w') as [l2 w2].
    simpl in *. auto.
  - intros [Hl <-]. unfold task_step. destruct todo as [|[kf|s] todo].
    + pose proof (scene_finish_sim l l' w w' Hl) as H.
      destruct (scene_finish E (l, w)) as [r1 w1],
               (scene_finish E (l', w')) as [r2 w2]. exact H.
    + pose proof (load_step_sim kf l l' w w' Hl) as H.
      destruct (load_step E kf (l, w)) as [l1 w1],
               (load_step E kf (l', w')) as [l2 w2]. simpl in *. auto.
    + pose proof (index_step_sim s l l' w w' Hl) as H.
      destruct (index_step E A sel s (l, w)) as [l1 w1],
               (index_step E A sel s (l', w')) as [l2 w2]. simpl in *. auto.
  - intros H. exact H.
  - intros H. exact H.
Qed.

Lemma task_sim_refl (t : task) : task_sim t t.
Proof. destruct t as [p|l todo|[r|e]]; simpl; auto. Qed.

Lemma task_sim_trans (t1 t2 t3 : task) :
  task_sim t1 t2 -> task_sim t2 t3 -> task_sim t1 t3.
Proof.
  destruct t1 as [p1|l1 d1|[r1|e1]], t2 as [p2|l2 d2|[r2|e2]],
           t3 as [p3|l3 d3|[r3|e3]]; simpl; try tauto; try congruence.
  intros [-> ->] [-> ->]. auto.
Qed.

Lemma run_task_sim (k : nat) (t t' : task) (w w' : world) :
  task_sim t t' ->
  task_sim (fst (run_task E A sel k t w)) (fst (run_task E A sel k t' w')).
Proof.
  revert t t' w w'. induction k as [|k IH]; intros t t' w w' H; [exact H|].
  simpl. pose proof (task_step_sim t t' w w' H) as H1.
  destruct (task_step E A sel t w) as [t1 w1],
           (task_step E A sel t' w') as [t2 w2]. apply IH, H1.
Qed.

Lemma run_task_S (k : nat) (t : task) (w : world) :
  run_task E A sel (S k) t w =
  run_task E A sel k (fst (task_step E A sel t w)) (snd (task_step E A sel t w)).
Proof. simpl. destruct (task_step E A sel t w). reflexivity. Qed.

Lemma run_task_done (k : nat) (r : res scene_result) (w : world) :
  run_task E A sel k (Done r) w = (Done r, w).
Proof. induction k as [|k IH]; [reflexivity|]. rewrite run_task_S. exact IH. Qed.

Lemma run_task_add (j k : nat) (t : task) (w : world) :
  run_task E A sel (j + k) t w =
  run_task E A sel k (fst (run_task E A sel j t w)) (snd (run_task E A sel j t w)).
Proof.
  revert t w. induction j as [|j IH]; intros t w; [reflexivity|].
  cbn [Nat.add]. rewrite !run_task_S. apply IH.
Qed.

Lemma run_task_running (todo : list action) (l : locals) (w : world) :
  run_task E A sel (S (length todo)) (Running l todo) w =
  (let fin := scene_finish E (fold_left (fun acc a => exec E A sel a acc) todo (l, w)) in
   (Done (Ok (fst fin)), snd fin)).
Proof.
  revert l w. induction todo as [|a todo IH]; intros l w.
  - rewrite run_task_S. unfold task_step. cbn [length fold_left].
    destruct (scene_finish E (l, w)) as [r w1]. reflexivity.
  - cbn [length]. rewrite run_task_S. unfold task_step at 1 2.
    destruct a as [kf|s]; cbn [fold_left exec].
    + destruct (load_step E kf (l, w)) as [l1 w1]. apply IH.
    + destruct (index_step E A sel s (l, w)) as [l1 w1]. apply IH.
Qed.

Lemma fold_scene_actions (lw : locals * world) :
  fold_left (fun acc a => exec E A sel a acc) scene_actions lw =
  run_indices E A sel INDEX_TABLE (run_loads E band_files lw).
Proof. reflexivity. Qed.

(** Left alone for [task_fuel] turns, a submitted call is done, with
    the value of [process_scene]. *)
Lemma run_task_fuel (path : string) (w : world) :
  run_task E A sel task_fuel (Submitted path) w =
  (Done (Ok (fst (process_scene E A sel path w))),
   snd (process_scene E A sel path w)).
Proof.
  unfold task_fuel. rewrite run_task_S. unfold task_step.
  rewrite process_scene_unfold, <- fold_scene_actions.
  destruct (scene_begin E path w) as [l0 w0]. cbn [fst snd].
  apply run_task_running.
Qed.

(** The result of [process_scene], its elapsed time apart, does not
    depend on the world in which the call runs. *)
Lemma process_scene_untimed (path : string) (w w' : world) :
  untimed (fst (process_scene E A sel path w)) =
  untimed (fst (process_scene E A sel path w')).
Proof.
  pose proof (run_task_sim task_fuel (Submitted path) (Submitted path) w w'
                eq_refl) as H.
  rewrite !run_task_fuel in H. exact H.
Qed.

End TaskFacts.

(** ** What the scene tasks do to the shared world *)

Lemma grows_refl (w : world) : grows w w.
Proof.
  split; [reflexivity|]. split; [reflexivity|].
  exists []. rewrite app_nil_r. auto.
Qed.

Lemma grows_trans (w1 w2 w3 : world) : grows w1 w2 -> grows w2 w3 -> grows w1 w3.
Proof.
  intros (Hs1 & Hd1 & e1 & Hl1 & Hf1) (Hs2 & Hd2 & e2 & Hl2 & Hf2).
  split; [congruence|]. split; [set_solver|].
  exists (e1 ++ e2). rewrite Hl2, Hl1, app_assoc. split; [reflexivity|].
  apply Forall_app; auto.
Qed.

Lemma grows_logging (e : log_entry) (w : world) :
  scene_entry e = true -> grows w (logging e w).
Proof.
  intros H. split; [reflexivity|]. split; [reflexivity|].
  exists [e]. split; [reflexivity|]. auto.
Qed.

Lemma grows_time (E : env) (w : world) : grows w (snd (time E w)).
Proof.
  split; [reflexivity|]. split; [reflexivity|].
  exists []. simpl. rewrite app_nil_r. auto.
Qed.

Lemma grows_write_raster (path : string) (g : grid) (p : raster_profile) (w : world) :
  grows w (write_raster path g p w).
Proof.
  split; [reflexivity|]. split; [reflexivity|].
  exists []. simpl. rewrite app_nil_r. auto.
Qed.

Lemma grows_makedirs (path : string) (w : world) : grows w (makedirs path w).
Proof.
  split; [reflexivity|]. split; [cbn; set_solver|].
  exists []. simpl. rewrite app_nil_r. auto.
Qed.

Lemma grows_in (w w' : world) (e : log_entry) :
  grows w w' -> e ∈ log w -> e ∈ log w'.
Proof. intros (_ & _ & ext & -> & _) H. apply elem_of_app. auto. Qed.

Section WorldFacts.
Variable E : env.
Variable A : args.
Variable sel : list string.

Lemma scene_begin_grows (path : string) (w : world) :
  grows w (snd (scene_begin E path w)).
Proof.
  unfold scene_begin. cbn.
  eapply grows_trans; [apply (grows_logging (LogProcessing (basename path)))|];
    [reflexivity|].
  apply (grows_time E).
Qed.

Lemma load_step_grows (kf : string * string) (l : locals) (w : world) :
  grows w (snd (load_step E kf (l, w))).
Proof.
  destruct kf as [k f]. unfold load_step, load_band.
  destruct (file_at E (path_join (scene_path l) f)); cbn.
  - apply grows_logging. reflexivity.
  - eapply grows_trans; apply grows_logging; reflexivity.
  - apply grows_refl.
Qed.

Lemma save_index_grows (arr : grid) (name : string)
    (prof : option raster_profile) (dir : string) (w : world) :
  grows w (snd (save_index E arr name prof dir w)).
Proof.
  unfold save_index, persist.
  destruct (makedirs_ok E dir); cbn; [|apply grows_logging; reflexivity].
  assert (Hm := grows_makedirs dir w).
  destruct prof as [p|]; cbn;
    [|eapply grows_trans; [exact Hm|apply grows_logging; reflexivity]].
  destruct (write_ok E _ _ _); cbn;
    [|eapply grows_trans; [exact Hm|apply grows_logging; reflexivity]].
  eapply grows_trans; [exact Hm|].
  eapply grows_trans; [apply grows_write_raster|].
  apply grows_logging. reflexivity.
Qed.

Lemma index_step_grows (s : index_spec) (l : locals) (w : world) :
  grows w (snd (index_step E A sel s (l, w))).
Proof.
  destruct (index_step_outcome E A sel s l w)
    as [e Hp|Hp Hg|e Hp Hg Hc|arr Hp Hg Hc]; try apply grows_refl.
  - apply grows_logging. reflexivity.
  - pose proof (save_index_grows arr (idx_name s) (profile l)
                  (output_dir A l) w) as H.
    destruct (save_index _ _ _ _ _ _) as [[ok p] w']. exact H.
Qed.

(** The end of a call logs that the scene is finished. *)
Lemma scene_finish_grows (l : locals) (w : world) :
  grows w (snd (scene_finish E (l, w))) /\
  exists elapsed,
    LogFinished (scene_name l) elapsed ∈ log (snd (scene_finish E (l, w))).
Proof.
  unfold scene_finish. cbn. split.
  - eapply grows_trans; [apply (grows_time E)|]. apply grows_logging. reflexivity.
  - eexists. apply elem_of_app. right. apply list_elem_of_here.
Qed.

Lemma task_step_grows (t : task) (w : world) :
  grows w (snd (task_step E A sel t w)).
Proof.
  unfold task_step. destruct t as [p|l [|[kf|s] todo]|r].
  - pose proof (scene_begin_grows p w) as H.
    destruct (scene_begin E p w). exact H.
  - pose proof (scene_finish_grows l w) as [H _].
    destruct (scene_finish E (l, w)). exact H.
  - pose proof (load_step_grows kf l w) as H.
    destruct (load_step E kf (l, w)). exact H.
  - pose proof (index_step_grows s l w) as H.
    destruct (index_step E A sel s (l, w)). exact H.
  - apply grows_refl.
Qed.

Lemma task_ok_grows (path : string) (t : task) (w w' : world) :
  grows w w' -> task_ok path t w -> task_ok path t w'.
Proof.
  intros Hg. destruct t as [p|l todo|[r|e]]; simpl; auto.
  intros [el H]. exists el. eapply grows_in; eauto.
Qed.

Lemma task_step_ok (path : string) (t : task) (w : world) :
  task_ok path t w ->
  task_ok path (fst (task_step E A sel t w)) (snd (task_step E A sel t w)).
Proof.
  unfold task_step. destruct t as [p|l [|[kf|s] todo]|[r|e]];
    cbn [task_ok length].
  - intros ->. destruct (scene_begin E path w) as [l0 w0] eqn:Hb.
    pose proof (scene_begin_fields E path w) as H. rewrite Hb in H.
    cbn [fst snd] in H. cbv zeta in H. cbn [task_ok fst snd].
    split; [apply H|reflexivity].
  - intros [Hn _]. pose proof (scene_finish_grows l w) as [_ H].
    destruct (scene_finish E (l, w)) as [r w1]. cbn [task_ok fst snd] in *.
    rewrite <- Hn. exact H.
  - intros [Hn Hlen]. pose proof (load_step_frame E kf l w) as H.
    destruct (load_step E kf (l, w)) as [l1 w1].
    cbn [task_ok fst snd] in *. cbv zeta in H. split; [|lia].
    destruct H as (_ & -> & _). exact Hn.
  - intros [Hn Hlen]. pose proof (index_step_frame E A sel s l w) as H.
    destruct (index_step E A sel s (l, w)) as [l1 w1].
    cbn [task_ok fst snd] in *. split; [|lia].
    destruct H as (_ & -> & _). exact Hn.
  - auto.
  - auto.
Qed.

Lemma task_ok_remaining (path : string) (t : task) (w : world) :
  task_ok path t w -> (remaining t <= task_fuel)%nat.
Proof.
  unfold task_fuel. destruct t as [p|l todo|r]; simpl; intros H; lia.
Qed.

Lemma task_step_remaining (t : task) (w : world) :
  is_done t = false ->
  S (remaining (fst (task_step E A sel t w))) = remaining t.
Proof.
  unfold task_step. destruct t as [p|l [|[kf|s] todo]|r]; simpl;
    try discriminate; intros _.
  - destruct (scene_begin E p w). reflexivity.
  - destruct (scene_finish E (l, w)). reflexivity.
  - destruct (load_step E kf (l, w)). reflexivity.
  - destruct (index_step E A sel s (l, w)). reflexivity.
Qed.

End WorldFacts.

(** ** The pool *)

Section PoolFacts.
Variable E : env.
Variable A : args.
Variable sel : list string.

Lemma pool_step_idle (st : pool) (i : nat) :
  (futures st !! i = None \/
   exists r f, futures st !! i = Some (Done r, f)) ->
  pool_step E A sel st i = st.
Proof.
  unfold pool_step. intros [->|(r & f & ->)]; reflexivity.
Qed.

(** A turn of the worker of a future that is not done. *)
Lemma pool_step_turn (st : pool) (i : nat) (t : task) (f : string) :
  futures st !! i = Some (t, f) -> is_done t = false ->
  let t' := fst (task_step E A sel t (pool_world st)) in
  futures (pool_step E A sel st i) = <[i := (t', f)]> (futures st) /\
  all_results (pool_step E A sel st i) =
    all_results st ++ match t' with Done (Ok r) => [r] | _ => [] end /\
  grows (snd (task_step E A sel t (pool_world st)))
        (pool_world (pool_step E A sel st i)).
Proof.
  intros Hi Hd. unfold pool_step. rewrite Hi.
  destruct (task_step E A sel t (pool_world st)) as [t' w'] eqn:Hs.
  cbn [fst snd].
  destruct t as [p|l todo|r]; try discriminate;
    destruct t' as [p'|l' todo'|[r'|e']]; cbn;
    rewrite ?app_nil_r; repeat split;
    try apply grows_refl; apply grows_logging; reflexivity.
Qed.

Lemma done_results_insert (fs : list (task * string)) (i : nat)
    (t t' : task) (f : string) :
  fs !! i = Some (t, f) -> is_done t = false ->
  done_results (<[i := (t', f)]> fs) ≡ₚ
  done_results fs ++ match t' with Done (Ok r) => [r] | _ => [] end.
Proof.
  revert i. induction fs as [|x fs IH]; intros [|i] Hi Hd;
    try discriminate.
  - injection Hi as ->. unfold done_results. cbn.
    destruct t as [p|l todo|r]; try discriminate; cbn;
      destruct t' as [p'|l' todo'|[r'|e']]; cbn; rewrite ?app_nil_r;
      try reflexivity; apply Permutation_cons_append.
  - cbn in Hi. specialize (IH i Hi Hd). unfold done_results in *. cbn.
    destruct (match fst x with Done (Ok r) => Some r | _ => None end);
      cbn; [apply Permutation_cons; [reflexivity|]|]; exact IH.
Qed.

Lemma pool_inv_submit (folders : list string) (w : world) :
  pool_inv E A sel folders w (submit_all A folders w).
Proof.
  unfold pool_inv, submit_all. cbn.
  split; [|split; [|split; [|split]]].
  - rewrite map_map. cbn. apply map_id.
  - apply Forall_forall. intros tf Hin.
    apply list_elem_of_fmap in Hin as (folder & -> & _). reflexivity.
  - apply Forall_forall. intros tf Hin.
    apply list_elem_of_fmap in Hin as (folder & -> & _). exists 0%nat.
    reflexivity.
  - induction folders as [|x folders IH]; [reflexivity|exact IH].
  - apply grows_refl.
Qed.

Lemma pool_step_inv (folders : list string) (w0 : world) (st : pool) (i : nat) :
  pool_inv E A sel folders w0 st -> pool_inv E A sel folders w0 (pool_step E A sel st i).
Proof.
  intros (Hsnd & Hok & Hsim & Hperm & Hgr).
  assert (Hinv : pool_inv E A sel folders w0 st)
    by exact (conj Hsnd (conj Hok (conj Hsim (conj Hperm Hgr)))).
  destruct (futures st !! i) as [[t f]|] eqn:Hi;
    [|rewrite pool_step_idle by auto; exact Hinv].
  destruct (is_done t) eqn:Hd.
  { destruct t as [p|l todo|r]; try discriminate.
    rewrite pool_step_idle by eauto. exact Hinv. }
  clear Hinv.
  destruct (pool_step_turn st i t f Hi Hd) as (Hf & Hr & Hg).
  pose proof (task_step_grows E A sel t (pool_world st)) as Hg1.
  assert (Hg2 : grows (pool_world st) (pool_world (pool_step E A sel st i)))
    by (eapply grows_trans; eauto).
  assert (Hok_i := proj1 (Forall_lookup _ _) Hok i (t, f) Hi).
  assert (Hsim_i := proj1 (Forall_lookup _ _) Hsim i (t, f) Hi).
  cbn [fst snd] in Hok_i, Hsim_i.
  unfold pool_inv. rewrite Hf, Hr.
  split; [|split; [|split; [|split]]].
  - rewrite list_fmap_insert. cbn. rewrite <- Hsnd.
    apply list_insert_id. rewrite list_lookup_fmap, Hi. reflexivity.
  - apply Forall_insert.
    + eapply Forall_impl; [exact Hok|]. intros tf. apply task_ok_grows, Hg2.
    + cbn [fst snd]. eapply task_ok_grows; [exact Hg|].
      apply task_step_ok, Hok_i.
  - apply Forall_insert; [exact Hsim|]. cbn [fst snd].
    destruct Hsim_i as [k Hk]. exists (k + 1)%nat.
    rewrite run_task_add, run_task_S. cbn [run_task fst].
    apply task_step_sim, Hk.
  - rewrite done_results_insert by eassumption.
    apply Permutation_app_tail, Hperm.
  - eapply grows_trans; eassumption.
Qed.

Lemma pool_steps_inv (folders : list string) (w0 : world) (steps : list nat)
    (st : pool) :
  pool_inv E A sel folders w0 st ->
  pool_inv E A sel folders w0 (fold_left (pool_step E A sel) steps st).
Proof.
  revert st. induction steps as [|i steps IH]; intros st H; [exact H|].
  cbn. apply IH, pool_step_inv, H.
Qed.

(** A future that is done stays as it is. *)
Lemma pool_step_done_stays (st : pool) (i j : nat) (r : res scene_result)
    (f : string) :
  futures st !! j = Some (Done r, f) ->
  futures (pool_step E A sel st i) !! j = Some (Done r, f).
Proof.
  intros Hj. destruct (futures st !! i) as [[t f']|] eqn:Hi;
    [|rewrite pool_step_idle by auto; exact Hj].
  destruct (is_done t) eqn:Hd.
  { destruct t as [p|l todo|r']; try discriminate.
    rewrite pool_step_idle by eauto. exact Hj. }
  destruct (pool_step_turn st i t f' Hi Hd) as (-> & _).
  rewrite list_lookup_insert_ne; [exact Hj|].
  intros ->. rewrite Hi in Hj. injection Hj as -> _. discriminate.
Qed.

Lemma pool_steps_done_stay (steps : list nat) (st : pool) (j : nat)
    (r : res scene_result) (f : string) :
  futures st !! j = Some (Done r, f) ->
  futures (fold_left (pool_step E A sel) steps st) !! j = Some (Done r, f).
Proof.
  revert st. induction steps as [|i steps IH]; intros st H; [exact H|].
  cbn. apply IH, pool_step_done_stays, H.
Qed.

(** Enough turns complete a future. *)
Lemma pool_repeat_completes (k : nat) (st : pool) (i : nat) (t : task)
    (f : string) :
  futures st !! i = Some (t, f) -> (remaining t <= k)%nat ->
  exists r, futures (fold_left (pool_step E A sel) (repeat i k) st) !! i
            = Some (Done r, f).
Proof.
  revert st t. induction k as [|k IH]; intros st t Hi Hrem.
  - destruct t as [p|l todo|r]; simpl in Hrem; try lia. exists r. exact Hi.
  - cbn [repeat fold_left]. destruct (is_done t) eqn:Hd.
    + destruct t as [p|l todo|r]; try discriminate.
      exists r. apply pool_steps_done_stay, pool_step_done_stays, Hi.
    + destruct (pool_step_turn st i t f Hi Hd) as (Hf & _).
      apply (IH _ (fst (task_step E A sel t (pool_world st)))).
      * rewrite Hf. apply list_lookup_insert_eq.
        apply lookup_lt_Some in Hi. exact Hi.
      * pose proof (task_step_remaining E A sel t (pool_world st) Hd). lia.
Qed.

(** After the turns of [drain] every future is done. *)
Lemma pool_drain_completes (folders : list string) (w0 : world)
    (js : list nat) (st : pool) :
  pool_inv E A sel folders w0 st ->
  forall j, j ∈ js -> (j < length (futures st))%nat ->
  exists r f,
    futures (fold_left (pool_step E A sel)
               (flat_map (fun i => repeat i task_fuel) js) st) !! j
    = Some (Done r, f).
Proof.
  revert st. induction js as [|i js IH]; intros st Hinv j Hj Hlt.
  - apply elem_of_nil in Hj as [].
  - cbn [flat_map]. rewrite fold_left_app.
    set (st1 := fold_left (pool_step E A sel) (repeat i task_fuel) st).
    assert (Hinv1 : pool_inv E A sel folders w0 st1) by apply pool_steps_inv, Hinv.
    assert (Hlen : length (futures st1) = length (futures st)).
    { destruct Hinv as (H1 & _), Hinv1 as (H2 & _).
      rewrite <- (length_map snd (futures st1)), H2, <- H1, length_map.
      reflexivity. }
    destruct (decide (j = i)) as [->|Hne].
    + destruct (lookup_lt_is_Some_2 _ _ Hlt) as [[t f] Hi].
      destruct Hinv as (_ & Hok & _).
      assert (Hok_i := proj1 (Forall_lookup _ _) Hok i (t, f) Hi).
      apply task_ok_remaining in Hok_i.
      destruct (pool_repeat_completes task_fuel st i t f Hi Hok_i) as [r Hr].
      exists r, f. apply pool_steps_done_stay, Hr.
    + apply elem_of_cons in Hj as [Hj|Hj]; [contradiction|].
      apply (IH st1 Hinv1 j Hj). lia.
Qed.

(** The state of the pool when the [with] block is left. *)
Lemma thread_pool_final (folders : list string) (sched : list nat) (w : world) :
  let st := fold_left (pool_step E A sel) (sched ++ drain (length folders))
                      (submit_all A folders w) in
  pool_inv E A sel folders w st /\
  Forall (fun tf => is_done (fst tf) = true) (futures st).
Proof.
  intros st. subst st. rewrite fold_left_app.
  set (st1 := fold_left (pool_step E A sel) sched (submit_all A folders w)).
  assert (Hinv1 : pool_inv E A sel folders w st1)
    by apply pool_steps_inv, pool_inv_submit.
  assert (Hlen : length (futures st1) = length folders).
  { destruct Hinv1 as (H1 & _).
    rewrite <- (length_map snd (futures st1)), H1. reflexivity. }
  split; [apply pool_steps_inv, Hinv1|].
  apply Forall_lookup. intros j [t f] Hj.
  assert (Hinv2 := pool_steps_inv folders w (drain (length folders)) st1 Hinv1).
  assert (Hlt : (j < length folders)%nat).
  { apply lookup_lt_Some in Hj. destruct Hinv2 as (H2 & _).
    rewrite <- H2, length_map. exact Hj. }
  destruct (pool_drain_completes folders w (seq 0 (length folders)) st1 Hinv1 j)
    as (r & f' & Hr).
  - apply elem_of_seq. lia.
  - lia.
  - unfold drain in Hj. rewrite Hr in Hj. injection Hj as <- _. reflexivity.
Qed.

End PoolFacts.

Section BatchFacts.
Variable E : env.
Variable A : args.
Variable sel : list string.

Lemma run_task_done_value (k : nat) (path : string) (w : world)
    (r : scene_result) :
  fst (run_task E A sel k (Submitted path) w) = Done (Ok r) ->
  r = fst (process_scene E A sel path w).
Proof.
  intros H.
  pose proof (run_task_add E A sel k task_fuel (Submitted path) w) as H1.
  pose proof (run_task_add E A sel task_fuel k (Submitted path) w) as H2.
  rewrite H, run_task_done in H1.
  rewrite run_task_fuel in H2. cbn [fst snd] in H2. rewrite run_task_done in H2.
  rewrite Nat.add_comm, H2 in H1. congruence.
Qed.

(** When every future is done, the results they hold are, up to the
    elapsed times, those of [process_scene] on the folders. *)
Lemma done_results_untimed (fs : list (task * string)) (w : world) :
  Forall (fun tf => is_done (fst tf) = true) fs ->
  Forall (fun tf => task_ok (path_join (INPUT_ROOT A) (snd tf)) (fst tf) w) fs ->
  Forall (fun tf => exists k,
            task_sim (fst tf)
              (fst (run_task E A sel k
                      (Submitted (path_join (INPUT_ROOT A) (snd tf)))
                      empty_world))) fs ->
  map untimed (done_results fs) =
  map (fun folder =>
         untimed (fst (process_scene E A sel (path_join (INPUT_ROOT A) folder)
                         empty_world)))
      (map snd fs).
Proof.
  induction fs as [|[t f] fs IH]; intros Hd Hok Hsim; [reflexivity|].
  apply Forall_cons in Hd as [Hd1 Hd], Hok as [Hok1 Hok], Hsim as [Hsim1 Hsim].
  cbn [fst snd] in *. destruct t as [p|l todo|[r|e]]; try discriminate;
    [|destruct Hok1].
  unfold done_results in *. cbn. rewrite (IH Hd Hok Hsim). f_equal.
  destruct Hsim1 as [k Hk].
  destruct (fst (run_task E A sel k _ empty_world)) as [p'|l' todo'|[r'|e']] eqn:Hr;
    cbn in Hk; try contradiction.
  apply run_task_done_value in Hr. rewrite <- Hr. exact Hk.
Qed.

Lemma sequential_untimed (folders : list string) (w : world) :
  map untimed (fst (sequential E A sel folders w)) =
  map (fun folder =>
         untimed (fst (process_scene E A sel (path_join (INPUT_ROOT A) folder)
                         empty_world)))
      folders.
Proof.
  revert w. induction folders as [|f folders IH]; intros w; [reflexivity|].
  cbn [sequential].
  pose proof (process_scene_untimed E A sel (path_join (INPUT_ROOT A) f)
                w empty_world) as Hu.
  destruct (process_scene E A sel (path_join (INPUT_ROOT A) f) w) as [r w1].
  specialize (IH w1). destruct (sequential E A sel folders w1) as [rs w2].
  cbn [fst map] in *. rewrite IH, Hu. reflexivity.
Qed.

(** A call of [process_scene] only adds entries of scenes to the log,
    the last of which tells that the scene is finished. *)
Lemma process_scene_grows (path : string) (w : world) :
  grows w (snd (process_scene E A sel path w)) /\
  exists elapsed,
    LogFinished (basename path) elapsed ∈ log (snd (process_scene E A sel path w)).
Proof.
  pose proof (run_task_fuel E A sel path w) as Hrun.
  assert (Hgen : forall k t w1,
            task_ok path t w1 ->
            grows w1 (snd (run_task E A sel k t w1)) /\
            task_ok path (fst (run_task E A sel k t w1))
                         (snd (run_task E A sel k t w1))).
  { induction k as [|k IH]; intros t w1 Hok.
    - split; [apply grows_refl|exact Hok].
    - rewrite run_task_S.
      pose proof (task_step_grows E A sel t w1) as Hg.
      pose proof (task_step_ok E A sel path t w1 Hok) as Hok1.
      destruct (IH _ _ Hok1) as [Hg2 Hok2].
      split; [eapply grows_trans; eassumption|exact Hok2]. }
  destruct (Hgen task_fuel (Submitted path) w eq_refl) as [Hg Hok].
  rewrite Hrun in Hg, Hok. cbn [fst snd task_ok] in *. auto.
Qed.

End BatchFacts.

(** ** C8 *)

(** C8, as stated, fails: the rows carry the elapsed time of the scene,
    and under the pool a scene's time includes the turns of the other
    workers.  With two scene folders without band files, a clock that
    counts its readings and the workers starting one after the other,
    both rows of the pool have [time_sec = 2], both rows of the
    sequential run [time_sec = 1]. *)
Lemma pool_rows_differ_from_sequential_rows :
  ~ (fst (thread_pool env_two_empty args_all ALL_INDICES ["s1"; "s2"] [0; 1]%nat
            empty_world)
     ≡ₚ fst (sequential env_two_empty args_all ALL_INDICES ["s1"; "s2"]
               empty_world)).
Proof.
  intros H. apply (Permutation_map time_sec) in H.
  vm_compute in H.
  apply (Permutation_in 2) in H; [|left; reflexivity].
  destruct H as [H|[H|[]]]; discriminate.
Qed.

(** C8 (amended): for every list of scene folders, every schedule of the
    worker threads and every initial world, the rows collected by the
    thread pool are, once the elapsed time [time_sec] is disregarded, a
    permutation of the rows obtained by processing the same folders one
    after the other with the same selected indices; in particular there
    are as many.  (The environment answers alike in both runs.) *)
Theorem pool_rows_permute_sequential_rows
    (E : env) (A : args) (sel : list string) (folders : list string)
    (sched : list nat) (w w' : world) :
  map untimed (fst (thread_pool E A sel folders sched w))
  ≡ₚ map untimed (fst (sequential E A sel folders w'))
  /\ length (fst (thread_pool E A sel folders sched w)) = length folders.
Proof.
  destruct (thread_pool_final E A sel folders sched w)
    as ((Hsnd & Hok & Hsim & Hperm & _) & Hdone).
  unfold thread_pool. cbn [fst].
  set (st := fold_left (pool_step E A sel) (sched ++ drain (length folders))
                       (submit_all A folders w)) in *.
  assert (Hmap : map untimed (all_results st)
                 ≡ₚ map untimed (fst (sequential E A sel folders w'))).
  { rewrite Hperm, sequential_untimed.
    rewrite (done_results_untimed E A sel (futures st) (pool_world st)
               Hdone Hok Hsim), Hsnd. reflexivity. }
  split; [exact Hmap|].
  apply Permutation_length in Hmap. rewrite !length_map in Hmap.
  rewrite Hmap, <- (length_map untimed), sequential_untimed, length_map.
  reflexivity.
Qed.

(** ** C7 *)

(** When the output root exists as the run starts and the summary file
    can be written, the run ends, whatever the file system answers
    otherwise and however the workers are scheduled, with the summary
    written exactly once.  The log of
    the run is the start entry, then entries of scenes only, among them
    the end of every scene folder, then the entry of the summary and
    the final entry: the summary is written after every scene task has
    finished, and no failure inside a scene keeps it from being
    written.  The summary has one row per scene folder. *)
Lemma summary_written_once_when_output_root_exists
    (E : env) (A : args) (sched : list nat) (ds : gset string)
    (rs : gmap string (grid * raster_profile)) (n : nat) :
  OUTPUT_ROOT A ∈ ds ->
  summary_ok E (path_join (OUTPUT_ROOT A)
                          ("summary_" ++ timestamp A ++ ".csv")) = true ->
  let out := run_batch E A sched (start_world ds rs n) in
  let csv := path_join (OUTPUT_ROOT A) ("summary_" ++ timestamp A ++ ".csv") in
  fst out = Ok tt /\
  exists rows scene_log,
    summaries (snd out) = [(csv, rows)] /\
    length rows = length (scene_folders E A) /\
    log (snd out) = [LogBatchStarted] ++ scene_log
                    ++ [LogSummarySaved csv; LogAllProcessed] /\
    Forall (fun e => scene_entry e = true) scene_log /\
    (forall folder, folder ∈ scene_folders E A ->
       exists elapsed,
         LogFinished (basename (path_join (INPUT_ROOT A) folder)) elapsed
           ∈ scene_log).
Proof.
  intros Hroot Hsum out csv. subst out. unfold run_batch.
  set (w1 := logging LogBatchStarted (start_world ds rs n)).
  assert (Hfin : forall all_results w2,
            grows w1 w2 ->
            length all_results = length (scene_folders E A) ->
            (forall folder, folder ∈ scene_folders E A ->
               exists elapsed,
                 LogFinished (basename (path_join (INPUT_ROOT A) folder)) elapsed
                   ∈ log w2) ->
            let out := match save_summary E A all_results (OUTPUT_ROOT A) w2 with
                       | (Ok _, w) => (Ok tt, logging LogAllProcessed w)
                       | (Raise e, w) => (Raise e, w)
                       end in
            fst out = Ok tt /\
            exists rows scene_log,
              summaries (snd out) = [(csv, rows)] /\
              length rows = length (scene_folders E A) /\
              log (snd out) = [LogBatchStarted] ++ scene_log
                              ++ [LogSummarySaved csv; LogAllProcessed] /\
              Forall (fun e => scene_entry e = true) scene_log /\
              (forall folder, folder ∈ scene_folders E A ->
                 exists elapsed,
                   LogFinished (basename (path_join (INPUT_ROOT A) folder))
                     elapsed ∈ scene_log)).
  { intros all_results w2 (Hs & Hd & ext & Hl & Hext) Hlen Hall.
    unfold save_summary.
    rewrite bool_decide_eq_true_2 by (apply Hd; exact Hroot).
    rewrite Hsum.
    cbn. split; [reflexivity|].
    exists (map csv_row_of all_results), ext.
    rewrite Hs, Hl. cbn. split; [reflexivity|].
    split; [rewrite length_map; exact Hlen|].
    split; [rewrite <- !app_assoc; reflexivity|].
    split; [exact Hext|].
    intros folder Hin. destruct (Hall folder Hin) as [el Hel].
    exists el. rewrite Hl in Hel. cbn in Hel.
    apply elem_of_cons in Hel as [Hel|Hel]; [discriminate|exact Hel]. }
  destruct (scene_folders E A) as [|folder [|folder' rest]] eqn:Hfolders.
  - (* no scene: the pool runs no task *)
    destruct (thread_pool_final E A (SELECTED_INDICES A) [] sched w1)
      as ((Hsnd & Hok & Hsim & Hperm & Hgr) & Hdone).
    unfold thread_pool.
    set (st := fold_left _ _ _) in *.
    apply Hfin; [exact Hgr| |intros folder Hin; apply elem_of_nil in Hin as []].
    apply Permutation_length in Hperm. rewrite Hperm.
    destruct (futures st); [reflexivity|discriminate].
  - (* one scene: the call is made directly *)
    destruct (process_scene_grows E A (SELECTED_INDICES A)
                (path_join (INPUT_ROOT A) folder) w1) as [Hgr Hlog].
    destruct (process_scene E A (SELECTED_INDICES A)
                (path_join (INPUT_ROOT A) folder) w1) as [result w2].
    apply Hfin; [exact Hgr|reflexivity|].
    intros f Hin. apply list_elem_of_singleton in Hin as ->. exact Hlog.
  - (* several scenes: the pool *)
    destruct (thread_pool_final E A (SELECTED_INDICES A)
                (folder :: folder' :: rest) sched w1)
      as ((Hsnd & Hok & Hsim & Hperm & Hgr) & Hdone).
    unfold thread_pool.
    set (st := fold_left _ _ _) in *. cbn [fst snd].
    assert (Hres : forall i t f, futures st !! i = Some (t, f) ->
              exists r, t = Done (Ok r) /\
                exists elapsed,
                  LogFinished (basename (path_join (INPUT_ROOT A) f)) elapsed
                    ∈ log (pool_world st)).
    { intros i t f Hi.
      assert (Hd := proj1 (Forall_lookup _ _) Hdone i (t, f) Hi).
      assert (Ho := proj1 (Forall_lookup _ _) Hok i (t, f) Hi).
      cbn [fst snd] in *. destruct t as [p|l todo|[r|e]]; try discriminate;
        [|destruct Ho].
      exists r. split; [reflexivity|exact Ho]. }
    apply Hfin; [exact Hgr| |].
    + apply Permutation_length in Hperm. rewrite Hperm, <- Hsnd, length_map.
      clear -Hres. revert Hres. generalize (futures st). intros fs.
      induction fs as [|[t f] fs IH]; intros Hres; [reflexivity|].
      destruct (Hres 0%nat t f eq_refl) as (r & -> & _).
      unfold done_results in *. cbn. f_equal. apply IH.
      intros i t' f' Hi. apply (Hres (S i) t' f' Hi).
    + intros f Hin. rewrite <- Hsnd in Hin.
      apply list_elem_of_fmap in Hin as ([t f'] & -> & Hin).
      apply list_elem_of_lookup in Hin as [i Hi].
      destruct (Hres i t f' Hi) as (_ & _ & Hlog). exact Hlog.
Qed.

Lemma string_app_snoc (a r : string) (c : ascii) :
  ((a ++ String c EmptyString) ++ r = a ++ String c r)%string.
Proof.
  induction a as [|d a IH]; [reflexivity|].
  change (String d ((a ++ String c EmptyString) ++ r)
          = String d (a ++ String c r))%string.
  f_equal. exact IH.
Qed.

Lemma string_app_empty (a : string) : (a ++ EmptyString = a)%string.
Proof.
  induction a as [|d a IH]; [reflexivity|].
  change (String d (a ++ EmptyString) = String d a)%string.
  f_equal. exact IH.
Qed.

Lemma path_prefixes_root (acc root rest : string) :
  (acc ++ root)%string ∈ path_prefixes acc (path_join root rest).
Proof.
  unfold path_join. revert acc. induction root as [|c root IH]; intros acc.
  - cbn. rewrite string_app_empty. apply list_elem_of_here.
  - rewrite <- string_app_snoc.
    change (path_prefixes acc (String c root ++ "/" ++ rest))%string
      with (if Ascii.eqb c "/"%char
            then acc :: path_prefixes (acc ++ "/")%string
                          (root ++ "/" ++ rest)%string
            else path_prefixes (acc ++ String c EmptyString)%string
                   (root ++ "/" ++ rest)%string).
    destruct (Ascii.eqb c "/") eqn:Hc.
    + apply Ascii.eqb_eq in Hc. subst c. apply list_elem_of_further, IH.
    + apply IH.
Qed.

(** A successful [os.makedirs] of the directory of a scene creates the
    output root. *)
Lemma makedirs_creates_root (root name : string) (w : world) :
  root ∈ dirs (makedirs (path_join root name) w).
Proof.
  unfold makedirs. cbn. apply elem_of_union_r, elem_of_list_to_set.
  apply (path_prefixes_root EmptyString root name).
Qed.

(** C7 (the code at the failing input): two scene folders without band
    files and an output root that does not exist.  No index is
    attempted, so no [save_index] creates a directory; both scene tasks
    finish; [save_summary] then raises, nothing catches the exception,
    the run is aborted and no summary is written.  With the same
    scenes and an existing output root the summary is written, with its
    two rows; so it is when the root is missing and a scene saves an
    index, which creates the root on the way. *)
Theorem summary_not_written_when_nothing_was_saved :
  let out := run_batch env_two_empty args_all [0; 1; 0]%nat
               (start_world ∅ ∅ 0) in
  let out' := run_batch env_two_empty args_all [0; 1; 0]%nat
                (start_world {["out"%string]} ∅ 0) in
  let out'' := run_batch env_b4_b5_b7 args_all [] (start_world ∅ ∅ 0) in
  fst out = Raise OSError /\
  summaries (snd out) = [] /\
  log (snd out) =
    [LogBatchStarted; LogProcessing "s1"; LogProcessing "s2";
     LogMissing "B2.tif" "s1"; LogMissing "B3.tif" "s1";
     LogMissing "B4.tif" "s1"; LogMissing "B5.tif" "s1";
     LogMissing "B6.tif" "s1"; LogMissing "B7.tif" "s1";
     LogFinished "s1" 2;
     LogMissing "B2.tif" "s2"; LogMissing "B3.tif" "s2";
     LogMissing "B4.tif" "s2"; LogMissing "B5.tif" "s2";
     LogMissing "B6.tif" "s2"; LogMissing "B7.tif" "s2";
     LogFinished "s2" 2] /\
  fst out' = Ok tt /\
  length <$> (snd <$> head (summaries (snd out'))) = Some 2%nat /\
  fst out'' = Ok tt /\
  length <$> (snd <$> head (summaries (snd out''))) = Some 1%nat.
Proof. vm_compute. repeat split; reflexivity. Qed.


(* ===================================================================== *)
(** * Further properties of the formulas                                  *)
(* ===================================================================== *)

Section BroadcastFacts.
Context {A B C : Type}.
Implicit Types (f : A -> B -> res C) (xs : list A) (ys : list B).

Lemma bcast_incompat f xs ys :
  compat (length xs) (length ys) = false -> bcast f xs ys = Raise ValueError.
Proof.
  unfold compat, bcast. intros H.
  apply orb_false_iff in H as [H H3]. apply orb_false_iff in H as [H1 H2].
  rewrite H1.
  destruct xs as [|x [|x' xs]]; cbn in *; try discriminate;
    destruct ys as [|y [|y' ys]]; cbn in *; try discriminate; reflexivity.
Qed.

Lemma zip_res_uniform f (P : C -> Prop) xs ys :
  length xs = length ys ->
  (forall x y, x ∈ xs -> y ∈ ys -> exists c, f x y = Ok c /\ P c) ->
  exists cs, zip_res f xs ys = Ok cs /\ length cs = length xs /\ Forall P cs.
Proof.
  revert ys. induction xs as [|x xs IH]; intros [|y ys] Hlen Hf;
    cbn in *; try discriminate.
  - exists []. split; [reflexivity|]. split; [reflexivity|constructor].
  - destruct (Hf x y) as (c & Hc & HP);
      [apply list_elem_of_here|apply list_elem_of_here|].
    destruct (IH ys) as (cs & Hcs & Hl & HF).
    + congruence.
    + intros x0 y0 Hx Hy.
      apply Hf; apply list_elem_of_further; assumption.
    + rewrite Hc. cbn. rewrite Hcs. cbn. exists (c :: cs).
      split; [reflexivity|]. split; [cbn; congruence|].
      constructor; assumption.
Qed.

Lemma map_res_uniform (h : A -> res C) (P : C -> Prop) xs :
  (forall x, x ∈ xs -> exists c, h x = Ok c /\ P c) ->
  exists cs, map_res h xs = Ok cs /\ length cs = length xs /\ Forall P cs.
Proof.
  induction xs as [|x xs IH]; intros Hf; cbn.
  - exists []. split; [reflexivity|]. split; [reflexivity|constructor].
  - destruct (Hf x) as (c & Hc & HP); [apply list_elem_of_here|].
    destruct IH as (cs & Hcs & Hl & HF).
    + intros x0 Hx. apply Hf, list_elem_of_further, Hx.
    + rewrite Hc. cbn. rewrite Hcs. cbn. exists (c :: cs).
      split; [reflexivity|]. split; [cbn; congruence|].
      constructor; assumption.
Qed.

End BroadcastFacts.

Lemma bcast_uniform {A B C} (f : A -> B -> res C) (P : C -> Prop)
    (xs : list A) (ys : list B) :
  compat (length xs) (length ys) = true ->
  (forall x y, x ∈ xs -> y ∈ ys -> exists c, f x y = Ok c /\ P c) ->
  exists cs, bcast f xs ys = Ok cs /\
             length cs = bdim (length xs) (length ys) /\ Forall P cs.
Proof.
  unfold compat, bcast, bdim. intros H Hf.
  destruct (length xs =? length ys)%nat eqn:E.
  - apply Nat.eqb_eq in E.
    destruct (zip_res_uniform f P xs ys E Hf) as (cs & Hcs & Hl & HF).
    exists cs. split; [exact Hcs|]. split; [|exact HF].
    rewrite Hl. destruct (length xs =? 1)%nat; congruence.
  - cbn in H. destruct xs as [|x [|x' xs]].
    + destruct ys as [|y [|y' ys]]; cbn in *; try discriminate.
      exists []. split; [reflexivity|]. split; [reflexivity|constructor].
    + destruct (map_res_uniform (fun y => f x y) P ys) as (cs & Hcs & Hl & HF).
      * intros y Hy. apply Hf; [apply list_elem_of_here|exact Hy].
      * exists cs. split; [exact Hcs|]. split; [exact Hl|exact HF].
    + destruct ys as [|y [|y' ys]]; cbn in H; try discriminate.
      destruct (map_res_uniform (fun x => f x y) P (x :: x' :: xs))
        as (cs & Hcs & Hl & HF).
      * intros x0 Hx. apply Hf; [exact Hx|apply list_elem_of_here].
      * exists cs. split; [exact Hcs|]. split; [exact Hl|exact HF].
Qed.

Lemma bcast_all_raise {A B C} (f : A -> B -> res C)
    (xs : list A) (ys : list B) :
  xs <> [] -> ys <> [] ->
  (forall x y, x ∈ xs -> y ∈ ys -> f x y = Raise ValueError) ->
  bcast f xs ys = Raise ValueError.
Proof.
  intros Hx Hy Hf.
  destruct xs as [|x xs]; [contradiction|].
  destruct ys as [|y ys]; [contradiction|].
  assert (Hxy : f x y = Raise ValueError)
    by (apply Hf; apply list_elem_of_here).
  unfold bcast. destruct (length (x :: xs) =? length (y :: ys))%nat.
  - cbn. rewrite Hxy. reflexivity.
  - destruct xs as [|x' xs].
    + cbn. rewrite Hxy. reflexivity.
    + destruct ys as [|y' ys]; [|reflexivity].
      cbn. rewrite Hxy. reflexivity.
Qed.

Lemma rect_shape_eq (r c : nat) (a b : grid) :
  rect r c a -> rect r c b -> shape_eq a b.
Proof.
  unfold rect, shape_eq. intros [Ha Fa] [Hb Fb]. subst r.
  revert b Hb Fb. induction Fa as [|ra a Hra Fa IH]; intros [|rb b] Hb Fb;
    cbn in *; try discriminate; [reflexivity|].
  inversion Fb as [|? ? Hrb Fb']; subst.
  f_equal; [congruence|]. apply IH; [congruence|exact Fb'].
Qed.

Lemma shape_eq_rect (r c : nat) (g a : grid) :
  shape_eq g a -> rect r c a -> rect r c g.
Proof.
  unfold rect, shape_eq. intros H [Ha Fa]. subst r.
  revert g H. induction Fa as [|ra a Hra Fa IH]; intros [|rg g] H;
    cbn in *; try discriminate; [split; [reflexivity|constructor]|].
  injection H as Hr Ht. destruct (IH g Ht) as [Hl HF].
  split; [congruence|]. constructor; [congruence|exact HF].
Qed.

(** An elementwise operator on two rectangular arrays follows numpy's
    broadcasting rule on both axes. *)
Lemma binop_rect (op : f32 -> f32 -> f32) (r1 c1 r2 c2 : nat) (a b : grid) :
  rect r1 c1 a -> rect r2 c2 b -> (0 < r1)%nat -> (0 < r2)%nat ->
  if compat r1 r2 && compat c1 c2
  then exists g, binop op a b = Ok g /\ rect (bdim r1 r2) (bdim c1 c2) g
  else binop op a b = Raise ValueError.
Proof.
  intros [Ha Fa] [Hb Fb] H1 H2. unfold binop.
  rewrite Forall_forall in Fa, Fb.
  destruct (compat c1 c2) eqn:Ec.
  - rewrite andb_true_r. destruct (compat r1 r2) eqn:Er.
    + destruct (bcast_uniform (bcast (fun x y => Ok (op x y)))
                  (fun row => length row = bdim c1 c2) a b)
        as (g & Hg & Hl & HF).
      * rewrite Ha, Hb. exact Er.
      * intros ra rb Hra Hrb.
        destruct (bcast_uniform (fun x y => Ok (op x y)) (fun _ => True)
                    ra rb) as (row & Hrow & Hlr & _).
        -- rewrite (Fa ra Hra), (Fb rb Hrb). exact Ec.
        -- intros x y _ _. exists (op x y). split; [reflexivity|exact I].
        -- exists row. split; [exact Hrow|].
           rewrite Hlr, (Fa ra Hra), (Fb rb Hrb). reflexivity.
      * exists g. split; [exact Hg|]. split; [|exact HF].
        rewrite Hl, Ha, Hb. reflexivity.
    + apply bcast_incompat. rewrite Ha, Hb. exact Er.
  - rewrite andb_false_r. apply bcast_all_raise.
    + intros ->. cbn in Ha. lia.
    + intros ->. cbn in Hb. lia.
    + intros ra rb Hra Hrb. apply bcast_incompat.
      rewrite (Fa ra Hra), (Fb rb Hrb). exact Ec.
Qed.

Lemma ratio_form_broadcast (r1 c1 r2 c2 : nat) (a b : grid) :
  rect r1 c1 a -> rect r2 c2 b -> (0 < r1)%nat -> (0 < r2)%nat ->
  if compat r1 r2 && compat c1 c2
  then exists g, (n ← binop sub a b; d ← binop add a b; safe_divide n d)
                 = Ok g /\
                 rect (bdim r1 r2) (bdim c1 c2) g /\ no_nan g = true
  else (n ← binop sub a b; d ← binop add a b; safe_divide n d)
       = Raise ValueError.
Proof.
  intros Ha Hb H1 H2.
  pose proof (binop_rect sub r1 c1 r2 c2 a b Ha Hb H1 H2) as Hn.
  pose proof (binop_rect add r1 c1 r2 c2 a b Ha Hb H1 H2) as Hd.
  destruct (compat r1 r2 && compat c1 c2).
  - destruct Hn as (n & Hn & Rn). destruct Hd as (d & Hd & Rd).
    rewrite Hn. cbn. rewrite Hd. cbn.
    destruct (safe_divide_ok n d (rect_shape_eq _ _ n d Rn Rd))
      as (g & Hg & Hs & Hnn).
    exists g. split; [exact Hg|]. split; [|exact Hnn].
    apply (shape_eq_rect _ _ g n Hs Rn).
  - rewrite Hn. reflexivity.
Qed.

(** X2: for two rectangular bands of [r1 x c1] and [r2 x c2] cells (at
    least one row each), each of NDVI, NBR, NBWI and NDBI returns
    exactly when the shapes can be broadcast together (on each axis the
    lengths are equal or one of them is 1): the result then has the
    broadcast shape and holds no NaN; in every other case the call
    raises [ValueError]. *)
Theorem normalized_difference_broadcasts
    (f : grid -> grid -> res grid) (r1 c1 r2 c2 : nat) (a b : grid) :
  In f normalized_differences ->
  rect r1 c1 a -> rect r2 c2 b -> (0 < r1)%nat -> (0 < r2)%nat ->
  if compat r1 r2 && compat c1 c2
  then exists g, f a b = Ok g /\
                 rect (bdim r1 r2) (bdim c1 c2) g /\ no_nan g = true
  else f a b = Raise ValueError.
Proof.
  intros Hf Ha Hb H1 H2.
  assert (Hform : f a b
                  = (n ← binop sub a b; d ← binop add a b; safe_divide n d)).
  { cbn in Hf. destruct Hf as [<-|[<-|[<-|[<-|[]]]]]; reflexivity. }
  rewrite Hform. apply ratio_form_broadcast; assumption.
Qed.

Lemma normalized_difference_broadcasts_witness :
  (exists g, calculate_nbr [[f_one; f_half]; [f_half; f_one]] [[f_half]]
             = Ok g /\ rect 2 2 g /\ no_nan g = true) /\
  calculate_ndvi [[f_one; f_half]; [f_half; f_one]]
                 [[f_one; f_half; f_one]]
  = Raise ValueError.
Proof.
  split.
  - apply (normalized_difference_broadcasts calculate_nbr 2 2 1 1
             [[f_one; f_half]; [f_half; f_one]] [[f_half]]).
    + cbn. auto.
    + split; [reflexivity|]. repeat constructor.
    + split; [reflexivity|]. repeat constructor.
    + lia.
    + lia.
  - apply (normalized_difference_broadcasts calculate_ndvi 2 2 1 3
             [[f_one; f_half]; [f_half; f_one]] [[f_one; f_half; f_one]]).
    + cbn. auto.
    + split; [reflexivity|]. repeat constructor.
    + split; [reflexivity|]. repeat constructor.
    + lia.
    + lia.
Defined.

Lemma map_cells_rect (f : f32 -> f32) (r c : nat) (a : grid) :
  rect r c a -> rect r c (map_cells f a).
Proof. apply shape_eq_rect, map_cells_shape. Qed.

(** [safe_divide] follows the broadcasting rule of its division. *)
Lemma safe_divide_rect (r1 c1 r2 c2 : nat) (a b : grid) :
  rect r1 c1 a -> rect r2 c2 b -> (0 < r1)%nat -> (0 < r2)%nat ->
  if compat r1 r2 && compat c1 c2
  then exists g, safe_divide a b = Ok g /\
                 rect (bdim r1 r2) (bdim c1 c2) g /\ no_nan g = true
  else safe_divide a b = Raise ValueError.
Proof.
  intros Ha Hb H1 H2.
  pose proof (binop_rect div r1 c1 r2 c2 a b Ha Hb H1 H2) as Hq.
  destruct (compat r1 r2 && compat c1 c2).
  - destruct Hq as (q & Hq & Rq).
    assert (Hs : safe_divide a b = Ok (set_where q (Np.isnan q) zero))
      by (unfold safe_divide; rewrite Hq; reflexivity).
    exists (set_where q (Np.isnan q) zero). split; [exact Hs|].
    split; [|apply (safe_divide_no_nan a b _ Hs)].
    rewrite set_where_isnan. apply map_cells_rect, Rq.
  - unfold safe_divide. rewrite Hq. reflexivity.
Qed.

(** X1: for two rectangular bands of [r1 x c1] and [r2 x c2] cells (at
    least one row each), [safe_divide], SAVI with its default [L] and
    GCI return exactly when the shapes can be broadcast together (on
    each axis the lengths are equal or one of them is 1): the result
    then has the broadcast shape and holds no NaN.  In every other case
    the call raises [ValueError]; the division by zero raises
    nothing. *)
Theorem quotient_functions_broadcast
    (r1 c1 r2 c2 : nat) (a b : grid) :
  rect r1 c1 a -> rect r2 c2 b -> (0 < r1)%nat -> (0 < r2)%nat ->
  if compat r1 r2 && compat c1 c2
  then (exists g, safe_divide a b = Ok g /\
                  rect (bdim r1 r2) (bdim c1 c2) g /\ no_nan g = true) /\
       (exists g, calculate_savi a b SAVI_L = Ok g /\
                  rect (bdim r1 r2) (bdim c1 c2) g /\ no_nan g = true) /\
       (exists g, calculate_gci a b = Ok g /\
                  rect (bdim r1 r2) (bdim c1 c2) g /\ no_nan g = true)
  else safe_divide a b = Raise ValueError /\
       calculate_savi a b SAVI_L = Raise ValueError /\
       calculate_gci a b = Raise ValueError.
Proof.
  intros Ha Hb H1 H2.
  pose proof (safe_divide_rect r1 c1 r2 c2 a b Ha Hb H1 H2) as Hq.
  pose proof (binop_rect sub r1 c1 r2 c2 a b Ha Hb H1 H2) as Hn.
  pose proof (binop_rect add r1 c1 r2 c2 a b Ha Hb H1 H2) as Hd.
  unfold calculate_savi, calculate_gci.
  destruct (compat r1 r2 && compat c1 c2).
  - split; [exact Hq|]. split.
    + destruct Hn as (n & -> & Rn). destruct Hd as (d & -> & Rd).
      cbv beta iota zeta delta [mbind res_bind].
      destruct (safe_divide_ok n (map_cells (fun x => add x SAVI_L) d))
        as (q & -> & Hs & Hnn).
      { apply (rect_shape_eq _ _ _ _ Rn), map_cells_rect, Rd. }
      eexists. split; [reflexivity|]. split.
      * apply map_cells_rect, (shape_eq_rect _ _ q n Hs Rn).
      * apply scale_by_savi_factor_keeps, Hnn.
    + destruct Hq as (q & -> & Rq & Hnn).
      cbv beta iota delta [mbind res_bind].
      eexists. split; [reflexivity|]. split.
      * apply map_cells_rect, Rq.
      * apply minus_one_keeps, Hnn.
  - rewrite Hq, Hn. repeat split; reflexivity.
Qed.

Lemma quotient_functions_broadcast_witness :
  ((exists g, safe_divide [[f_one]; [f_half]] [[zero; f_half; f_one]] = Ok g /\
              rect 2 3 g /\ no_nan g = true) /\
   (exists g, calculate_savi [[f_one]; [f_half]] [[zero; f_half; f_one]] SAVI_L
              = Ok g /\ rect 2 3 g /\ no_nan g = true) /\
   (exists g, calculate_gci [[f_one]; [f_half]] [[zero; f_half; f_one]] = Ok g /\
              rect 2 3 g /\ no_nan g = true)) /\
  (safe_divide [[f_one; f_half]] [[zero; f_half; f_one]] = Raise ValueError /\
   calculate_savi [[f_one; f_half]] [[zero; f_half; f_one]] SAVI_L
   = Raise ValueError /\
   calculate_gci [[f_one; f_half]] [[zero; f_half; f_one]]
   = Raise ValueError).
Proof.
  split.
  - apply (quotient_functions_broadcast 2 1 1 3
             [[f_one]; [f_half]] [[zero; f_half; f_one]]).
    + split; [reflexivity|]. repeat constructor.
    + split; [reflexivity|]. repeat constructor.
    + lia.
    + lia.
  - apply (quotient_functions_broadcast 1 2 1 3
             [[f_one; f_half]] [[zero; f_half; f_one]]).
    + split; [reflexivity|]. repeat constructor.
    + split; [reflexivity|]. repeat constructor.
    + lia.
    + lia.
Defined.

(** ** Bands that coincide *)

Lemma sub_diag (x : f32) : sub x x = S754_nan \/ is_zero (sub x x) = true.
Proof.
  destruct x as [s|s| |s m e].
  - right. destruct s; reflexivity.
  - left. destruct s; reflexivity.
  - left. reflexivity.
  - right. unfold sub, SFsub. rewrite Z.sub_diag. reflexivity.
Qed.

Lemma safe_quotient_zero_numerator (n y : f32) :
  n = S754_nan \/ is_zero n = true -> is_zero (safe_quotient n y) = true.
Proof.
  intros [->|Hn].
  - reflexivity.
  - destruct n as [s| | |]; try discriminate.
    destruct y; reflexivity.
Qed.

Lemma mul_zero_finite (z : f32) (s : bool) (m : positive) (e : Z) :
  is_zero z = true ->
  is_zero (mul z (S754_finite s m e)) = true /\
  is_zero (mul (S754_finite s m e) z) = true.
Proof. destruct z; try discriminate. intros _. split; reflexivity. Qed.

Lemma safe_divide_zero_numerator (n d : grid) (i j : nat) (xn yd : f32) :
  shape_eq n d ->
  cell n i j = Some xn -> cell d i j = Some yd ->
  xn = S754_nan \/ is_zero xn = true ->
  exists q, safe_divide n d = Ok q /\
            exists z, cell q i j = Some z /\ is_zero z = true.
Proof.
  intros Hs Hn Hd Hx. destruct (safe_divide_cell n d Hs) as (q & Hq & _ & Hc).
  exists q. split; [exact Hq|]. exists (safe_quotient xn yd).
  split; [apply Hc; assumption|].
  apply safe_quotient_zero_numerator, Hx.
Qed.

Section CoincidingBands.
Variables (a b c : grid) (i j : nat) (x y : f32).
Hypothesis Hab : shape_eq a b.
Hypothesis Hac : shape_eq a c.
Hypothesis Ha : cell a i j = Some x.
Hypothesis Hb : cell b i j = Some x.
Hypothesis Hc : cell c i j = Some y.

Local Abbreviation zero_at r :=
  (exists g z, r = Ok g /\ cell g i j = Some z /\ is_zero z = true).

Lemma difference_shape : shape_eq (zip_with (zip_with sub) a b) a.
Proof. apply zip_with_shape, Hab. Qed.

Lemma difference_cell :
  cell (zip_with (zip_with sub) a b) i j = Some (sub x x).
Proof. apply cell_zip_with; assumption. Qed.

Lemma ratio_form_zero_at :
  zero_at (n ← binop sub a b; d ← binop add a b; safe_divide n d).
Proof.
  rewrite (binop_shape_eq sub a b Hab), (binop_shape_eq add a b Hab). cbv beta iota delta [mbind res_bind].
  destruct (safe_divide_zero_numerator
              (zip_with (zip_with sub) a b) (zip_with (zip_with add) a b)
              i j (sub x x) (add x x)) as (q & Hq & z & Hz & Hzero).
  - eapply shape_eq_trans; [apply difference_shape|].
    apply shape_eq_sym, zip_with_shape, Hab.
  - apply difference_cell.
  - apply cell_zip_with; assumption.
  - apply sub_diag.
  - exists q, z. auto.
Qed.

Lemma calculate_savi_zero_at : zero_at (calculate_savi a b SAVI_L).
Proof.
  unfold calculate_savi.
  rewrite (binop_shape_eq sub a b Hab), (binop_shape_eq add a b Hab). cbv beta iota delta [mbind res_bind].
  destruct (safe_divide_zero_numerator
              (zip_with (zip_with sub) a b)
              (map_cells (fun v => add v SAVI_L) (zip_with (zip_with add) a b))
              i j (sub x x) (add (add x x) SAVI_L))
    as (q & Hq & z & Hz & Hzero).
  - eapply shape_eq_trans; [apply difference_shape|].
    apply shape_eq_sym. eapply shape_eq_trans; [apply map_cells_shape|].
    apply zip_with_shape, Hab.
  - apply difference_cell.
  - rewrite cell_map_cells, (cell_zip_with add a b i j x x Ha Hb).
    reflexivity.
  - apply sub_diag.
  - rewrite Hq. cbv beta iota delta [mbind res_bind]. eexists _, _. split; [reflexivity|].
    rewrite cell_map_cells, Hz. split; [reflexivity|].
    exact (proj1 (mul_zero_finite z false 12582912 (-23) Hzero)).
Qed.

Lemma calculate_evi_zero_at :
  zero_at (calculate_evi a b c EVI_G EVI_C1 EVI_C2 EVI_L).
Proof.
  unfold calculate_evi.
  assert (H1 : shape_eq a (map_cells (fun v => mul EVI_C1 v) b))
    by (eapply shape_eq_trans; [exact Hab|apply shape_eq_sym, map_cells_shape]).
  rewrite (binop_shape_eq sub a b Hab), (binop_shape_eq add _ _ H1). cbv beta iota delta [mbind res_bind].
  assert (H2 : shape_eq
                 (zip_with (zip_with add) a
                    (map_cells (fun v => mul EVI_C1 v) b))
                 (map_cells (fun v => mul EVI_C2 v) c)).
  { eapply shape_eq_trans; [apply zip_with_shape, H1|].
    eapply shape_eq_trans; [exact Hac|apply shape_eq_sym, map_cells_shape]. }
  rewrite (binop_shape_eq sub _ _ H2). cbv beta iota delta [mbind res_bind].
  destruct (safe_divide_zero_numerator
              (zip_with (zip_with sub) a b)
              (map_cells (fun v => add v EVI_L)
                 (zip_with (zip_with sub)
                    (zip_with (zip_with add) a
                       (map_cells (fun v => mul EVI_C1 v) b))
                    (map_cells (fun v => mul EVI_C2 v) c)))
              i j (sub x x)
              (add (sub (add x (mul EVI_C1 x)) (mul EVI_C2 y)) EVI_L))
    as (q & Hq & z & Hz & Hzero).
  - eapply shape_eq_trans; [apply difference_shape|].
    apply shape_eq_sym. eapply shape_eq_trans; [apply map_cells_shape|].
    eapply shape_eq_trans; [apply zip_with_shape, H2|].
    apply zip_with_shape, H1.
  - apply difference_cell.
  - rewrite cell_map_cells.
    rewrite (cell_zip_with sub _ _ i j (add x (mul EVI_C1 x)) (mul EVI_C2 y));
      [reflexivity| |].
    + apply cell_zip_with; [exact Ha|]. rewrite cell_map_cells, Hb.
      reflexivity.
    + rewrite cell_map_cells, Hc. reflexivity.
  - apply sub_diag.
  - rewrite Hq. cbv beta iota delta [mbind res_bind]. eexists _, _. split; [reflexivity|].
    rewrite cell_map_cells, Hz. split; [reflexivity|].
    exact (proj2 (mul_zero_finite z false 10485760 (-22) Hzero)).
Qed.

End CoincidingBands.

(** X3: at every pixel where the two bands of a difference index hold
    the same value (a finite number, an infinity or NaN alike), the
    index is zero: for bands of one shape NDVI, NBR, NBWI and NDBI, SAVI
    with its default [L] and EVI with its default coefficients (whatever
    the blue band holds) return a grid whose cell there is a zero. *)
Theorem coinciding_bands_give_zero
    (a b c : grid) (i j : nat) (x y : f32) (r : res grid) :
  shape_eq a b -> shape_eq a c ->
  cell a i j = Some x -> cell b i j = Some x -> cell c i j = Some y ->
  In r [calculate_ndvi a b; calculate_nbr a b; calculate_nbwi a b;
        calculate_ndbi a b; calculate_savi a b SAVI_L;
        calculate_evi a b c EVI_G EVI_C1 EVI_C2 EVI_L] ->
  exists g z, r = Ok g /\ cell g i j = Some z /\ is_zero z = true.
Proof.
  intros Hab Hac Ha Hb Hc Hr. cbn in Hr.
  destruct Hr as [<-|[<-|[<-|[<-|[<-|[<-|[]]]]]]].
  - apply (ratio_form_zero_at a b i j x Hab Ha Hb).
  - apply (ratio_form_zero_at a b i j x Hab Ha Hb).
  - apply (ratio_form_zero_at a b i j x Hab Ha Hb).
  - apply (ratio_form_zero_at a b i j x Hab Ha Hb).
  - apply (calculate_savi_zero_at a b i j x Hab Ha Hb).
  - apply (calculate_evi_zero_at a b c i j x y Hab Hac Ha Hb Hc).
Qed.

Lemma coinciding_bands_give_zero_witness :
  exists g z,
    calculate_evi [[f_half; pinf]] [[f_one; pinf]] [[f_one; f_half]]
      EVI_G EVI_C1 EVI_C2 EVI_L = Ok g /\
    cell g 0 1 = Some z /\ is_zero z = true.
Proof.
  apply (coinciding_bands_give_zero
           [[f_half; pinf]] [[f_one; pinf]] [[f_one; f_half]] 0 1 pinf f_half).
  - reflexivity.
  - reflexivity.
  - reflexivity.
  - reflexivity.
  - reflexivity.
  - simpl. auto 10.
Defined.

(* ===================================================================== *)
(** * Further properties of process_scene                                 *)
(* ===================================================================== *)

Section SceneFurther.
Variable E : env.
Variable A : args.
Variable sel : list string.

(** A save that returns [False] has written no raster. *)
Lemma save_index_false_rasters (arr : grid) (name : string)
    (prof : option raster_profile) (dir : string) (w : world) :
  fst (fst (save_index E arr name prof dir w)) = false ->
  rasters (snd (save_index E arr name prof dir w)) = rasters w.
Proof.
  unfold save_index, persist.
  destruct (makedirs_ok E dir); cbn; [|reflexivity].
  destruct prof as [p|]; cbn; [|reflexivity].
  destruct (write_ok E _ _ _); cbn; [discriminate|reflexivity].
Qed.

(** A statement of the [try] block leaves a raster as it is, or it is
    the raster of its own index, selected and saved. *)
Lemma index_step_rasters_cases (s : index_spec) l w (p : string) :
  rasters (snd (index_step E A sel s (l, w))) !! p = rasters w !! p \/
  (p = out_path A l (idx_name s) /\ idx_name s ∈ sel /\
   entries (results (fst (index_step E A sel s (l, w)))) !! idx_name s
   = Some true).
Proof.
  destruct (index_step_outcome E A sel s l w)
    as [e Hp|Hp Hg|e Hp Hg Hc|arr Hp Hg Hc]; try (left; reflexivity).
  destruct (decide (p = out_path A l (idx_name s))) as [->|Hne].
  - pose proof (save_index_false_rasters arr (idx_name s) (profile l)
                  (output_dir A l) w) as Hfalse.
    destruct (save_index E arr (idx_name s) (profile l) (output_dir A l) w)
      as [[ok p'] w']. cbn [fst snd] in *. destruct ok.
    + right. split; [reflexivity|]. split.
      * unfold guard in Hg. apply andb_true_iff in Hg as [_ Hg].
        apply bool_decide_eq_true in Hg. exact Hg.
      * cbn. apply lookup_insert_eq.
    + left. rewrite Hfalse by reflexivity. reflexivity.
  - left.
    pose proof (save_index_rasters_other E arr (idx_name s) (profile l)
                  (output_dir A l) w p Hne) as H.
    destruct (save_index _ _ _ _ _ _) as [[ok p'] w']. exact H.
Qed.

Lemma run_indices_rasters_cases (ss : list index_spec) l w (p : string) :
  NoDup (map idx_name ss) ->
  rasters (snd (run_indices E A sel ss (l, w))) !! p = rasters w !! p \/
  exists s, s ∈ ss /\ p = out_path A l (idx_name s) /\ idx_name s ∈ sel /\
    entries (results (fst (run_indices E A sel ss (l, w)))) !! idx_name s
    = Some true.
Proof.
  revert l w. induction ss as [|s ss IH]; intros l w Hnd; [left; reflexivity|].
  cbn [map] in Hnd. apply NoDup_cons in Hnd as [Hs Hnd].
  rewrite run_indices_cons.
  pose proof (index_step_rasters_cases s l w p) as H1.
  pose proof (index_step_frame E A sel s l w) as Hf.
  destruct (index_step E A sel s (l, w)) as [l1 w1]. cbn [fst snd] in *.
  destruct (IH l1 w1 Hnd) as [H2|(s' & Hin & Hp & Hsel & He)].
  - destruct H1 as [H1|(Hp & Hsel & He)].
    + left. congruence.
    + right. exists s. split; [apply list_elem_of_here|].
      split; [exact Hp|]. split; [exact Hsel|].
      rewrite run_indices_entries_other by exact Hs. exact He.
  - right. exists s'. split; [apply list_elem_of_further, Hin|].
    split; [|split; assumption].
    rewrite Hp. apply out_path_frame, Hf.
Qed.

Lemma process_scene_rasters_cases (path : string) (w : world) (p : string) :
  rasters (snd (process_scene E A sel path w)) !! p = rasters w !! p \/
  exists s, s ∈ INDEX_TABLE /\ idx_name s ∈ sel /\
    p = path_join (path_join (OUTPUT_ROOT A) (basename path))
                  (idx_name s ++ ".tif") /\
    entries (fst (process_scene E A sel path w)) !! idx_name s = Some true.
Proof.
  rewrite process_scene_unfold.
  pose proof (loaded_state E path w) as Hl.
  destruct (run_loads E band_files (scene_begin E path w)) as [l w0].
  cbn [fst snd] in Hl. cbv zeta in Hl.
  destruct Hl as (_ & Hname & _ & _ & _ & Hr).
  pose proof (run_indices_rasters_cases INDEX_TABLE l w0 p
                index_table_names_nodup) as H.
  rewrite (surjective_pairing (run_indices E A sel INDEX_TABLE (l, w0))).
  destruct (scene_finish_fields E
              (fst (run_indices E A sel INDEX_TABLE (l, w0)))
              (snd (run_indices E A sel INDEX_TABLE (l, w0))))
    as (-> & _ & ->).
  rewrite <- Hr. destruct H as [H|(s & Hin & Hp & Hsel & He)]; [left; exact H|].
  right. exists s. split; [exact Hin|]. split; [exact Hsel|].
  split; [|exact He].
  rewrite Hp. unfold out_path, output_dir. rewrite Hname. reflexivity.
Qed.

(** The raster of an index whose entry is [True]: the grid of its
    formula on the bands loaded, with the profile left by the loads. *)
Lemma process_scene_raster_value (path : string) (w : world) (s : index_spec) :
  s ∈ INDEX_TABLE ->
  entries (fst (process_scene E A sel path w)) !! idx_name s = Some true ->
  exists arr p,
    profile (fst (run_loads E band_files (scene_begin E path w))) = Some p /\
    idx_compute s (bands (fst (run_loads E band_files (scene_begin E path w))))
    = Ok arr /\
    rasters (snd (process_scene E A sel path w))
      !! path_join (path_join (OUTPUT_ROOT A) (basename path))
                   (idx_name s ++ ".tif")
    = Some (arr, profile_update p).
Proof.
  intros Hin Htrue.
  pose proof (loaded_state E path w) as Hl.
  apply list_elem_of_split in Hin as (pre & post & Ht).
  assert (Hnd : NoDup (map idx_name (pre ++ s :: post)))
    by (rewrite <- Ht; apply index_table_names_nodup).
  assert (Hsome : is_Some (entries (fst (process_scene E A sel path w))
                             !! idx_name s)) by (rewrite Htrue; eauto).
  apply (process_scene_entry_iff E A sel path w pre post s Ht) in Hsome.
  cbv zeta in Hsome. destruct Hsome as [Hg Hall].
  rewrite process_scene_unfold in Htrue |- *.
  destruct (run_loads E band_files (scene_begin E path w)) as [l w0].
  cbn [fst snd] in *. cbv zeta in Hl.
  destruct Hl as (_ & Hname & Hp0 & He0 & _).
  apply Forall_app in Hall as [Hpre Hs]. rewrite Forall_singleton in Hs.
  assert (Hp1 : pending (fst (run_indices E A sel pre (l, w0))) = None)
    by (apply run_indices_pending_none; auto).
  unfold raises_at in Hs. rewrite Hg in Hs.
  destruct (idx_compute s (bands l)) as [arr|e] eqn:Hc; [|discriminate].
  rewrite (surjective_pairing (run_indices E A sel INDEX_TABLE (l, w0)))
    in Htrue |- *.
  destruct (scene_finish_fields E
              (fst (run_indices E A sel INDEX_TABLE (l, w0)))
              (snd (run_indices E A sel INDEX_TABLE (l, w0))))
    as (He & _ & Hr).
  rewrite He in Htrue. rewrite Hr. clear He Hr.
  rewrite Ht in Htrue |- *.
  rewrite (run_indices_entry_value E A sel pre post s l w0 arr Hnd Hp1 Hg Hc)
    in Htrue.
  injection Htrue as Hsave.
  destruct (run_indices_raster_value E A sel pre post s l w0 arr
              Hnd Hp1 Hg Hc Hsave) as (p1 & Hcur & Hras).
  pose proof (run_indices_profile_from E A sel pre l w0 (profile l)
                (or_introl eq_refl)) as Hpf.
  rewrite Hcur in Hpf.
  assert (Hp : exists p, profile l = Some p /\
                         profile_update p1 = profile_update p).
  { destruct Hpf as [Hpf|Hpf].
    - exists p1. split; [congruence|reflexivity].
    - destruct (profile l) as [p|]; [|discriminate].
      injection Hpf as ->. exists p. split; reflexivity. }
  destruct Hp as (p & Hp & Hup).
  exists arr, p. split; [exact Hp|]. split; [reflexivity|].
  rewrite <- Hup, <- Hname. exact Hras.
Qed.

(** The bands and the profile that the loads leave do not depend on the
    world in which the call runs. *)
Lemma run_loads_sim (kfs : list (string * string)) (l l' : locals)
    (w w' : world) :
  retime 0 l = retime 0 l' ->
  retime 0 (fst (run_loads E kfs (l, w)))
  = retime 0 (fst (run_loads E kfs (l', w'))).
Proof.
  revert l l' w w'. induction kfs as [|kf kfs IH]; intros l l' w w' H;
    [exact H|].
  change (run_loads E (kf :: kfs) (l, w))
    with (run_loads E kfs (load_step E kf (l, w))).
  change (run_loads E (kf :: kfs) (l', w'))
    with (run_loads E kfs (load_step E kf (l', w'))).
  pose proof (load_step_sim E kf l l' w w' H) as H1.
  destruct (load_step E kf (l, w)) as [l1 w1].
  destruct (load_step E kf (l', w')) as [l1' w1']. apply IH, H1.
Qed.

Lemma loaded_state_world (path : string) (w w' : world) :
  bands (fst (run_loads E band_files (scene_begin E path w)))
  = bands (fst (run_loads E band_files (scene_begin E path w'))) /\
  profile (fst (run_loads E band_files (scene_begin E path w)))
  = profile (fst (run_loads E band_files (scene_begin E path w'))).
Proof.
  pose proof (scene_begin_sim E path w w') as H0.
  destruct (scene_begin E path w) as [l0 w0].
  destruct (scene_begin E path w') as [l0' w0'].
  pose proof (run_loads_sim band_files l0 l0' w0 w0' H0) as H.
  apply retime_eq_fields in H as (_ & _ & Hb & Hp & _). auto.
Qed.

End SceneFurther.

Lemma key_of_band_files (k : string) :
  k ∈ map fst band_files -> exists f, (k, f) ∈ band_files.
Proof.
  intros H. apply list_elem_of_fmap in H as ([k' f] & -> & Hin).
  exists f. exact Hin.
Qed.

(** X4: the band set with which the [try] block is entered, key by
    key.  A key is unbound exactly when it is none of B2..B7 or its band
    file is missing; it is bound to [None] exactly when its band file
    exists and could not be read; it is bound to a grid exactly when
    that grid was read from its band file. *)
Theorem band_set_after_loads (E : env) (path : string) (w : world) (k : string) :
  match bands (fst (load_phase E (scene_begin E path w))) !! k with
  | None =>
      forall f, (k, f) ∈ band_files -> file_at E (path_join path f) = Missing
  | Some None =>
      exists f, (k, f) ∈ band_files /\
                file_at E (path_join path f) = Unreadable
  | Some (Some data) =>
      exists f p, (k, f) ∈ band_files /\
                  file_at E (path_join path f) = Readable data p
  end.
Proof.
  rewrite load_phase_run_loads.
  destruct (bands (fst (run_loads E band_files (scene_begin E path w))) !! k)
    as [[data|]|] eqn:Hk.
  - destruct (decide (k ∈ map fst band_files)) as [Hin|Hout].
    + destruct (key_of_band_files k Hin) as [f Hf].
      rewrite (loaded_band E path w k f Hf) in Hk. exists f.
      destruct (file_at E (path_join path f)) as [| |d p]; try discriminate.
      exists p. split; [exact Hf|]. congruence.
    + rewrite (surjective_pairing (scene_begin E path w)) in Hk.
      rewrite (run_loads_lookup_other E band_files _ _ k Hout) in Hk.
      discriminate.
  - destruct (decide (k ∈ map fst band_files)) as [Hin|Hout].
    + destruct (key_of_band_files k Hin) as [f Hf].
      rewrite (loaded_band E path w k f Hf) in Hk. exists f.
      destruct (file_at E (path_join path f)) as [| |d p]; try discriminate.
      split; [exact Hf|reflexivity].
    + rewrite (surjective_pairing (scene_begin E path w)) in Hk.
      rewrite (run_loads_lookup_other E band_files _ _ k Hout) in Hk.
      discriminate.
  - intros f Hf. rewrite (loaded_band E path w k f Hf) in Hk.
    destruct (file_at E (path_join path f)); [reflexivity|discriminate..].
Qed.

Lemma band_set_after_loads_witness :
  exists f, ("B4", f) ∈ band_files /\
            file_at env_b4_unreadable (path_join "in/s" f) = Unreadable.
Proof.
  exact (band_set_after_loads env_b4_unreadable "in/s" empty_world "B4").
Defined.

(** X5: the result of a call has entries for selected indices only, and
    every key of an entry is one of the eight field names of the
    summary: each entry of the result is written to the column of its
    index in the line of the scene, and no key is left without a
    column. *)
Theorem result_entries_are_selected_summary_columns
    (E : env) (A : args) (sel : list string) (path : string) (w : world)
    (name : string) (b : bool) :
  entries (fst (process_scene E A sel path w)) !! name = Some b ->
  name ∈ sel /\
  exists i : nat,
    ALL_INDICES !! i = Some name /\
    col_indices (csv_row_of (fst (process_scene E A sel path w))) !! i
    = Some (Some b).
Proof.
  intros Hb.
  assert (Hin : name ∈ map idx_name INDEX_TABLE).
  { destruct (decide (name ∈ map idx_name INDEX_TABLE)) as [Hin|Hout];
      [exact Hin|exfalso].
    rewrite process_scene_unfold in Hb.
    pose proof (loaded_state E path w) as Hl.
    destruct (run_loads E band_files (scene_begin E path w)) as [l w0].
    cbn [fst snd] in Hl. cbv zeta in Hl.
    destruct Hl as (_ & _ & _ & He0 & _).
    rewrite (surjective_pairing (run_indices E A sel INDEX_TABLE (l, w0)))
      in Hb.
    destruct (scene_finish_fields E
                (fst (run_indices E A sel INDEX_TABLE (l, w0)))
                (snd (run_indices E A sel INDEX_TABLE (l, w0))))
      as (He & _).
    rewrite He, (run_indices_entries_other E A sel _ _ _ _ Hout), He0,
      lookup_empty in Hb. discriminate. }
  split.
  - apply list_elem_of_fmap in Hin as (s & -> & Hs).
    apply list_elem_of_split in Hs as (pre & post & Ht).
    assert (Hsome : is_Some (entries (fst (process_scene E A sel path w))
                               !! idx_name s)) by (rewrite Hb; eauto).
    apply (process_scene_entry_iff E A sel path w pre post s Ht) in Hsome.
    cbv zeta in Hsome. destruct Hsome as [Hg _].
    unfold guard in Hg. apply andb_true_iff in Hg as [_ Hg].
    apply bool_decide_eq_true in Hg. exact Hg.
  - change (map idx_name INDEX_TABLE) with ALL_INDICES in Hin.
    apply list_elem_of_lookup in Hin as [i Hi]. exists i.
    split; [exact Hi|]. unfold csv_row_of. cbn [col_indices].
    rewrite list_lookup_fmap, Hi. cbn. rewrite Hb. reflexivity.
Qed.

Lemma result_entries_are_selected_summary_columns_witness :
  "NDVI" ∈ ["NDVI"; "NBR"] /\
  exists i : nat,
    ALL_INDICES !! i = Some "NDVI" /\
    col_indices (csv_row_of (fst (process_scene env_b4_b5_b7 args_all
                                    ["NDVI"; "NBR"] "in/s" empty_world))) !! i
    = Some (Some true).
Proof.
  apply (result_entries_are_selected_summary_columns env_b4_b5_b7 args_all
           ["NDVI"; "NBR"] "in/s" empty_world "NDVI" true).
  vm_compute. reflexivity.
Defined.

(** X6: what a call of [process_scene] leaves alone.  It writes no
    summary and removes no directory; and a raster file differs after
    the call only if it is [<output root>/<scene name>/<NAME>.tif] for
    an index NAME that is selected, is one of the eight, and has an
    entry in the result, that is, [save_index] was called for it
    (whether the save then succeeded or failed).  Every other file of
    the output tree, in particular every raster of another scene folder,
    is as before. *)
Theorem process_scene_writes_only_its_own_rasters
    (E : env) (A : args) (sel : list string) (path : string) (w : world) :
  let out := process_scene E A sel path w in
  summaries (snd out) = summaries w /\
  dirs w ⊆ dirs (snd out) /\
  forall p : string,
    rasters (snd out) !! p <> rasters w !! p ->
    exists name,
      name ∈ sel /\ name ∈ ALL_INDICES /\
      p = path_join (path_join (OUTPUT_ROOT A) (basename path))
                    (name ++ ".tif") /\
      is_Some (entries (fst out) !! name).
Proof.
  intros out. subst out.
  destruct (process_scene_grows E A sel path w) as [(Hs & Hd & _) _].
  split; [exact Hs|]. split; [exact Hd|].
  intros p Hne.
  destruct (process_scene_rasters_cases E A sel path w p)
    as [H|(s & Hin & Hsel & Hp & He)]; [contradiction|].
  exists (idx_name s). split; [exact Hsel|].
  split; [|split; [exact Hp|rewrite He; eauto]].
  change ALL_INDICES with (map idx_name INDEX_TABLE).
  apply list_elem_of_fmap. exists s. split; [reflexivity|exact Hin].
Qed.

Lemma process_scene_writes_only_its_own_rasters_witness :
  exists name,
    name ∈ ALL_INDICES /\ name ∈ ALL_INDICES /\
    "out/s/NBR.tif"
    = path_join (path_join (OUTPUT_ROOT args_all) (basename "in/s"))
                (name ++ ".tif") /\
    is_Some (entries (fst (process_scene env_b4_b5_b7 args_all ALL_INDICES
                             "in/s" empty_world)) !! name).
Proof.
  destruct (process_scene_writes_only_its_own_rasters env_b4_b5_b7 args_all
              ALL_INDICES "in/s" empty_world) as (_ & _ & H).
  apply (H "out/s/NBR.tif"). vm_compute. discriminate.
Defined.

(** X7: processing a scene a second time, on the output tree left by
    the first call and with the file system answering alike, gives the
    same scene name and the same entries and leaves every raster file as
    the first call left it. *)
Theorem reprocessing_a_scene_changes_nothing
    (E : env) (A : args) (sel : list string) (path : string) (w : world) :
  let first := process_scene E A sel path w in
  let second := process_scene E A sel path (snd first) in
  rasters (snd second) = rasters (snd first) /\
  scene (fst second) = scene (fst first) /\
  entries (fst second) = entries (fst first).
Proof.
  intros first second. subst first second.
  pose proof (process_scene_untimed E A sel path
                (snd (process_scene E A sel path w)) w) as Hu.
  unfold untimed in Hu. injection Hu as Hsc Hen.
  split; [|split; assumption].
  apply map_eq. intros p.
  destruct (process_scene_rasters_cases E A sel path
              (snd (process_scene E A sel path w)) p)
    as [H|(s & Hin & Hsel & Hp & He)]; [exact H|].
  destruct (process_scene_raster_value E A sel path _ s Hin He)
    as (arr2 & p2 & Hprof2 & Hc2 & Hras2).
  rewrite Hen in He.
  destruct (process_scene_raster_value E A sel path w s Hin He)
    as (arr1 & p1 & Hprof1 & Hc1 & Hras1).
  destruct (loaded_state_world E path
              (snd (process_scene E A sel path w)) w) as [Hb Hpr].
  rewrite Hb in Hc2. rewrite Hpr in Hprof2.
  rewrite Hp, Hras1, Hras2. congruence.
Qed.

Section ClockFacts.
Variable E : env.
Variable A : args.
Variable sel : list string.

Lemma load_step_ticks (kf : string * string) (l : locals) (w : world) :
  ticks (snd (load_step E kf (l, w))) = ticks w.
Proof.
  destruct kf as [k f]. unfold load_step, load_band.
  destruct (file_at E (path_join (scene_path l) f)); reflexivity.
Qed.

Lemma run_loads_ticks (kfs : list (string * string)) (l : locals) (w : world) :
  ticks (snd (run_loads E kfs (l, w))) = ticks w.
Proof.
  revert l w. induction kfs as [|kf kfs IH]; intros l w; [reflexivity|].
  change (run_loads E (kf :: kfs) (l, w))
    with (run_loads E kfs (load_step E kf (l, w))).
  pose proof (load_step_ticks kf l w) as H.
  destruct (load_step E kf (l, w)) as [l1 w1]. cbn [snd] in H.
  rewrite IH. exact H.
Qed.

Lemma save_index_ticks (arr : grid) (name : string)
    (prof : option raster_profile) (dir : string) (w : world) :
  ticks (snd (save_index E arr name prof dir w)) = ticks w.
Proof.
  unfold save_index, persist.
  destruct (makedirs_ok E dir); cbn; [|reflexivity].
  destruct prof as [p|]; cbn; [|reflexivity].
  destruct (write_ok E _ _ _); reflexivity.
Qed.

Lemma index_step_ticks (s : index_spec) (l : locals) (w : world) :
  ticks (snd (index_step E A sel s (l, w))) = ticks w.
Proof.
  destruct (index_step_outcome E A sel s l w)
    as [e Hp|Hp Hg|e Hp Hg Hc|arr Hp Hg Hc]; try reflexivity.
  pose proof (save_index_ticks arr (idx_name s) (profile l)
                (output_dir A l) w) as H.
  destruct (save_index _ _ _ _ _ _) as [[ok p] w']. exact H.
Qed.

Lemma run_indices_ticks (ss : list index_spec) (l : locals) (w : world) :
  ticks (snd (run_indices E A sel ss (l, w))) = ticks w.
Proof.
  revert l w. induction ss as [|s ss IH]; intros l w; [reflexivity|].
  rewrite run_indices_cons.
  pose proof (index_step_ticks s l w) as H.
  destruct (index_step E A sel s (l, w)) as [l1 w1]. cbn [snd] in H.
  rewrite IH. exact H.
Qed.

Lemma process_scene_clock (path : string) (w : world) :
  ticks (snd (process_scene E A sel path w)) = S (S (ticks w)) /\
  time_sec (fst (process_scene E A sel path w))
  = time_time E (S (ticks w)) - time_time E (ticks w) /\
  scene (fst (process_scene E A sel path w)) = basename path.
Proof.
  rewrite process_scene_unfold.
  assert (Hb : start_time (fst (scene_begin E path w)) = time_time E (ticks w)
               /\ ticks (snd (scene_begin E path w)) = S (ticks w))
    by (split; reflexivity).
  pose proof (loaded_state E path w) as Hl.
  destruct (scene_begin E path w) as [l0 w0]. cbn [fst snd] in Hb.
  destruct Hb as [Hst Htk].
  pose proof (run_loads_frame E band_files l0 w0) as Hf1.
  pose proof (run_loads_ticks band_files l0 w0) as Ht1.
  destruct (run_loads E band_files (l0, w0)) as [l1 w1].
  cbn [fst snd] in *. cbv zeta in Hf1, Hl.
  destruct Hf1 as (_ & _ & Hst1 & _). destruct Hl as (_ & _ & _ & _ & Hsc & _).
  pose proof (run_indices_frame E A sel INDEX_TABLE l1 w1) as Hf2.
  pose proof (run_indices_ticks INDEX_TABLE l1 w1) as Ht2.
  destruct (run_indices E A sel INDEX_TABLE (l1, w1)) as [l2 w2].
  cbn [fst snd] in *. destruct Hf2 as (_ & _ & Hst2 & _ & Hsc2).
  assert (Hfin : ticks (snd (scene_finish E (l2, w2))) = S (ticks w2) /\
                 time_sec (fst (scene_finish E (l2, w2)))
                 = time_time E (ticks w2) - start_time l2 /\
                 scene (fst (scene_finish E (l2, w2))) = scene (results l2))
    by (repeat split; reflexivity).
  destruct Hfin as (-> & -> & ->).
  rewrite Ht2, Ht1, Htk, Hst2, Hst1, Hst, Hsc2, Hsc. auto.
Qed.

End ClockFacts.



(* ===================================================================== *)
(** * Further properties of the batch run                                 *)
(* ===================================================================== *)

Lemma run_batch_collect (E : env) (A : args) (sched : list nat) (w : world) :
  run_batch E A sched w =
  match save_summary E A
          (fst (collect E A sched (logging LogBatchStarted w)))
          (OUTPUT_ROOT A)
                     (snd (collect E A sched (logging LogBatchStarted w))) with
  | (Ok _, w') => (Ok tt, logging LogAllProcessed w')
  | (Raise e, w') => (Raise e, w')
  end.
Proof.
  unfold run_batch, collect.
  destruct (scene_folders E A) as [|folder [|folder' rest]];
    try reflexivity.
  destruct (process_scene _ _ _ _ _) as [result w1]. reflexivity.
Qed.


Section RootFacts.
Variable E : env.
Variable A : args.
Variable sel : list string.

Lemma save_index_makes_root (arr : grid) (name : string)
    (prof : option raster_profile) (x : string) (w : world) :
  makedirs_ok E (path_join (OUTPUT_ROOT A) x) = true ->
  OUTPUT_ROOT A ∈
    dirs (snd (save_index E arr name prof (path_join (OUTPUT_ROOT A) x) w)).
Proof.
  intros H. unfold save_index, persist. rewrite H.
  destruct prof as [p|];
    [destruct (write_ok E _ _ _)|];
    exact (makedirs_creates_root (OUTPUT_ROOT A) x w).
Qed.

Lemma made_root_grows (t : task) (w w' : world) :
  grows w w' -> made_root E A t w -> made_root E A t w'.
Proof.
  intros (_ & Hd & _) [H|H]; [left; apply Hd, H|right; exact H].
Qed.

Lemma index_step_made_root (s : index_spec) (l : locals) (w : world) :
  scene (results l) = scene_name l ->
  entries (results l) = ∅ \/ makedirs_ok E (output_dir A l) = false ->
  let lw := index_step E A sel s (l, w) in
  OUTPUT_ROOT A ∈ dirs (snd lw) \/
  (scene (results (fst lw)) = scene_name (fst lw) /\
   (entries (results (fst lw)) = ∅ \/
    makedirs_ok E (output_dir A (fst lw)) = false)).
Proof.
  intros Hsc Hloc lw. subst lw.
  destruct (index_step_outcome E A sel s l w)
    as [e Hp|Hp Hg|e Hp Hg Hc|arr Hp Hg Hc]; try (right; split; assumption).
  destruct (makedirs_ok E (output_dir A l)) eqn:Hm.
  - left.
    pose proof (save_index_makes_root arr (idx_name s) (profile l)
                  (scene_name l) w Hm) as H.
    fold (output_dir A l) in H.
    destruct (save_index _ _ _ _ _ _) as [[ok p] w']. exact H.
  - right. destruct (save_index _ _ _ _ _ _) as [[ok p] w'].
    cbn [fst snd results scene scene_name]. split; [exact Hsc|].
    right. exact Hm.
Qed.

Lemma task_step_made_root (t : task) (w : world) :
  made_root E A t w ->
  made_root E A (fst (task_step E A sel t w)) (snd (task_step E A sel t w)).
Proof.
  intros [H|H].
  { eapply made_root_grows; [apply task_step_grows|]. left. exact H. }
  unfold task_step. destruct t as [p|l [|[kf|s] todo]|[r|e]].
  - pose proof (scene_begin_fields E p w) as Hb.
    destruct (scene_begin E p w) as [l0 w0]. cbn [fst snd] in *.
    cbv zeta in Hb. destruct Hb as (_ & Hn & _ & _ & _ & He & Hsc & _).
    right. split; [congruence|]. left. exact He.
  - destruct H as [Hsc Hloc].
    assert (Hf : scene (fst (scene_finish E (l, w))) = scene (results l) /\
                 entries (fst (scene_finish E (l, w))) = entries (results l))
      by (split; reflexivity).
    destruct (scene_finish E (l, w)) as [r w1]. cbn [fst snd] in *.
    destruct Hf as [Hs He]. right. unfold result_dir.
    rewrite Hs, He, Hsc. exact Hloc.
  - destruct H as [Hsc Hloc].
    pose proof (load_step_frame E kf l w) as Hf.
    destruct (load_step E kf (l, w)) as [l1 w1]. cbn [fst snd] in *.
    cbv zeta in Hf. destruct Hf as (_ & Hn & _ & Hr & _).
    right. unfold output_dir in *. rewrite Hr, Hn. split; assumption.
  - destruct H as [Hsc Hloc].
    pose proof (index_step_made_root s l w Hsc Hloc) as Hi. cbv zeta in Hi.
    destruct (index_step E A sel s (l, w)) as [l1 w1]. exact Hi.
  - right. exact H.
  - right. exact I.
Qed.

Lemma run_task_made_root (k : nat) (t : task) (w : world) :
  made_root E A t w ->
  made_root E A (fst (run_task E A sel k t w)) (snd (run_task E A sel k t w)).
Proof.
  revert t w. induction k as [|k IH]; intros t w H; [exact H|].
  rewrite run_task_S. apply IH, task_step_made_root, H.
Qed.

Lemma pool_step_made_root (st : pool) (i : nat) :
  Forall (fun tf => made_root E A (fst tf) (pool_world st)) (futures st) ->
  Forall (fun tf => made_root E A (fst tf)
                      (pool_world (pool_step E A sel st i)))
         (futures (pool_step E A sel st i)).
Proof.
  intros Hall.
  destruct (futures st !! i) as [[t f]|] eqn:Hi;
    [|rewrite pool_step_idle by auto; exact Hall].
  destruct (is_done t) eqn:Hd.
  { destruct t as [p|l todo|r]; try discriminate.
    rewrite pool_step_idle by eauto. exact Hall. }
  destruct (pool_step_turn E A sel st i t f Hi Hd) as (Hf & _ & Hg).
  pose proof (task_step_grows E A sel t (pool_world st)) as Hg1.
  assert (Hi' := proj1 (Forall_lookup _ _) Hall i (t, f) Hi).
  cbn [fst] in Hi'. rewrite Hf. apply Forall_insert.
  - eapply Forall_impl; [exact Hall|]. intros tf.
    apply made_root_grows. eapply grows_trans; eassumption.
  - cbn [fst]. eapply made_root_grows; [exact Hg|].
    apply task_step_made_root, Hi'.
Qed.

Lemma pool_steps_made_root (steps : list nat) (st : pool) :
  Forall (fun tf => made_root E A (fst tf) (pool_world st)) (futures st) ->
  Forall (fun tf => made_root E A (fst tf)
                      (pool_world (fold_left (pool_step E A sel) steps st)))
         (futures (fold_left (pool_step E A sel) steps st)).
Proof.
  revert st. induction steps as [|i steps IH]; intros st H; [exact H|].
  cbn. apply IH, pool_step_made_root, H.
Qed.

End RootFacts.

Section CollectFacts.
Variable E : env.
Variable A : args.

Local Abbreviation sel := (SELECTED_INDICES A).

(** A save attempted by the scene of [folder] on its own, in a
    directory that can be created. *)
Local Abbreviation makes_directory folder :=
  (entries (alone E A folder) <> ∅ /\
   makedirs_ok E (result_dir A (alone E A folder)) = true).

Lemma made_root_done (folder : string) (r : scene_result) (w : world) :
  untimed r = untimed (alone E A folder) ->
  made_root E A (Done (Ok r)) w ->
  makes_directory folder -> OUTPUT_ROOT A ∈ dirs w.
Proof.
  unfold untimed, result_dir. intros [= Hs He] [H|[H|H]] [Hne Hm];
    [exact H| |].
  - rewrite He in H. contradiction.
  - unfold result_dir in H. rewrite Hs in H. congruence.
Qed.

Lemma direct_call_facts (folder : string) (w : world) :
  let out := process_scene E A sel (path_join (INPUT_ROOT A) folder) w in
  grows w (snd out) /\
  untimed (fst out) = untimed (alone E A folder) /\
  (makes_directory folder -> OUTPUT_ROOT A ∈ dirs (snd out)).
Proof.
  intros out. subst out.
  split; [apply process_scene_grows|].
  assert (Hu := process_scene_untimed E A sel
                  (path_join (INPUT_ROOT A) folder) w empty_world).
  split; [exact Hu|]. intros Hmk.
  pose proof (run_task_made_root E A sel task_fuel
                (Submitted (path_join (INPUT_ROOT A) folder)) w
                (or_intror I)) as H.
  rewrite run_task_fuel in H. cbn [fst snd] in H.
  exact (made_root_done folder _ _ Hu H Hmk).
Qed.

Lemma pool_facts (folders : list string) (sched : list nat) (w : world) :
  let out := thread_pool E A sel folders sched w in
  grows w (snd out) /\
  map untimed (fst out) ≡ₚ map (fun f => untimed (alone E A f)) folders /\
  (forall folder, folder ∈ folders -> makes_directory folder ->
     OUTPUT_ROOT A ∈ dirs (snd out)).
Proof.
  intros out. subst out.
  destruct (thread_pool_final E A sel folders sched w)
    as ((Hsnd & Hok & Hsim & Hperm & Hgr) & Hdone).
  assert (Hinit : Forall (fun tf => made_root E A (fst tf)
                                      (pool_world (submit_all A folders w)))
                         (futures (submit_all A folders w))).
  { apply Forall_forall. intros tf Hin. unfold submit_all in Hin.
    cbn [futures] in Hin. apply list_elem_of_fmap in Hin as (f & -> & _).
    right. exact I. }
  pose proof (pool_steps_made_root E A sel
                (sched ++ drain (length folders)) _ Hinit) as HK.
  unfold thread_pool. cbn [fst snd].
  set (st := fold_left (pool_step E A sel) (sched ++ drain (length folders))
                       (submit_all A folders w)) in *.
  split; [exact Hgr|]. split.
  - rewrite Hperm.
    rewrite (done_results_untimed E A sel (futures st) (pool_world st)
               Hdone Hok Hsim), Hsnd. reflexivity.
  - intros folder Hin Hmk. rewrite <- Hsnd in Hin.
    apply list_elem_of_fmap in Hin as ([t f] & -> & Htf). cbn [snd] in *.
    rewrite Forall_forall in HK, Hdone, Hok, Hsim.
    specialize (HK _ Htf). specialize (Hdone _ Htf).
    specialize (Hok _ Htf). specialize (Hsim _ Htf). cbn [fst snd] in *.
    destruct t as [p|l todo|[r|e]]; try discriminate; [|destruct Hok].
    destruct Hsim as [k Hk].
    destruct (fst (run_task E A sel k
                     (Submitted (path_join (INPUT_ROOT A) f)) empty_world))
      as [p'|l' todo'|[r'|e']] eqn:Hrun; simpl in Hk; try contradiction.
    apply run_task_done_value in Hrun. subst r'.
    exact (made_root_done f r _ Hk HK Hmk).
Qed.

Lemma collect_facts (sched : list nat) (w : world) :
  let out := collect E A sched w in
  grows w (snd out) /\
  map untimed (fst out)
  ≡ₚ map (fun f => untimed (alone E A f)) (scene_folders E A) /\
  (forall folder, folder ∈ scene_folders E A -> makes_directory folder ->
     OUTPUT_ROOT A ∈ dirs (snd out)).
Proof.
  intros out. subst out. unfold collect.
  destruct (scene_folders E A) as [|folder [|folder' rest]].
  - apply pool_facts.
  - destruct (direct_call_facts folder w) as (Hg & Hu & Hr).
    destruct (process_scene E A sel (path_join (INPUT_ROOT A) folder) w)
      as [result w1]. cbn [fst snd map] in *.
    split; [exact Hg|]. split; [rewrite Hu; reflexivity|].
    intros f Hin. apply list_elem_of_singleton in Hin as ->. exact Hr.
  - apply pool_facts.
Qed.

End CollectFacts.



Section DirsFacts.
Variable E : env.
Variable A : args.
Variable sel : list string.

Lemma save_index_dirs_unmade (arr : grid) (name : string)
    (prof : option raster_profile) (dir : string) (w : world) :
  makedirs_ok E dir = false ->
  dirs (snd (save_index E arr name prof dir w)) = dirs w.
Proof. intros H. unfold save_index, persist. rewrite H. reflexivity. Qed.

Lemma load_step_dirs (kf : string * string) (l : locals) (w : world) :
  dirs (snd (load_step E kf (l, w))) = dirs w.
Proof.
  destruct kf as [k f]. unfold load_step, load_band.
  destruct (file_at E (path_join (scene_path l) f)); reflexivity.
Qed.

Lemma index_step_dirs (path : string) (s : index_spec) (l : locals) (w : world) :
  scene_name l = basename path ->
  let lw := index_step E A sel s (l, w) in
  (dirs (snd lw) = dirs w \/
   (makedirs_ok E (path_join (OUTPUT_ROOT A) (basename path)) = true /\
    entries (results (fst lw)) <> ∅)) /\
  (entries (results l) <> ∅ -> entries (results (fst lw)) <> ∅).
Proof.
  intros Hn lw. subst lw.
  destruct (index_step_outcome E A sel s l w)
    as [e Hp|Hp Hg|e Hp Hg Hc|arr Hp Hg Hc];
    try (split; [left; reflexivity|intros H; exact H]).
  destruct (makedirs_ok E (output_dir A l)) eqn:Hm.
  - destruct (save_index _ _ _ _ _ _) as [[ok p] w'].
    cbn [fst snd results entries]. unfold output_dir in Hm. rewrite Hn in Hm.
    split; [right; split; [exact Hm|]|intros _]; apply insert_non_empty.
  - pose proof (save_index_dirs_unmade arr (idx_name s) (profile l)
                  (output_dir A l) w Hm) as H.
    destruct (save_index _ _ _ _ _ _) as [[ok p] w'].
    cbn [fst snd results entries] in *.
    split; [left; exact H|intros _; apply insert_non_empty].
Qed.

(** A turn of a call leaves the directories as they are unless the call
    has then made a save in a directory that can be created; and a call
    that has made one has made one ever after. *)
Lemma task_step_dirs (path : string) (t : task) (w : world) :
  task_ok path t w ->
  (dirs (snd (task_step E A sel t w)) = dirs w \/
   has_made E A path (fst (task_step E A sel t w))) /\
  (has_made E A path t -> has_made E A path (fst (task_step E A sel t w))).
Proof.
  unfold task_step, has_made. destruct t as [p|l [|[kf|s] todo]|[r|e]];
    cbn [task_ok].
  - intros _.
    assert (H : dirs (snd (scene_begin E p w)) = dirs w) by reflexivity.
    destruct (scene_begin E p w) as [l0 w0]. cbn [fst snd] in *.
    split; [left; exact H|intros [_ []]].
  - intros _.
    assert (H : dirs (snd (scene_finish E (l, w))) = dirs w /\
                entries (fst (scene_finish E (l, w))) = entries (results l))
      by (split; reflexivity).
    destruct (scene_finish E (l, w)) as [r w1]. cbn [fst snd] in *.
    destruct H as [Hd He]. split; [left; exact Hd|].
    rewrite He. intros H; exact H.
  - intros _.
    pose proof (load_step_dirs kf l w) as Hd.
    pose proof (load_step_frame E kf l w) as Hf.
    destruct (load_step E kf (l, w)) as [l1 w1]. cbn [fst snd] in *.
    cbv zeta in Hf. destruct Hf as (_ & _ & _ & Hr & _).
    split; [left; exact Hd|]. rewrite Hr. intros H; exact H.
  - intros [Hn _].
    pose proof (index_step_dirs path s l w Hn) as H. cbv zeta in H.
    destruct (index_step E A sel s (l, w)) as [l1 w1]. cbn [fst snd] in *.
    destruct H as [H1 H2]. split.
    + destruct H1 as [H1|H1]; [left; exact H1|right; exact H1].
    + intros [Hm He]. split; [exact Hm|apply H2, He].
  - intros _. split; [left; reflexivity|intros H; exact H].
  - intros [].
Qed.

Lemma run_task_has_made (k : nat) (path : string) (t : task) (w : world) :
  task_ok path t w -> has_made E A path t ->
  has_made E A path (fst (run_task E A sel k t w)).
Proof.
  revert t w. induction k as [|k IH]; intros t w Hok H; [exact H|].
  rewrite run_task_S. apply IH; [apply task_step_ok, Hok|].
  apply (task_step_dirs path t w Hok), H.
Qed.

Lemma run_task_dirs (k : nat) (path : string) (t : task) (w : world) :
  task_ok path t w ->
  dirs (snd (run_task E A sel k t w)) = dirs w \/
  has_made E A path (fst (run_task E A sel k t w)).
Proof.
  revert t w. induction k as [|k IH]; intros t w Hok; [left; reflexivity|].
  rewrite run_task_S.
  pose proof (task_step_ok E A sel path t w Hok) as Hok1.
  destruct (task_step_dirs path t w Hok) as [[H|H] _].
  - destruct (IH _ _ Hok1) as [H1|H1]; [left; congruence|right; exact H1].
  - right. apply run_task_has_made; assumption.
Qed.

Lemma pool_step_world_dirs (st : pool) (i : nat) (t : task) (f : string) :
  futures st !! i = Some (t, f) -> is_done t = false ->
  dirs (pool_world (pool_step E A sel st i))
  = dirs (snd (task_step E A sel t (pool_world st))).
Proof.
  intros Hi Hd. unfold pool_step. rewrite Hi.
  destruct (task_step E A sel t (pool_world st)) as [t' w'].
  destruct t as [p|l todo|r]; try discriminate;
    destruct t' as [p'|l' todo'|[r'|e']]; reflexivity.
Qed.

Lemma pool_step_dirs (folders : list string) (w0 : world) (st : pool)
    (i : nat) (ds : gset string) :
  pool_inv E A sel folders w0 st ->
  (dirs (pool_world st) = ds \/
   exists j t f, futures st !! j = Some (t, f) /\
                 has_made E A (path_join (INPUT_ROOT A) f) t) ->
  dirs (pool_world (pool_step E A sel st i)) = ds \/
  exists j t f, futures (pool_step E A sel st i) !! j = Some (t, f) /\
                has_made E A (path_join (INPUT_ROOT A) f) t.
Proof.
  intros (_ & Hok & _) Hinv.
  destruct (futures st !! i) as [[t f]|] eqn:Hi;
    [|rewrite pool_step_idle by auto; exact Hinv].
  destruct (is_done t) eqn:Hd.
  { destruct t as [p|l todo|r]; try discriminate.
    rewrite pool_step_idle by eauto. exact Hinv. }
  destruct (pool_step_turn E A sel st i t f Hi Hd) as (Hf & _ & _).
  rewrite (pool_step_world_dirs st i t f Hi Hd), Hf.
  assert (Hok_i := proj1 (Forall_lookup _ _) Hok i (t, f) Hi).
  cbn [fst snd] in Hok_i.
  destruct (task_step_dirs _ t (pool_world st) Hok_i) as [Hstep Hkeep].
  assert (Hlt : (i < length (futures st))%nat)
    by (apply lookup_lt_is_Some_1; eauto).
  destruct Hinv as [Hds|(j & tj & fj & Hj & Hm)].
  - destruct Hstep as [H|H]; [left; congruence|].
    right. exists i, (fst (task_step E A sel t (pool_world st))), f.
    split; [apply list_lookup_insert_eq, Hlt|exact H].
  - right. destruct (decide (i = j)) as [->|Hne].
    + rewrite Hi in Hj. injection Hj as <- <-.
      exists j, (fst (task_step E A sel t (pool_world st))), f.
      split; [apply list_lookup_insert_eq, Hlt|apply Hkeep, Hm].
    + exists j, tj, fj. split; [|exact Hm].
      rewrite list_lookup_insert_ne by exact Hne. exact Hj.
Qed.

Lemma pool_steps_dirs (folders : list string) (w0 : world) (steps : list nat)
    (st : pool) (ds : gset string) :
  pool_inv E A sel folders w0 st ->
  (dirs (pool_world st) = ds \/
   exists j t f, futures st !! j = Some (t, f) /\
                 has_made E A (path_join (INPUT_ROOT A) f) t) ->
  let st' := fold_left (pool_step E A sel) steps st in
  dirs (pool_world st') = ds \/
  exists j t f, futures st' !! j = Some (t, f) /\
                has_made E A (path_join (INPUT_ROOT A) f) t.
Proof.
  revert st. induction steps as [|i steps IH]; intros st Hinv H; [exact H|].
  cbn. apply IH; [apply pool_step_inv, Hinv|].
  apply (pool_step_dirs folders w0 st i ds Hinv H).
Qed.

End DirsFacts.

Section AbortFacts.
Variable E : env.
Variable A : args.

Local Abbreviation sel := (SELECTED_INDICES A).

Local Abbreviation makes_directory folder :=
  (entries (alone E A folder) <> ∅ /\
   makedirs_ok E (result_dir A (alone E A folder)) = true).

Lemma alone_scene (folder : string) :
  scene (alone E A folder) = basename (path_join (INPUT_ROOT A) folder).
Proof. apply (process_scene_clock E A sel). Qed.

Lemma has_made_done (folder : string) (r : scene_result) :
  untimed r = untimed (alone E A folder) ->
  has_made E A (path_join (INPUT_ROOT A) folder) (Done (Ok r)) ->
  makes_directory folder.
Proof.
  unfold untimed. intros [= Hs He] [Hm Hne].
  split; [rewrite <- He; exact Hne|].
  unfold result_dir. rewrite alone_scene. exact Hm.
Qed.

Lemma direct_call_dirs (folder : string) (w : world) :
  dirs (snd (process_scene E A sel (path_join (INPUT_ROOT A) folder) w))
  = dirs w \/
  makes_directory folder.
Proof.
  pose proof (run_task_dirs E A sel task_fuel
                (path_join (INPUT_ROOT A) folder)
                (Submitted (path_join (INPUT_ROOT A) folder)) w eq_refl) as H.
  rewrite run_task_fuel in H. cbn [fst snd] in H.
  destruct H as [H|H]; [left; exact H|right].
  apply (has_made_done folder _
           (process_scene_untimed E A sel _ w empty_world) H).
Qed.

Lemma pool_dirs (folders : list string) (sched : list nat) (w : world) :
  dirs (snd (thread_pool E A sel folders sched w)) = dirs w \/
  exists folder, folder ∈ folders /\ makes_directory folder.
Proof.
  destruct (thread_pool_final E A sel folders sched w)
    as ((Hsnd & Hok & Hsim & _) & Hdone).
  pose proof (pool_steps_dirs E A sel folders w
                (sched ++ drain (length folders)) (submit_all A folders w)
                (dirs w) (pool_inv_submit E A sel folders w)
                (or_introl eq_refl)) as H.
  cbv zeta in H. unfold thread_pool. cbn [fst snd].
  set (st := fold_left (pool_step E A sel) (sched ++ drain (length folders))
                       (submit_all A folders w)) in *.
  destruct H as [H|(j & t & f & Hj & Hm)]; [left; exact H|right].
  apply list_elem_of_lookup_2 in Hj.
  exists f. split.
  { rewrite <- Hsnd. apply list_elem_of_fmap. exists (t, f). auto. }
  rewrite Forall_forall in Hdone, Hok, Hsim.
  specialize (Hdone _ Hj). specialize (Hok _ Hj). specialize (Hsim _ Hj).
  cbn [fst snd] in *.
  destruct t as [p|l todo|[r|e]]; try discriminate; [|destruct Hok].
  destruct Hsim as [k Hk].
  destruct (fst (run_task E A sel k
                   (Submitted (path_join (INPUT_ROOT A) f)) empty_world))
    as [p'|l' todo'|[r'|e']] eqn:Hrun; simpl in Hk; try contradiction.
  apply run_task_done_value in Hrun. subst r'.
  exact (has_made_done f r Hk Hm).
Qed.

Lemma collect_dirs (sched : list nat) (w : world) :
  dirs (snd (collect E A sched w)) = dirs w \/
  exists folder, folder ∈ scene_folders E A /\ makes_directory folder.
Proof.
  unfold collect.
  destruct (scene_folders E A) as [|folder [|folder' rest]].
  - apply pool_dirs.
  - pose proof (direct_call_dirs folder w) as H.
    destruct (process_scene E A sel (path_join (INPUT_ROOT A) folder) w)
      as [result w1]. cbn [fst snd] in *.
    destruct H as [H|H]; [left; exact H|right].
    exists folder. split; [apply list_elem_of_here|exact H].
  - apply pool_dirs.
Qed.

End AbortFacts.

(** X10: when the output root does not exist as the run starts and no
    scene folder attempts an index (the result of each folder processed
    on its own has no entry, so [save_index] and its [os.makedirs] are
    never called), no directory is ever created, [save_summary] raises
    [OSError] ([FileNotFoundError]) out of the run, and no summary is
    written, however many scenes were processed and however the workers
    were scheduled. *)
Theorem run_aborts_when_no_directory_was_made
    (E : env) (A : args) (sched : list nat) (ds : gset string)
    (rs : gmap string (grid * raster_profile)) (n : nat) :
  OUTPUT_ROOT A ∉ ds ->
  (forall folder, folder ∈ scene_folders E A ->
     entries (alone E A folder) = ∅) ->
  let out := run_batch E A sched (start_world ds rs n) in
  fst out = Raise OSError /\ summaries (snd out) = [] /\ dirs (snd out) = ds.
Proof.
  intros Hroot Hnone out. subst out. rewrite run_batch_collect.
  destruct (collect_facts E A sched
              (logging LogBatchStarted (start_world ds rs n)))
    as ((Hs & _) & _).
  destruct (collect_dirs E A sched
              (logging LogBatchStarted (start_world ds rs n)))
    as [Hd|(folder & Hin & Hne & Hm)].
  - destruct (collect E A sched (logging LogBatchStarted (start_world ds rs n)))
      as [all_results w2]. cbn [fst snd] in *.
    unfold save_summary. rewrite bool_decide_eq_false_2.
    + cbn [fst snd andb]. split; [reflexivity|]. split; [exact Hs|exact Hd].
    + rewrite Hd. exact Hroot.
  - destruct (Hne (Hnone folder Hin)).
Qed.

Lemma run_aborts_when_no_directory_was_made_witness :
  let out := run_batch env_two_empty args_all [1; 0; 1]%nat
               (start_world ∅ ∅ 0) in
  fst out = Raise OSError /\ summaries (snd out) = [] /\ dirs (snd out) = ∅.
Proof.
  apply (run_aborts_when_no_directory_was_made env_two_empty args_all
           [1; 0; 1]%nat ∅ ∅ 0).
  - apply not_elem_of_empty.
  - intros folder Hin.
    change (folder ∈ ["s1"%string; "s2"%string]) in Hin.
    apply elem_of_cons in Hin as [->|Hin]; [vm_compute; reflexivity|].
    apply list_elem_of_singleton in Hin as ->. vm_compute. reflexivity.
Defined.

(* ===================================================================== *)
(** * Scene folders and their directories                                 *)
(* ===================================================================== *)

Lemma basename_from_join (acc a b : string) :
  basename_from acc (path_join a b) = basename_from EmptyString b.
Proof.
  unfold path_join. revert acc. induction a as [|c a IH]; intros acc.
  - reflexivity.
  - change (basename_from acc (String c a ++ "/" ++ b))%string
      with (if Ascii.eqb c "/"%char
            then basename_from EmptyString (a ++ "/" ++ b)%string
            else basename_from (acc ++ String c EmptyString)%string
                               (a ++ "/" ++ b)%string).
    destruct (Ascii.eqb c "/"%char); apply IH.
Qed.

Lemma basename_from_no_slash (acc s : string) :
  no_slash s = true -> basename_from acc s = (acc ++ s)%string.
Proof.
  revert acc. induction s as [|c s IH]; intros acc H.
  - symmetry. apply string_app_empty.
  - cbn [no_slash] in H. apply andb_true_iff in H as [Hc Hs].
    change (basename_from acc (String c s))
      with (if Ascii.eqb c "/"%char
            then basename_from EmptyString s
            else basename_from (acc ++ String c EmptyString)%string s).
    destruct (Ascii.eqb c "/"%char); [discriminate|].
    rewrite IH by exact Hs. apply string_app_snoc.
Qed.

(** [os.path.basename(os.path.join(a, b))] is [b] for a name [b]. *)
Lemma basename_join (a b : string) :
  no_slash b = true -> basename (path_join a b) = b.
Proof.
  intros H. unfold basename.
  rewrite basename_from_join, basename_from_no_slash by exact H. reflexivity.
Qed.

Lemma path_join_assoc (a b c : string) :
  path_join (path_join a b) c = path_join a (path_join b c).
Proof.
  unfold path_join. induction a as [|d a IH]; [reflexivity|].
  change (String d ((a ++ "/" ++ b) ++ "/" ++ c)
          = String d (a ++ "/" ++ b ++ "/" ++ c))%string.
  f_equal. exact IH.
Qed.

Lemma path_join_name_inj (a b x y : string) :
  no_slash a = true -> no_slash b = true ->
  path_join a x = path_join b y -> a = b.
Proof.
  unfold path_join. revert b. induction a as [|c a IH]; intros [|d b] Ha Hb H.
  - reflexivity.
  - exfalso. cbn [no_slash] in Hb. apply andb_true_iff in Hb as [Hd _].
    change (String "/" x = String d (b ++ "/" ++ y))%string in H.
    injection H as <- _. discriminate.
  - exfalso. cbn [no_slash] in Ha. apply andb_true_iff in Ha as [Hc _].
    change (String c (a ++ "/" ++ x) = String "/" y)%string in H.
    injection H as -> _. discriminate.
  - cbn [no_slash] in Ha, Hb.
    apply andb_true_iff in Ha as [_ Ha]. apply andb_true_iff in Hb as [_ Hb].
    change (String c (a ++ "/" ++ x) = String d (b ++ "/" ++ y))%string in H.
    injection H as -> H. f_equal. apply (IH b Ha Hb H).
Qed.

(** X11: the scene name of the result of a scene folder, a name as
    [os.listdir] gives it, is the name of the folder, and the call
    writes below [<output root>/<folder>] only: it leaves every file in
    the directory of every other scene folder as it was.  So no two
    calls of a run on distinct folders write one file. *)
Theorem scenes_write_to_their_own_directories
    (E : env) (A : args) (sel : list string) (folder other : string)
    (w : world) :
  no_slash folder = true -> no_slash other = true -> folder <> other ->
  let out := process_scene E A sel (path_join (INPUT_ROOT A) folder) w in
  scene (fst out) = folder /\
  forall file : string,
    rasters (snd out) !! path_join (path_join (OUTPUT_ROOT A) other) file
    = rasters w !! path_join (path_join (OUTPUT_ROOT A) other) file.
Proof.
  intros Hf Ho Hne out. subst out. split.
  - destruct (process_scene_clock E A sel (path_join (INPUT_ROOT A) folder) w)
      as (_ & _ & ->). apply basename_join, Hf.
  - intros file.
    destruct (process_scene_rasters_cases E A sel
                (path_join (INPUT_ROOT A) folder) w
                (path_join (path_join (OUTPUT_ROOT A) other) file))
      as [H|(s & _ & _ & Hp & _)]; [exact H|exfalso].
    rewrite (basename_join _ _ Hf), !path_join_assoc in Hp.
    apply path_join_inj in Hp.
    apply Hne. symmetry. exact (path_join_name_inj _ _ _ _ Ho Hf Hp).
Qed.

Lemma scenes_write_to_their_own_directories_witness :
  let out := process_scene env_b4_b5_b7 args_all ALL_INDICES
               (path_join (INPUT_ROOT args_all) "s") empty_world in
  scene (fst out) = "s"%string /\
  forall file : string,
    rasters (snd out) !! path_join (path_join (OUTPUT_ROOT args_all) "t") file
    = rasters empty_world
        !! path_join (path_join (OUTPUT_ROOT args_all) "t") file.
Proof.
  apply (scenes_write_to_their_own_directories env_b4_b5_b7 args_all
           ALL_INDICES "s" "t" empty_world).
  - reflexivity.
  - reflexivity.
  - discriminate.
Defined.

(* ===================================================================== *)
(** * The rasters of a scene under the pool                               *)
(* ===================================================================== *)

Section RasterFacts.
Variable E : env.
Variable A : args.
Variable sel : list string.

Lemma save_index_rasters_sim (arr : grid) (name : string)
    (prof : option raster_profile) (dir : string) (w w' : world) (p : string) :
  rasters w !! p = rasters w' !! p ->
  rasters (snd (save_index E arr name prof dir w)) !! p
  = rasters (snd (save_index E arr name prof dir w')) !! p.
Proof.
  intros H.
  destruct (decide (p = path_join dir (name ++ ".tif"))) as [->|Hne];
    unfold save_index, persist;
    (destruct (makedirs_ok E dir); cbn; [|exact H]);
    (destruct prof as [q|]; cbn; [|exact H]);
    (destruct (write_ok E _ _ _); cbn; [|exact H]).
  - rewrite !lookup_insert_eq. reflexivity.
  - rewrite !lookup_insert_ne by congruence. exact H.
Qed.

Lemma index_step_rasters_sim (s : index_spec) (l l' : locals) (w w' : world)
    (p : string) :
  retime 0 l = retime 0 l' ->
  rasters w !! p = rasters w' !! p ->
  rasters (snd (index_step E A sel s (l, w))) !! p
  = rasters (snd (index_step E A sel s (l', w'))) !! p.
Proof.
  intros Hl H. apply retime_eq_fields in Hl as (Hsp & Hn & Hb & Hc & Hr & Hp).
  unfold index_step, output_dir. rewrite <- Hp, <- Hb, <- Hc, <- Hn.
  destruct (pending l); [exact H|].
  destruct (_ && _); [|exact H].
  destruct (idx_compute s (bands l)) as [arr|e]; [|exact H].
  pose proof (save_index_rasters_sim arr (idx_name s) (profile l)
                (path_join (OUTPUT_ROOT A) (scene_name l)) w w' p H) as Hs.
  destruct (save_index E arr (idx_name s) (profile l) _ w) as [[ok q] w1].
  destruct (save_index E arr (idx_name s) (profile l) _ w') as [[ok' q'] w1'].
  exact Hs.
Qed.

(** A turn does to a file what it does to it in any other world in
    which the future is in the same state. *)
Lemma task_step_rasters_sim (t t' : task) (w w' : world) (p : string) :
  task_sim t t' ->
  rasters w !! p = rasters w' !! p ->
  rasters (snd (task_step E A sel t w)) !! p
  = rasters (snd (task_step E A sel t' w')) !! p.
Proof.
  destruct t as [q|l todo|[r|e]], t' as [q'|l' todo'|[r'|e']];
    simpl; try contradiction; intros Hs H.
  - subst q'. unfold task_step.
    assert (H1 : rasters (snd (scene_begin E q w)) = rasters w) by reflexivity.
    assert (H2 : rasters (snd (scene_begin E q w')) = rasters w')
      by reflexivity.
    destruct (scene_begin E q w) as [l0 w0].
    destruct (scene_begin E q w') as [l0' w0']. cbv beta iota. cbn [fst snd] in *.
    rewrite ?H1, ?H2. exact H.
  - destruct Hs as [Hl <-]. unfold task_step.
    destruct todo as [|[kf|s] todo].
    + assert (H1 : rasters (snd (scene_finish E (l, w))) = rasters w)
        by reflexivity.
      assert (H2 : rasters (snd (scene_finish E (l', w'))) = rasters w')
        by reflexivity.
      destruct (scene_finish E (l, w)) as [r0 w0].
      destruct (scene_finish E (l', w')) as [r0' w0']. cbv beta iota. cbn [fst snd] in *.
      rewrite ?H1, ?H2. exact H.
    + pose proof (load_step_frame E kf l w) as H1.
      pose proof (load_step_frame E kf l' w') as H2.
      destruct (load_step E kf (l, w)) as [l1 w1].
      destruct (load_step E kf (l', w')) as [l1' w1']. cbv beta iota.
      cbn [fst snd] in *.
      cbv zeta in H1, H2.
      destruct H1 as (_ & _ & _ & _ & _ & ->).
      destruct H2 as (_ & _ & _ & _ & _ & ->). exact H.
    + pose proof (index_step_rasters_sim s l l' w w' p Hl H) as H1.
      destruct (index_step E A sel s (l, w)) as [l1 w1].
      destruct (index_step E A sel s (l', w')) as [l1' w1']. cbv beta iota.
      exact H1.
  - exact H.
  - exact H.
Qed.

Lemma run_task_rasters_sim (k : nat) (t t' : task) (w w' : world) (p : string) :
  task_sim t t' ->
  rasters w !! p = rasters w' !! p ->
  rasters (snd (run_task E A sel k t w)) !! p
  = rasters (snd (run_task E A sel k t' w')) !! p.
Proof.
  revert t t' w w'. induction k as [|k IH]; intros t t' w w' Hs H; [exact H|].
  rewrite !run_task_S. apply IH.
  - apply task_step_sim, Hs.
  - apply task_step_rasters_sim; assumption.
Qed.

Lemma process_scene_rasters_world (path : string) (w w' : world) (p : string) :
  rasters w !! p = rasters w' !! p ->
  rasters (snd (process_scene E A sel path w)) !! p
  = rasters (snd (process_scene E A sel path w')) !! p.
Proof.
  intros H.
  pose proof (run_task_rasters_sim task_fuel (Submitted path) (Submitted path)
                w w' p eq_refl H) as Hr.
  rewrite !run_task_fuel in Hr. exact Hr.
Qed.

(** A turn of the call for the scene at [path] leaves a file as it is
    unless it is a raster of the directory of that scene. *)
Lemma task_step_rasters_cases (path : string) (t : task) (w : world)
    (p : string) :
  task_ok path t w ->
  rasters (snd (task_step E A sel t w)) !! p = rasters w !! p \/
  exists name,
    p = path_join (path_join (OUTPUT_ROOT A) (basename path)) (name ++ ".tif").
Proof.
  unfold task_step. destruct t as [q|l [|[kf|s] todo]|r]; cbn [task_ok].
  - intros _. left.
    assert (H : rasters (snd (scene_begin E q w)) = rasters w) by reflexivity.
    destruct (scene_begin E q w) as [l0 w0]. cbv beta iota.
    cbn [snd] in *. rewrite H.
    reflexivity.
  - intros _. left.
    assert (H : rasters (snd (scene_finish E (l, w))) = rasters w)
      by reflexivity.
    destruct (scene_finish E (l, w)) as [r0 w0]. cbv beta iota.
    cbn [snd] in *. rewrite H.
    reflexivity.
  - intros _. left. pose proof (load_step_frame E kf l w) as H.
    destruct (load_step E kf (l, w)) as [l1 w1]. cbv beta iota.
    cbn [fst snd] in *.
    cbv zeta in H. destruct H as (_ & _ & _ & _ & _ & ->). reflexivity.
  - intros [Hn _].
    pose proof (index_step_rasters_cases E A sel s l w p) as H.
    destruct (index_step E A sel s (l, w)) as [l1 w1]. cbv beta iota.
    cbn [fst snd] in *.
    destruct H as [H|(Hp & _)]; [left; exact H|right].
    exists (idx_name s). rewrite Hp. unfold out_path, output_dir.
    rewrite Hn. reflexivity.
  - intros _. left. reflexivity.
Qed.

Lemma run_task_done_world (k : nat) (path : string) (w : world)
    (r : res scene_result) :
  fst (run_task E A sel k (Submitted path) w) = Done r ->
  snd (run_task E A sel k (Submitted path) w)
  = snd (process_scene E A sel path w).
Proof.
  intros H.
  pose proof (run_task_add E A sel k task_fuel (Submitted path) w) as H1.
  pose proof (run_task_add E A sel task_fuel k (Submitted path) w) as H2.
  rewrite H, run_task_done in H1.
  rewrite run_task_fuel in H2. cbn [fst snd] in H2. rewrite run_task_done in H2.
  rewrite Nat.add_comm, H2 in H1. congruence.
Qed.

Lemma pool_step_world_rasters (st : pool) (i : nat) (t : task) (f : string) :
  futures st !! i = Some (t, f) -> is_done t = false ->
  rasters (pool_world (pool_step E A sel st i))
  = rasters (snd (task_step E A sel t (pool_world st))).
Proof.
  intros Hi Hd. unfold pool_step. rewrite Hi.
  destruct (task_step E A sel t (pool_world st)) as [t' w'].
  destruct t as [q|l todo|r]; try discriminate;
    destruct t' as [q'|l' todo'|[r'|e']]; reflexivity.
Qed.

End RasterFacts.

Section PoolRasters.
Variable E : env.
Variable A : args.
Variable sel : list string.

Lemma folder_dirs_differ (f g file name : string) :
  no_slash f = true -> no_slash g = true -> f <> g ->
  path_join (path_join (OUTPUT_ROOT A) g) file
  <> path_join (path_join (OUTPUT_ROOT A) f) name.
Proof.
  intros Hf Hg Hne Heq. rewrite !path_join_assoc in Heq.
  apply path_join_inj in Heq. apply Hne. symmetry.
  exact (path_join_name_inj _ _ _ _ Hg Hf Heq).
Qed.

Lemma submit_all_tracks (folders : list string) (w : world) :
  Forall (tracks E A sel w (pool_world (submit_all A folders w)))
         (futures (submit_all A folders w)).
Proof.
  apply Forall_forall. intros tf Hin. unfold submit_all in Hin.
  cbn [futures] in Hin. apply list_elem_of_fmap in Hin as (f & -> & _).
  exists 0%nat. split; [reflexivity|]. intros file. reflexivity.
Qed.

(** A turn of one worker keeps every future on the track of its own
    call: the files of the directory of its scene are touched by its
    own turns only. *)
Lemma pool_step_tracks (folders : list string) (w0 w1 : world) (st : pool)
    (i : nat) :
  NoDup folders -> Forall (fun f => no_slash f = true) folders ->
  pool_inv E A sel folders w1 st ->
  Forall (tracks E A sel w0 (pool_world st)) (futures st) ->
  Forall (tracks E A sel w0 (pool_world (pool_step E A sel st i)))
         (futures (pool_step E A sel st i)).
Proof.
  intros Hnd Hns (Hsnd & Hok & _) Hall.
  destruct (futures st !! i) as [[t f]|] eqn:Hi;
    [|rewrite pool_step_idle by auto; exact Hall].
  destruct (is_done t) eqn:Hd.
  { destruct t as [q|l todo|r]; try discriminate.
    rewrite pool_step_idle by eauto. exact Hall. }
  destruct (pool_step_turn E A sel st i t f Hi Hd) as (Hf & _ & _).
  pose proof (pool_step_world_rasters E A sel st i t f Hi Hd) as Hr.
  assert (Hok_i := proj1 (Forall_lookup _ _) Hok i (t, f) Hi).
  assert (Hall_i := proj1 (Forall_lookup _ _) Hall i (t, f) Hi).
  cbn [fst snd] in Hok_i.
  assert (Hin : forall j tj fj, futures st !! j = Some (tj, fj) ->
                                folders !! j = Some fj).
  { intros j tj fj Hj. rewrite <- Hsnd, list_lookup_fmap, Hj. reflexivity. }
  rewrite Hf. apply Forall_lookup. intros j [tj fj] Hj.
  apply list_lookup_insert_Some in Hj as [(<- & Heq & Hlt)|(Hne & Hj)].
  - injection Heq as <- <-. destruct Hall_i as (k & Hsim & Hras).
    exists (k + 1)%nat. cbn [fst snd] in *.
    rewrite run_task_add, run_task_S. cbn [run_task fst snd].
    split; [apply task_step_sim, Hsim|].
    intros file. rewrite Hr. apply task_step_rasters_sim; [exact Hsim|].
    apply Hras.
  - destruct (proj1 (Forall_lookup _ _) Hall j (tj, fj) Hj)
      as (k & Hsim & Hras).
    exists k. cbn [fst snd] in *. split; [exact Hsim|].
    intros file. rewrite <- Hras, Hr.
    destruct (task_step_rasters_cases E A sel _ t (pool_world st)
                (path_join (path_join (OUTPUT_ROOT A) fj) file) Hok_i)
      as [H|[name Hp]]; [exact H|exfalso].
    assert (Hfi : folders !! i = Some f) by (eapply Hin, Hi).
    assert (Hfj : folders !! j = Some fj) by (eapply Hin, Hj).
    rewrite Forall_forall in Hns.
    assert (Hsf : no_slash f = true)
      by (eapply Hns, list_elem_of_lookup_2, Hfi).
    assert (Hsj : no_slash fj = true)
      by (eapply Hns, list_elem_of_lookup_2, Hfj).
    rewrite (basename_join _ _ Hsf) in Hp.
    apply (folder_dirs_differ f fj file (name ++ ".tif") Hsf Hsj); [|exact Hp].
    intros ->. apply Hne. exact (NoDup_lookup _ _ _ _ Hnd Hfi Hfj).
Qed.

Lemma pool_steps_tracks (folders : list string) (w0 w1 : world)
    (steps : list nat) (st : pool) :
  NoDup folders -> Forall (fun f => no_slash f = true) folders ->
  pool_inv E A sel folders w1 st ->
  Forall (tracks E A sel w0 (pool_world st)) (futures st) ->
  Forall (tracks E A sel w0
            (pool_world (fold_left (pool_step E A sel) steps st)))
         (futures (fold_left (pool_step E A sel) steps st)).
Proof.
  intros Hnd Hns. revert st.
  induction steps as [|i steps IH]; intros st Hinv H; [exact H|].
  cbn. apply IH; [apply pool_step_inv, Hinv|].
  apply (pool_step_tracks folders w0 w1 st i Hnd Hns Hinv H).
Qed.

(** When the pool is left, the directory of each scene folder holds
    what the call for that folder leaves when it runs on its own. *)
Lemma pool_rasters (folders : list string) (sched : list nat) (w : world)
    (folder file : string) :
  NoDup folders -> Forall (fun f => no_slash f = true) folders ->
  folder ∈ folders ->
  rasters (snd (thread_pool E A sel folders sched w))
    !! path_join (path_join (OUTPUT_ROOT A) folder) file
  = rasters (snd (process_scene E A sel (path_join (INPUT_ROOT A) folder) w))
      !! path_join (path_join (OUTPUT_ROOT A) folder) file.
Proof.
  intros Hnd Hns Hin.
  destruct (thread_pool_final E A sel folders sched w)
    as ((Hsnd & _) & Hdone).
  pose proof (pool_steps_tracks folders w w
                (sched ++ drain (length folders)) (submit_all A folders w)
                Hnd Hns (pool_inv_submit E A sel folders w)
                (submit_all_tracks folders w)) as Htr.
  unfold thread_pool. cbn [fst snd].
  set (st := fold_left (pool_step E A sel) (sched ++ drain (length folders))
                       (submit_all A folders w)) in *.
  rewrite <- Hsnd in Hin.
  apply list_elem_of_fmap in Hin as ([t f] & -> & Htf).
  rewrite Forall_forall in Htr, Hdone.
  specialize (Hdone _ Htf). destruct (Htr _ Htf) as (k & Hsim & Hras).
  cbn [fst snd] in *. rewrite Hras.
  destruct t as [q|l todo|r]; try discriminate.
  destruct (fst (run_task E A sel k
                   (Submitted (path_join (INPUT_ROOT A) f)) w))
    as [q'|l' todo'|r'] eqn:Hrun;
    try (destruct r as [r|e]; simpl in Hsim; contradiction).
  rewrite (run_task_done_world E A sel k _ w r' Hrun). reflexivity.
Qed.

End PoolRasters.

Lemma save_summary_rasters (E : env) (A : args) (rs : list scene_result)
    (dir : string) (w : world) :
  rasters (snd (save_summary E A rs dir w)) = rasters w.
Proof. unfold save_summary. destruct (_ && _); reflexivity. Qed.

(** X12: the rasters of a scene do not depend on the other scenes of
    the run, nor on how the worker threads were scheduled.  For scene
    folders as [os.listdir] gives them (distinct names without a slash),
    every file of the output directory of a scene folder is, when the
    run ends, exactly as a single call of [process_scene] on that
    folder leaves it when it runs on its own on the output tree with
    which the run started: the same grid and the same profile, or no
    file. *)
Theorem batch_rasters_are_those_of_each_scene_alone
    (E : env) (A : args) (sched : list nat) (ds : gset string)
    (rs : gmap string (grid * raster_profile)) (n : nat)
    (folder file : string) :
  NoDup (scene_folders E A) ->
  Forall (fun f => no_slash f = true) (scene_folders E A) ->
  folder ∈ scene_folders E A ->
  rasters (snd (run_batch E A sched (start_world ds rs n)))
    !! path_join (path_join (OUTPUT_ROOT A) folder) file
  = rasters (snd (process_scene E A (SELECTED_INDICES A)
                    (path_join (INPUT_ROOT A) folder) (start_world ds rs n)))
      !! path_join (path_join (OUTPUT_ROOT A) folder) file.
Proof.
  intros Hnd Hns Hin. rewrite run_batch_collect.
  set (w1 := logging LogBatchStarted (start_world ds rs n)).
  assert (Hw : rasters (snd (collect E A sched w1))
                 !! path_join (path_join (OUTPUT_ROOT A) folder) file
               = rasters (snd (process_scene E A (SELECTED_INDICES A)
                                 (path_join (INPUT_ROOT A) folder) w1))
                   !! path_join (path_join (OUTPUT_ROOT A) folder) file).
  { unfold collect.
    destruct (scene_folders E A) as [|f [|f' rest]].
    - apply elem_of_nil in Hin as [].
    - apply list_elem_of_singleton in Hin as ->.
      destruct (process_scene E A (SELECTED_INDICES A)
                  (path_join (INPUT_ROOT A) f) w1) as [result w2].
      reflexivity.
    - apply pool_rasters; assumption. }
  assert (Hs : rasters (snd (match save_summary E A
                                     (fst (collect E A sched w1))
                                     (OUTPUT_ROOT A)
                                     (snd (collect E A sched w1)) with
                             | (Ok _, w') => (Ok tt, logging LogAllProcessed w')
                             | (Raise e, w') => (Raise e, w')
                             end))
               = rasters (snd (collect E A sched w1))).
  { pose proof (save_summary_rasters E A (fst (collect E A sched w1))
                  (OUTPUT_ROOT A) (snd (collect E A sched w1))) as H.
    destruct (save_summary E A _ _ _) as [[u|e] w3]; exact H. }
  rewrite Hs, Hw. apply process_scene_rasters_world. reflexivity.
Qed.

Lemma batch_rasters_are_those_of_each_scene_alone_witness :
  rasters (snd (run_batch env_two_scenes args_all [1; 0; 0; 1; 1; 0]%nat
                  (start_world ∅ ∅ 0)))
    !! path_join (path_join (OUTPUT_ROOT args_all) "s2") "NBR.tif"
  = rasters (snd (process_scene env_two_scenes args_all
                    (SELECTED_INDICES args_all)
                    (path_join (INPUT_ROOT args_all) "s2")
                    (start_world ∅ ∅ 0)))
      !! path_join (path_join (OUTPUT_ROOT args_all) "s2") "NBR.tif".
Proof.
  apply (batch_rasters_are_those_of_each_scene_alone env_two_scenes args_all
           [1; 0; 0; 1; 1; 0]%nat ∅ ∅ 0 "s2" "NBR.tif").
  - apply (bool_decide_unpack _). vm_compute. exact I.
  - repeat constructor.
  - vm_compute. right. left.
Defined.

(* ===================================================================== *)
(** * Scenes with nothing to compute                                      *)
(* ===================================================================== *)

(** An entry of the result comes from a statement of the [try] block
    whose guard held. *)
Lemma process_scene_entry_guard (E : env) (A : args) (sel : list string)
    (path : string) (w : world) (name : string) (b : bool) :
  entries (fst (process_scene E A sel path w)) !! name = Some b ->
  exists s, s ∈ INDEX_TABLE /\ idx_name s = name /\
    guard sel (bands (fst (run_loads E band_files (scene_begin E path w)))) s
    = true.
Proof.
  intros Hb.
  destruct (decide (name ∈ map idx_name INDEX_TABLE)) as [Hin|Hout].
  - apply list_elem_of_fmap in Hin as (s & -> & Hs).
    exists s. split; [exact Hs|]. split; [reflexivity|].
    apply list_elem_of_split in Hs as (pre & post & Ht).
    assert (Hsome : is_Some (entries (fst (process_scene E A sel path w))
                               !! idx_name s)) by (rewrite Hb; eauto).
    apply (process_scene_entry_iff E A sel path w pre post s Ht) in Hsome.
    cbv zeta in Hsome. apply Hsome.
  - exfalso. rewrite process_scene_unfold in Hb.
    pose proof (loaded_state E path w) as Hl.
    destruct (run_loads E band_files (scene_begin E path w)) as [l w0].
    cbn [fst snd] in Hl. cbv zeta in Hl.
    destruct Hl as (_ & _ & _ & He0 & _).
    rewrite (surjective_pairing (run_indices E A sel INDEX_TABLE (l, w0)))
      in Hb.
    destruct (scene_finish_fields E
                (fst (run_indices E A sel INDEX_TABLE (l, w0)))
                (snd (run_indices E A sel INDEX_TABLE (l, w0))))
      as (He & _).
    rewrite He, (run_indices_entries_other E A sel _ _ _ _ Hout), He0,
      lookup_empty in Hb. discriminate.
Qed.

(** X13: a scene for which no statement of the [try] block has its
    guard true (no band file at all, or for every index a band of its
    guard missing or the index not selected) gives a result without any
    index entry, and the call writes no raster and creates no directory:
    the output tree is as before. *)
Theorem scene_without_feasible_index_writes_nothing
    (E : env) (A : args) (sel : list string) (path : string) (w : world) :
  (forall s, s ∈ INDEX_TABLE ->
     guard sel (bands (fst (load_phase E (scene_begin E path w)))) s = false) ->
  let out := process_scene E A sel path w in
  entries (fst out) = ∅ /\
  rasters (snd out) = rasters w /\
  dirs (snd out) = dirs w.
Proof.
  intros Hno out. subst out. rewrite load_phase_run_loads in Hno.
  assert (He : entries (fst (process_scene E A sel path w)) = ∅).
  { apply map_eq. intros name. rewrite lookup_empty.
    destruct (entries (fst (process_scene E A sel path w)) !! name)
      as [b|] eqn:Hb; [exfalso|reflexivity].
    destruct (process_scene_entry_guard E A sel path w name b Hb)
      as (s & Hs & _ & Hg).
    rewrite (Hno s Hs) in Hg. discriminate. }
  split; [exact He|]. split.
  - apply map_eq. intros p.
    destruct (process_scene_rasters_cases E A sel path w p)
      as [H|(s & _ & _ & _ & Ht)]; [exact H|].
    rewrite He, lookup_empty in Ht. discriminate.
  - pose proof (run_task_dirs E A sel task_fuel path (Submitted path) w
                  eq_refl) as H.
    rewrite run_task_fuel in H. cbn [fst snd] in H.
    destruct H as [H|[_ H]]; [exact H|contradiction].
Qed.

Lemma scene_without_feasible_index_writes_nothing_witness :
  let out := process_scene env_b3_b5 args_all ["NDVI"; "EVI"; "GCI"] "in/s"
               empty_world in
  entries (fst out) = ∅ /\
  rasters (snd out) = rasters empty_world /\
  dirs (snd out) = dirs empty_world.
Proof.
  apply (scene_without_feasible_index_writes_nothing env_b3_b5 args_all
           ["NDVI"; "EVI"; "GCI"] "in/s" empty_world).
  intros s Hs. change (s ∈ INDEX_TABLE) in Hs. unfold INDEX_TABLE in Hs.
  repeat (apply elem_of_cons in Hs as [->|Hs]; [vm_compute; reflexivity|]).
  apply elem_of_nil in Hs as [].
Defined.

(* ===================================================================== *)
(** * What the log reports                                                *)
(* ===================================================================== *)

Section LogFacts.
Variable E : env.
Variable A : args.
Variable sel : list string.

Lemma run_loads_grows (kfs : list (string * string)) (l : locals) (w : world) :
  grows w (snd (run_loads E kfs (l, w))).
Proof.
  revert l w. induction kfs as [|kf kfs IH]; intros l w; [apply grows_refl|].
  change (run_loads E (kf :: kfs) (l, w))
    with (run_loads E kfs (load_step E kf (l, w))).
  pose proof (load_step_grows E kf l w) as H.
  destruct (load_step E kf (l, w)) as [l1 w1].
  eapply grows_trans; [exact H|apply IH].
Qed.

Lemma run_indices_grows (ss : list index_spec) (l : locals) (w : world) :
  grows w (snd (run_indices E A sel ss (l, w))).
Proof.
  revert l w. induction ss as [|s ss IH]; intros l w; [apply grows_refl|].
  rewrite run_indices_cons.
  pose proof (index_step_grows E A sel s l w) as H.
  destruct (index_step E A sel s (l, w)) as [l1 w1].
  eapply grows_trans; [exact H|apply IH].
Qed.

Lemma load_reported_grows (path name f : string) (w w' : world) :
  grows w w' -> load_reported E path name f w -> load_reported E path name f w'.
Proof.
  intros Hg. unfold load_reported.
  destruct (file_at E (path_join path f)); [|intros [H1 H2]; split|auto];
    eauto using grows_in.
Qed.

Lemma save_reported_grows (out name : string) (b : bool) (w w' : world) :
  grows w w' -> save_reported out name b w -> save_reported out name b w'.
Proof.
  intros Hg. unfold save_reported. destruct b; [eauto using grows_in|].
  intros [e He]. exists e. eauto using grows_in.
Qed.

Lemma load_step_reports (k f : string) (l : locals) (w : world) :
  load_reported E (scene_path l) (scene_name l) f
    (snd (load_step E (k, f) (l, w))).
Proof.
  unfold load_reported, load_step, load_band.
  destruct (file_at E (path_join (scene_path l) f)); cbn.
  - apply elem_of_app. right. apply list_elem_of_here.
  - split; apply elem_of_app; [left; apply elem_of_app|]; right;
      apply list_elem_of_here.
  - exact I.
Qed.

Lemma run_loads_reports (kfs : list (string * string)) (l : locals)
    (w : world) (k f : string) :
  (k, f) ∈ kfs ->
  load_reported E (scene_path l) (scene_name l) f
    (snd (run_loads E kfs (l, w))).
Proof.
  revert l w. induction kfs as [|kf kfs IH]; intros l w Hin.
  - apply elem_of_nil in Hin as [].
  - change (run_loads E (kf :: kfs) (l, w))
      with (run_loads E kfs (load_step E kf (l, w))).
    apply elem_of_cons in Hin as [<-|Hin].
    + pose proof (load_step_reports k f l w) as H.
      destruct (load_step E (k, f) (l, w)) as [l1 w1]. cbn [snd] in H.
      eapply load_reported_grows; [apply run_loads_grows|exact H].
    + pose proof (load_step_frame E kf l w) as Hf.
      destruct (load_step E kf (l, w)) as [l1 w1]. cbn [fst snd] in Hf.
      cbv zeta in Hf. destruct Hf as (<- & <- & _). apply IH, Hin.
Qed.

Lemma save_index_reports (arr : grid) (name : string)
    (prof : option raster_profile) (dir : string) (w : world) :
  save_reported (path_join dir (name ++ ".tif")) name
    (fst (fst (save_index E arr name prof dir w)))
    (snd (save_index E arr name prof dir w)).
Proof.
  unfold save_reported, save_index, persist.
  destruct (makedirs_ok E dir); cbn;
    [|eexists; apply elem_of_app; right; apply list_elem_of_here].
  destruct prof as [q|]; cbn;
    [|eexists; apply elem_of_app; right; apply list_elem_of_here].
  destruct (write_ok E _ _ _); cbn;
    [|eexists; apply elem_of_app; right; apply list_elem_of_here].
  apply elem_of_app. right. apply list_elem_of_here.
Qed.

(** Every entry recorded so far is reported in the log. *)
Lemma index_step_reports (s : index_spec) (l : locals) (w : world) :
  (forall name b, entries (results l) !! name = Some b ->
     save_reported (out_path A l name) name b w) ->
  forall name b,
    entries (results (fst (index_step E A sel s (l, w)))) !! name = Some b ->
    save_reported (out_path A l name) name b
      (snd (index_step E A sel s (l, w))).
Proof.
  intros Hold name b.
  destruct (index_step_outcome E A sel s l w)
    as [e Hp|Hp Hg|e Hp Hg Hc|arr Hp Hg Hc]; try (apply Hold).
  - cbn [fst snd results]. intros Hb.
    eapply save_reported_grows; [|apply Hold, Hb].
    apply grows_logging. reflexivity.
  - pose proof (save_index_reports arr (idx_name s) (profile l)
                  (output_dir A l) w) as Hnew.
    pose proof (save_index_grows E arr (idx_name s) (profile l)
                  (output_dir A l) w) as Hg'.
    destruct (save_index _ _ _ _ _ _) as [[ok q] w']. cbn [fst snd] in *.
    cbn [results entries].
    destruct (decide (name = idx_name s)) as [->|Hne].
    + rewrite lookup_insert_eq. intros [= <-]. exact Hnew.
    + rewrite lookup_insert_ne by congruence. intros Hb.
      eapply save_reported_grows; [exact Hg'|apply Hold, Hb].
Qed.

Lemma run_indices_reports (ss : list index_spec) (l : locals) (w : world) :
  (forall name b, entries (results l) !! name = Some b ->
     save_reported (out_path A l name) name b w) ->
  forall name b,
    entries (results (fst (run_indices E A sel ss (l, w)))) !! name = Some b ->
    save_reported (out_path A l name) name b
      (snd (run_indices E A sel ss (l, w))).
Proof.
  revert l w. induction ss as [|s ss IH]; intros l w Hold; [exact Hold|].
  rewrite run_indices_cons.
  pose proof (index_step_reports s l w Hold) as H1.
  pose proof (index_step_frame E A sel s l w) as Hf.
  destruct (index_step E A sel s (l, w)) as [l1 w1]. cbn [fst snd] in *.
  intros name b Hb. rewrite <- (out_path_frame A l l1 name Hf).
  apply IH; [|exact Hb].
  intros name' b' Hb'. rewrite (out_path_frame A l l1 name' Hf).
  apply H1, Hb'.
Qed.

Lemma process_scene_reports (path : string) (w : world) :
  (forall k f, (k, f) ∈ band_files ->
     load_reported E path (basename path) f
       (snd (process_scene E A sel path w))) /\
  (forall name b,
     entries (fst (process_scene E A sel path w)) !! name = Some b ->
     save_reported
       (path_join (path_join (OUTPUT_ROOT A) (basename path)) (name ++ ".tif"))
       name b (snd (process_scene E A sel path w))).
Proof.
  rewrite process_scene_unfold.
  assert (Hb : scene_path (fst (scene_begin E path w)) = path /\
               scene_name (fst (scene_begin E path w)) = basename path)
    by (split; reflexivity).
  pose proof (loaded_state E path w) as Hl.
  assert (Hloads : forall k f, (k, f) ∈ band_files ->
            load_reported E path (basename path) f
              (snd (run_loads E band_files (scene_begin E path w)))).
  { intros k f Hin. destruct (scene_begin E path w) as [l0 w0].
    cbn [fst] in Hb. destruct Hb as [<- <-].
    apply (run_loads_reports band_files l0 w0 k f Hin). }
  destruct (run_loads E band_files (scene_begin E path w)) as [l w0].
  cbn [fst snd] in *. cbv zeta in Hl.
  destruct Hl as (_ & Hname & _ & He0 & _).
  pose proof (run_indices_grows INDEX_TABLE l w0) as Hg.
  assert (Hsaves := run_indices_reports INDEX_TABLE l w0).
  destruct (run_indices E A sel INDEX_TABLE (l, w0)) as [l2 w2].
  cbn [fst snd] in *.
  destruct (scene_finish_grows E l2 w2) as [Hg2 _].
  destruct (scene_finish_fields E l2 w2) as (He & _).
  split.
  - intros k f Hin. eapply load_reported_grows; [exact Hg2|].
    eapply load_reported_grows; [exact Hg|]. apply (Hloads k f Hin).
  - intros name b Hb'. rewrite He in Hb'.
    eapply save_reported_grows; [exact Hg2|].
    rewrite <- Hname. apply Hsaves; [|exact Hb'].
    intros name' b'. rewrite He0, lookup_empty. discriminate.
Qed.

End LogFacts.

(** X14: the log of a call of [process_scene] accounts for everything
    that went wrong and for every raster written.  Each of the band
    files B2..B7 that is missing has its warning; each one that exists
    and could not be read has the error of [load_band] and the warning
    of the loop; each index whose entry is [True] has the message of its
    raster file; each index whose entry is [False] has the error of
    [save_index] with the exception caught. *)
Theorem process_scene_reports_loads_and_saves
    (E : env) (A : args) (sel : list string) (path : string) (w : world) :
  let out := process_scene E A sel path w in
  (forall k f, (k, f) ∈ band_files ->
     match file_at E (path_join path f) with
     | Missing => LogMissing f (basename path) ∈ log (snd out)
     | Unreadable =>
         LogLoadFailed (path_join path f) ∈ log (snd out) /\
         LogCouldNotLoad f (basename path) ∈ log (snd out)
     | Readable _ _ => True
     end) /\
  (forall name,
     entries (fst out) !! name = Some true ->
     LogSaved (path_join (path_join (OUTPUT_ROOT A) (basename path))
                         (name ++ ".tif")) ∈ log (snd out)) /\
  (forall name,
     entries (fst out) !! name = Some false ->
     exists e, LogSaveFailed name e ∈ log (snd out)).
Proof.
  intros out. subst out.
  destruct (process_scene_reports E A sel path w) as [Hl Hs].
  split; [exact Hl|]. split; intros name Hb; exact (Hs name _ Hb).
Qed.

Lemma process_scene_reports_loads_and_saves_witness :
  LogLoadFailed "in/s/B4.tif"
    ∈ log (snd (process_scene env_b4_unreadable args_all ALL_INDICES "in/s"
                  empty_world)) /\
  LogCouldNotLoad "B4.tif" "s"
    ∈ log (snd (process_scene env_b4_unreadable args_all ALL_INDICES "in/s"
                  empty_world)).
Proof.
  destruct (process_scene_reports_loads_and_saves env_b4_unreadable args_all
              ALL_INDICES "in/s" empty_world) as (H & _).
  apply (H "B4"%string "B4.tif"%string).
  unfold band_files. right. right. left.
Defined.

(* ===================================================================== *)
(** * The formulas, pixel by pixel                                        *)
(* ===================================================================== *)

Lemma binop_cell (op : f32 -> f32 -> f32) (a b : grid) (i j : nat) (x y : f32) :
  shape_eq a b -> cell a i j = Some x -> cell b i j = Some y ->
  returns_cell a i j (op x y) (binop op a b).
Proof.
  intros Hs Ha Hb. exists (zip_with (zip_with op) a b).
  split; [apply binop_shape_eq, Hs|].
  split; [apply zip_with_shape, Hs|apply cell_zip_with; assumption].
Qed.

Lemma safe_divide_returns_cell (n d : grid) (i j : nat) (x y : f32) :
  shape_eq n d -> cell n i j = Some x -> cell d i j = Some y ->
  returns_cell n i j (safe_quotient x y) (safe_divide n d).
Proof.
  intros Hs Hn Hd. destruct (safe_divide_cell n d Hs) as (q & Hq & Hqs & Hc).
  exists q. split; [exact Hq|]. split; [exact Hqs|]. apply Hc; assumption.
Qed.

Lemma map_cells_cell (f : f32 -> f32) (a : grid) (i j : nat) (x : f32) :
  cell a i j = Some x -> cell (map_cells f a) i j = Some (f x).
Proof. intros H. rewrite cell_map_cells, H. reflexivity. Qed.

Section PixelFormulas.
Variables (a b c : grid) (i j : nat) (x y z : f32).
Hypothesis Hab : shape_eq a b.
Hypothesis Hac : shape_eq a c.
Hypothesis Ha : cell a i j = Some x.
Hypothesis Hb : cell b i j = Some y.
Hypothesis Hc : cell c i j = Some z.

Lemma ratio_form_px :
  returns_cell a i j (ndvi_px x y)
    (n ← binop sub a b; d ← binop add a b; safe_divide n d).
Proof.
  destruct (binop_cell sub a b i j x y Hab Ha Hb) as (n & -> & Hns & Hn).
  destruct (binop_cell add a b i j x y Hab Ha Hb) as (d & -> & Hds & Hd).
  cbv beta iota delta [mbind res_bind].
  destruct (safe_divide_returns_cell n d i j _ _
              (shape_eq_trans _ _ _ Hns (shape_eq_sym _ _ Hds)) Hn Hd)
    as (q & Hq & Hqs & Hqc).
  exists q. split; [exact Hq|].
  split; [exact (shape_eq_trans _ _ _ Hqs Hns)|exact Hqc].
Qed.

Lemma calculate_savi_px :
  returns_cell a i j (savi_px x y) (calculate_savi a b SAVI_L).
Proof.
  unfold calculate_savi.
  destruct (binop_cell sub a b i j x y Hab Ha Hb) as (n & -> & Hns & Hn).
  destruct (binop_cell add a b i j x y Hab Ha Hb) as (d & -> & Hds & Hd).
  cbv beta iota zeta delta [mbind res_bind].
  destruct (safe_divide_returns_cell n
              (map_cells (fun v => add v SAVI_L) d) i j (sub x y)
              (add (add x y) SAVI_L))
    as (q & -> & Hqs & Hqc).
  - eapply shape_eq_trans; [exact Hns|]. apply shape_eq_sym.
    eapply shape_eq_trans; [apply map_cells_shape|exact Hds].
  - exact Hn.
  - apply (map_cells_cell (fun v => add v SAVI_L)), Hd.
  - eexists. split; [reflexivity|]. split.
    + eapply shape_eq_trans; [apply map_cells_shape|].
      exact (shape_eq_trans _ _ _ Hqs Hns).
    + apply (map_cells_cell (fun v => mul v (add (lit 1 0) SAVI_L))), Hqc.
Qed.

Lemma calculate_evi_px (G C1 C2 L : f32) :
  returns_cell a i j (evi_px G C1 C2 L x y z) (calculate_evi a b c G C1 C2 L).
Proof.
  unfold calculate_evi.
  destruct (binop_cell sub a b i j x y Hab Ha Hb) as (n & -> & Hns & Hn).
  destruct (binop_cell add a (map_cells (fun v => mul C1 v) b) i j
              x (mul C1 y)) as (t1 & -> & Ht1s & Ht1).
  { eapply shape_eq_trans; [exact Hab|apply shape_eq_sym, map_cells_shape]. }
  { exact Ha. }
  { apply (map_cells_cell (fun v => mul C1 v)), Hb. }
  cbv beta iota delta [mbind res_bind].
  destruct (binop_cell sub t1 (map_cells (fun v => mul C2 v) c) i j
              (add x (mul C1 y)) (mul C2 z)) as (t2 & -> & Ht2s & Ht2).
  { eapply shape_eq_trans; [exact Ht1s|].
    eapply shape_eq_trans; [exact Hac|apply shape_eq_sym, map_cells_shape]. }
  { exact Ht1. }
  { apply (map_cells_cell (fun v => mul C2 v)), Hc. }
  cbv beta iota zeta delta [mbind res_bind].
  destruct (safe_divide_returns_cell n
              (map_cells (fun v => add v L) t2) i j (sub x y)
              (add (sub (add x (mul C1 y)) (mul C2 z)) L))
    as (q & -> & Hqs & Hqc).
  - eapply shape_eq_trans; [exact Hns|]. apply shape_eq_sym.
    eapply shape_eq_trans; [apply map_cells_shape|].
    exact (shape_eq_trans _ _ _ Ht2s Ht1s).
  - exact Hn.
  - apply (map_cells_cell (fun v => add v L)), Ht2.
  - eexists. split; [reflexivity|]. split.
    + eapply shape_eq_trans; [apply map_cells_shape|].
      exact (shape_eq_trans _ _ _ Hqs Hns).
    + apply (map_cells_cell (fun v => mul G v)), Hqc.
Qed.

Lemma calculate_arvi_px :
  returns_cell a i j (arvi_px x y z) (calculate_arvi a b c).
Proof.
  unfold calculate_arvi, arvi_px.
  assert (Hbc : shape_eq b c)
    by exact (shape_eq_trans _ _ _ (shape_eq_sym _ _ Hab) Hac).
  destruct (binop_cell sub b c i j y z Hbc Hb Hc) as (rb & -> & Hrbs & Hrb).
  cbv beta iota delta [mbind res_bind].
  destruct (binop_cell sub b (map_cells (fun v => mul (lit 2 0) v) rb) i j
              y (mul (lit 2 0) (sub y z))) as (rc & -> & Hrcs & Hrc).
  { apply shape_eq_sym.
    eapply shape_eq_trans; [apply map_cells_shape|exact Hrbs]. }
  { exact Hb. }
  { apply (map_cells_cell (fun v => mul (lit 2 0) v)), Hrb. }
  cbv beta iota delta [mbind res_bind].
  assert (Harc : shape_eq a rc)
    by exact (shape_eq_trans _ _ _ Hab (shape_eq_sym _ _ Hrcs)).
  destruct (binop_cell sub a rc i j x _ Harc Ha Hrc) as (n & -> & Hns & Hn).
  destruct (binop_cell add a rc i j x _ Harc Ha Hrc) as (d & -> & Hds & Hd).
  cbv beta iota zeta delta [mbind res_bind].
  destruct (safe_divide_returns_cell n d i j _ _
              (shape_eq_trans _ _ _ Hns (shape_eq_sym _ _ Hds)) Hn Hd)
    as (q & Hq & Hqs & Hqc).
  exists q. split; [exact Hq|].
  split; [exact (shape_eq_trans _ _ _ Hqs Hns)|exact Hqc].
Qed.

Lemma calculate_gci_px :
  returns_cell a i j (gci_px x y) (calculate_gci a b).
Proof.
  unfold calculate_gci.
  destruct (safe_divide_returns_cell a b i j x y Hab Ha Hb)
    as (q & -> & Hqs & Hqc).
  cbv beta iota delta [mbind res_bind].
  eexists. split; [reflexivity|]. split.
  - eapply shape_eq_trans; [apply map_cells_shape|exact Hqs].
  - apply (map_cells_cell (fun v => sub v (lit 1 0))), Hqc.
Qed.

End PixelFormulas.

(** X15: on bands of one shape each index function, called as the
    program calls it, computes at every pixel the formula of its index
    on the float32 values of the bands at that pixel, with 0 in place of
    a quotient that is NaN: NDVI, NBR, NBWI and NDBI the normalized
    difference of their two operands, SAVI and EVI their formulas with
    the default coefficients ([L = 0.5]; [G = 2.5], [C1 = 6],
    [C2 = 7.5], [L = 1]), ARVI the normalized difference of NIR and the
    corrected red, GCI the quotient minus 1.  The result has the shape
    of the bands. *)
Theorem index_functions_compute_their_formula_at_each_pixel
    (a b c : grid) (i j : nat) (x y z : f32) :
  shape_eq a b -> shape_eq a c ->
  cell a i j = Some x -> cell b i j = Some y -> cell c i j = Some z ->
  returns_cell a i j (ndvi_px x y) (calculate_ndvi a b) /\
  returns_cell a i j (ndvi_px x y) (calculate_nbr a b) /\
  returns_cell a i j (ndvi_px x y) (calculate_nbwi a b) /\
  returns_cell a i j (ndvi_px x y) (calculate_ndbi a b) /\
  returns_cell a i j (savi_px x y) (calculate_savi a b SAVI_L) /\
  returns_cell a i j (evi_px EVI_G EVI_C1 EVI_C2 EVI_L x y z)
    (calculate_evi a b c EVI_G EVI_C1 EVI_C2 EVI_L) /\
  returns_cell a i j (arvi_px x y z) (calculate_arvi a b c) /\
  returns_cell a i j (gci_px x y) (calculate_gci a b).
Proof.
  intros Hab Hac Ha Hb Hc.
  pose proof (ratio_form_px a b i j x y Hab Ha Hb) as Hr.
  split; [exact Hr|]. split; [exact Hr|]. split; [exact Hr|].
  split; [exact Hr|].
  split; [apply calculate_savi_px; assumption|].
  split; [apply calculate_evi_px; assumption|].
  split; [apply calculate_arvi_px; assumption|].
  apply calculate_gci_px; assumption.
Qed.

Lemma index_functions_compute_their_formula_at_each_pixel_witness :
  returns_cell [[f_one; f_half]] 0 1
    (arvi_px f_half f_one f_half)
    (calculate_arvi [[f_one; f_half]] [[f_half; f_one]] [[f_one; f_half]]).
Proof.
  apply (index_functions_compute_their_formula_at_each_pixel
           [[f_one; f_half]] [[f_half; f_one]] [[f_one; f_half]] 0 1
           f_half f_one f_half);
    reflexivity.
Defined.
